(** * org-web: outline editing, agenda extraction and notification scheduling

    A shallow embedding of [src/utils.py], [src/main.py] and
    [src/xmpp_bot.py], followed by the properties established for them.

    Python values are modelled as follows.
    - [str] is a list of characters ([ascii], i.e. code points below 256);
    - integers used as indices or counts are [nat], other integers are [Z];
    - [dict] is stdpp's [gmap], [set] is stdpp's [gset];
    - a raised exception is a value [Raise e] of the type [res];
    - floating-point durations are exact rationals ([Q]). *)

From Stdlib Require Import ZArith QArith Lqa Ascii String List Lia Bool.
From stdpp Require Import gmap strings list fin_maps.
Import ListNotations.
Open Scope string_scope.
Open Scope list_scope.
Open Scope nat_scope.

(* ===================================================================== *)
(** * Part I: definitions                                                 *)
(* ===================================================================== *)

(** ** Python built-ins used by the sources *)

Module Py.

(** A Python [str]. *)
Abbreviation str := (list ascii) (only parsing).

(** A string literal of the source. *)
Definition py (s : string) : str := list_ascii_of_string s.

Definition LF : ascii := ascii_of_nat 10.
Definition TAB : ascii := ascii_of_nat 9.
Definition star : ascii := ascii_of_nat 42.

(** Exceptions raised by the built-ins that the sources call. *)
Inductive exn := IndexError | ValueError | OSError | ParseError.

Inductive res (A : Type) :=
| Ok (a : A)
| Raise (e : exn).
Arguments Ok {A} a.
Arguments Raise {A} e.

(** [try: x = e except: pass] over a variable initialised to [None]. *)
Definition try_or_none {A} (r : res A) : option A :=
  match r with Ok a => Some a | Raise _ => None end.

Definition bind {A B} (r : res A) (k : A -> res B) : res B :=
  match r with Ok a => k a | Raise e => Raise e end.

Definition str_eqb (a b : str) : bool := bool_decide (a = b).

(** [c.isspace()] for one character; [str.strip] and the regex class [\s]
    use the same table: TAB..CR, FS..US, SPACE, NEL and NBSP. *)
Definition isspace (c : ascii) : bool :=
  let n := nat_of_ascii c in
  ((9 <=? n) && (n <=? 13)) || ((28 <=? n) && (n <=? 32))
  || (n =? 133) || (n =? 160).

Fixpoint lstrip (s : str) : str :=
  match s with
  | [] => []
  | c :: r => if isspace c then lstrip r else s
  end.

Fixpoint rstrip (s : str) : str :=
  match s with
  | [] => []
  | c :: r =>
      match rstrip r with
      | [] => if isspace c then [] else [c]
      | r' => c :: r'
      end
  end.

(** [s.strip()] *)
Definition strip (s : str) : str := rstrip (lstrip s).

(** Truth value of a [str]: the empty string is false. *)
Definition truthy (s : str) : bool :=
  match s with [] => false | _ => true end.

(** ["*" * n] for an [int] [n]: negative counts give the empty string. *)
Definition str_mul (c : ascii) (n : Z) : str := repeat c (Z.to_nat n).

Fixpoint startswith (p s : str) : bool :=
  match p, s with
  | [], _ => true
  | a :: p', b :: s' => bool_decide (a = b) && startswith p' s'
  | _ :: _, [] => false
  end.

Definition cons_head (c : ascii) (parts : list str) : list str :=
  match parts with
  | [] => [[c]]
  | p :: ps => (c :: p) :: ps
  end.

(** [s.split(sep)] for a non-empty separator: non-overlapping occurrences
    of [sep], found left to right. [skip] counts the characters of an
    occurrence that are still to be passed over. *)
Fixpoint split_go (sep : str) (skip : nat) (s : str) : list str :=
  match s with
  | [] => [[]]
  | c :: r =>
      match skip with
      | S k => split_go sep k r
      | O =>
          if startswith sep s
          then [] :: split_go sep (length sep - 1) r
          else cons_head c (split_go sep 0 r)
      end
  end.

Definition split (sep : str) (s : str) : list str := split_go sep 0 s.

(** [content.split("\n")] *)
Definition splitlines (s : str) : list str := split [LF] s.

(** A string that can be one line of a text: it holds no line feed. *)
Definition no_lf (l : str) : Prop := LF ∉ l.

(** [sep.join(parts)] *)
Fixpoint join (sep : str) (parts : list str) : str :=
  match parts with
  | [] => []
  | [p] => p
  | p :: ps => p ++ sep ++ join sep ps
  end.

(** [s.split(sep, 1)] for a one-character separator. *)
Fixpoint split1 (sep : ascii) (s : str) : list str :=
  match s with
  | [] => [[]]
  | c :: r =>
      if bool_decide (c = sep) then [[]; r]
      else match split1 sep r with
           | [a] => [c :: a]
           | a :: rest => (c :: a) :: rest
           | [] => [[c]]
           end
  end.

(** [xs[i]] for a non-negative index. *)
Definition index {A} (xs : list A) (i : nat) : res A :=
  match xs !! i with
  | Some x => Ok x
  | None => Raise IndexError
  end.

(** [s.split()]: maximal runs of non-whitespace characters. [cur] is the
    run being read, in reverse. *)
Fixpoint split_ws_go (cur : str) (s : str) : list str :=
  match s with
  | [] => match cur with [] => [] | _ => [rev cur] end
  | c :: r =>
      if isspace c
      then match cur with
           | [] => split_ws_go [] r
           | _ => rev cur :: split_ws_go [] r
           end
      else split_ws_go (c :: cur) r
  end.

Definition split_ws (s : str) : list str := split_ws_go [] s.

(** [s.replace(old, new)] for a non-empty [old]: the occurrences replaced
    are the ones [split] cuts at. *)
Definition replace (old new s : str) : str := join new (split old s).

(** [c.lower()] on code points below 256: [A]..[Z] and the accented
    capitals U+00C0..U+00DE other than the multiplication sign. *)
Definition lower_char (c : ascii) : ascii :=
  let n := nat_of_ascii c in
  if ((65 <=? n) && (n <=? 90))
     || ((192 <=? n) && (n <=? 222) && negb (n =? 215))
  then ascii_of_nat (n + 32) else c.

Definition lower (s : str) : str := map lower_char s.

(** [sub in s] *)
Fixpoint contains (sub s : str) : bool :=
  startswith sub s
  || match s with
     | [] => false
     | _ :: r => contains sub r
     end.

End Py.

Export Py.

(** A document given by its lines: the lines joined with line feeds. *)
Definition doc (ls : list string) : str := join [LF] (map py ls).

(** ** [src/utils.py]: the outline locator and editor *)

Module Utils.

Fixpoint take_while (p : ascii -> bool) (s : str) : str :=
  match s with
  | c :: r => if p c then c :: take_while p r else []
  | [] => []
  end.

Fixpoint drop_while (p : ascii -> bool) (s : str) : str :=
  match s with
  | c :: r => if p c then drop_while p r else s
  | [] => []
  end.

Definition is_star (c : ascii) : bool := bool_decide (c = star).

(** [re.match(r"^(\*+)\s+(.+)$", line)] on a line without line feed, as
    [(group(1), group(2))]. [\*+] takes the whole run of stars (a shorter
    run would be followed by a star, not by whitespace); [\s+] is greedy
    and takes the whole run of whitespace, unless nothing would be left for
    [.+], in which case it gives back its last character. Without a line
    feed in the line, [.] is any character and [$] is the end of the line,
    so the pattern [r"^(\*+)\s+(.+)"] of the agenda extractor has the same
    groups. *)
Definition heading_pattern (line : str) : option (str * str) :=
  let stars := take_while is_star line in
  let rest := drop_while is_star line in
  let ws := take_while isspace rest in
  let text := drop_while isspace rest in
  match stars, ws with
  | _ :: _, _ :: more =>
      match text, more with
      | _ :: _, _ => Some (stars, text)
      | [], _ :: _ => Some (stars, drop (length ws - 1) ws)
      | [], [] => None
      end
  | _, _ => None
  end.

(** The inner loop of [find_heading_in_content]: [lines[j:]] is [rest];
    [Some j] when the loop breaks at [j]. *)
Fixpoint scan_end (stars : str) (j : nat) (rest : list str) : option nat :=
  match rest with
  | [] => None
  | line :: rest' =>
      match heading_pattern line with
      | Some (next_stars, _) =>
          if length next_stars <=? length stars then Some j
          else scan_end stars (S j) rest'
      | None => scan_end stars (S j) rest'
      end
  end.

(** The outer loop: [lines[i:]] is [rest], [total] is [len(lines)]. *)
Fixpoint scan_heading (target_stars target_heading : str) (total : nat)
    (i : nat) (rest : list str) : option (nat * nat) :=
  match rest with
  | [] => None
  | line :: rest' =>
      match heading_pattern line with
      | Some (stars, text) =>
          if str_eqb stars target_stars && str_eqb (strip text) target_heading
          then Some (i, default total (scan_end stars (S i) rest'))
          else scan_heading target_stars target_heading total (S i) rest'
      | None => scan_heading target_stars target_heading total (S i) rest'
      end
  end.

Definition find_heading_in_content (content target_heading : str) (level : Z)
    : option (nat * nat) :=
  let lines := splitlines content in
  let target_stars := str_mul star level in
  scan_heading target_stars target_heading (length lines) 0 lines.

(** [extract_title_from_content]: [Ok None] is the return value [None]. *)
Fixpoint extract_title_lines (lines : list str) : res (option str) :=
  match lines with
  | [] => Ok None
  | line :: rest =>
      if startswith (py "#+title:") line || startswith (py "#+TITLE:") line
      then match index (split1 ":" line) 1 with
           | Ok t => Ok (Some (strip t))
           | Raise e => Raise e
           end
      else extract_title_lines rest
  end.

Definition extract_title_from_content (content : str) : res (option str) :=
  extract_title_lines (splitlines content).

(** The callers' [title = extract_title_from_content(content)] followed by
    [if not title: title = file.stem] ([load_all_org_files] in [main.py] and
    both agenda extractors). *)
Definition file_title (content stem : str) : res str :=
  match extract_title_from_content content with
  | Ok (Some t) => Ok (if truthy t then t else stem)
  | Ok None => Ok stem
  | Raise e => Raise e
  end.

(** [while xs and not xs[0].strip(): xs.pop(0)] *)
Fixpoint pop_blank_front (xs : list str) : list str :=
  match xs with
  | [] => []
  | x :: r => if truthy (strip x) then xs else pop_blank_front r
  end.

(** [while xs and not xs[-1].strip(): xs.pop()] *)
Fixpoint pop_blank_back (xs : list str) : list str :=
  match xs with
  | [] => []
  | x :: r =>
      match pop_blank_back r with
      | [] => if truthy (strip x) then [x] else []
      | r' => x :: r'
      end
  end.

Definition get_heading_content (content heading : str) (level : Z) : str :=
  match find_heading_in_content content heading level with
  | None => []
  | Some (start_line, end_line) =>
      let lines := splitlines content in
      if start_line + 1 <? end_line then
        let content_lines :=
          take (end_line - (start_line + 1)) (drop (start_line + 1) lines) in
        join [LF] (pop_blank_back (pop_blank_front content_lines))
      else []
  end.

(** The lines a new heading contributes: the heading line and, for a body
    with non-blank content, a blank line and the body's lines. *)
Definition heading_block (level : Z) (new_heading new_content : str)
    : list str :=
  let stars := str_mul star level in
  let new_heading_line := stars ++ py " " ++ new_heading in
  [new_heading_line]
  ++ (if truthy (strip new_content) then [] :: splitlines new_content else []).

Definition update_heading_in_content
    (content old_heading new_heading new_content : str) (level : Z) : str :=
  let lines := splitlines content in
  match find_heading_in_content content old_heading level with
  | None => content
  | Some (start_line, end_line) =>
      let new_lines := take start_line lines in
      let new_lines := new_lines ++ heading_block level new_heading new_content in
      let new_lines := new_lines ++ drop end_line lines in
      join [LF] new_lines
  end.

End Utils.

Export Utils.

(** ** [src/main.py]: inserting a heading *)

Module Main.

(** [new_lines and new_lines[-1].strip()] *)
Definition last_line_nonblank (new_lines : list str) : bool :=
  match last new_lines with
  | Some l => truthy (strip l)
  | None => false
  end.

(** [parent_heading] is [None] or a string; both [None] and [""] are
    false. The [auth] argument is never a redirect response when the
    function is called by the route, so that branch is not part of the
    text transformation. *)
Definition add_heading_to_content (content : str)
    (parent_heading : option str) (parent_level : Z)
    (new_heading new_content : str) (new_level : Z) : str :=
  let lines := splitlines content in
  let position :=
    match parent_heading with
    | Some (c :: p) =>
        match find_heading_in_content content (c :: p) parent_level with
        | None => None
        | Some (start_line, end_line) => Some end_line
        end
    | _ => Some (length lines)
    end in
  match position with
  | None => content
  | Some insert_position =>
      let new_lines := take insert_position lines in
      let new_lines :=
        if last_line_nonblank new_lines then new_lines ++ [[]] else new_lines in
      let new_lines := new_lines ++ heading_block new_level new_heading new_content in
      let new_lines := new_lines ++ drop insert_position lines in
      join [LF] new_lines
  end.

End Main.

Export Main.

(** ** Specification-side definitions for the outline locator *)

Module LocatorSpec.

(** A heading line with [n] markers and label [label]: [n] marker
    characters, one or more separator characters, then a non-empty text
    whose trimmed form is [label]. [sep] says which characters separate the
    markers from the text. *)
Definition is_heading_of (sep : ascii -> bool) (n : nat) (label line : str)
    : Prop :=
  0 < n /\
  exists ws text : str,
    ws <> [] /\ Forall (fun c => sep c = true) ws /\ text <> [] /\
    line = repeat star n ++ ws ++ text /\ strip text = label.

Definition is_heading_line (sep : ascii -> bool) (n : nat) (line : str)
    : Prop :=
  exists label, is_heading_of sep n label line.

(** The separator of the specification's wording: the space character. *)
Definition space_only (c : ascii) : bool := bool_decide (c = " "%char).

(** The contract of [locate] on the lines of a document: the heading is
    the topmost line that matches, and the end is the first line strictly
    after it that is a heading line with at most [level] markers, or the
    line count when there is no such line. *)
Definition locate_spec (sep : ascii -> bool) (lines : list str)
    (label : str) (level : nat) (r : option (nat * nat)) : Prop :=
  match r with
  | None =>
      forall i line, lines !! i = Some line ->
        ~ is_heading_of sep level label line
  | Some (body_start_line, body_end_line) =>
      (exists line, lines !! body_start_line = Some line /\
                    is_heading_of sep level label line) /\
      (forall i line, i < body_start_line -> lines !! i = Some line ->
        ~ is_heading_of sep level label line) /\
      (forall j line n, body_start_line < j < body_end_line ->
        lines !! j = Some line -> is_heading_line sep n line -> level < n) /\
      (body_end_line = length lines \/
       exists line n, lines !! body_end_line = Some line /\
                      is_heading_line sep n line /\ n <= level) /\
      body_start_line < body_end_line /\
      body_start_line <= body_end_line <= length lines
  end.

End LocatorSpec.

Export LocatorSpec.


(** ** Specification-side definitions for the document title *)

Module TitleSpec.

(** A [#+title:] line in any casing. *)
Definition is_title_line_nocase (line : str) : bool :=
  str_eqb (lower (take 8 line)) (py "#+title:").

Fixpoint title_nocase_lines (lines : list str) (stem : str) : str :=
  match lines with
  | [] => stem
  | line :: rest =>
      if is_title_line_nocase line then strip (drop 8 line)
      else title_nocase_lines rest stem
  end.

(** The title as the specification words it: the trimmed text after the
    colon of the first [#+title:] line, matched without regard to case,
    else the file's base name. *)
Definition title_nocase (content stem : str) : str :=
  title_nocase_lines (splitlines content) stem.

(** The two spellings the code looks for. *)
Definition title_prefix (p : str) : Prop :=
  p = py "#+title:" \/ p = py "#+TITLE:".

Definition is_title_line (line : str) : Prop :=
  exists p rest, title_prefix p /\ line = p ++ rest.

End TitleSpec.

Export TitleSpec.

(** ** Calendar dates and [datetime.strptime(s, "%Y-%m-%d")] *)

Module Dates.

Local Open Scope Z_scope.

Record date := Date { year : Z; month : Z; day : Z }.

Global Instance date_eq_dec : EqDecision date.
Proof. solve_decision. Defined.

Definition is_leap (y : Z) : bool :=
  (y mod 4 =? 0) && (negb (y mod 100 =? 0) || (y mod 400 =? 0)).

Definition days_in_month (y m : Z) : Z :=
  if m =? 2 then (if is_leap y then 29 else 28)
  else if (m =? 4) || (m =? 6) || (m =? 9) || (m =? 11) then 30
  else 31.

(** [datetime.date(y, m, d)]: the constructor checks its arguments. *)
Definition make_date (y m d : Z) : res date :=
  if (1 <=? y) && (y <=? 9999) && (1 <=? m) && (m <=? 12)
     && (1 <=? d) && (d <=? days_in_month y m)
  then Ok (Date y m d) else Raise ValueError.

(** The regex class [\d] on code points below 256. *)
Definition digit (c : ascii) : option Z :=
  let n := nat_of_ascii c in
  if ((48 <=? n) && (n <=? 57))%nat then Some (Z.of_nat n - 48) else None.

Definition digit_in (lo hi : Z) (c : ascii) : option Z :=
  match digit c with
  | Some d => if (lo <=? d) && (d <=? hi) then Some d else None
  | None => None
  end.

(** One alternative of a directive: the value read and the rest of the
    input, when the alternative matches at the start of [s]. *)
Definition two_digits (lo1 hi1 lo2 hi2 : Z) (s : str) : list (Z * str) :=
  match s with
  | a :: b :: r =>
      match digit_in lo1 hi1 a, digit_in lo2 hi2 b with
      | Some x, Some y => [(10 * x + y, r)]
      | _, _ => []
      end
  | _ => []
  end.

Definition one_digit (lo hi : Z) (s : str) : list (Z * str) :=
  match s with
  | a :: r => match digit_in lo hi a with Some x => [(x, r)] | None => [] end
  | _ => []
  end.

(** [%Y] is [\d\d\d\d]. *)
Definition directive_Y (s : str) : list (Z * str) :=
  match s with
  | a :: b :: c :: d :: r =>
      match digit a, digit b, digit c, digit d with
      | Some w, Some x, Some y, Some z =>
          [(1000 * w + 100 * x + 10 * y + z, r)]
      | _, _, _, _ => []
      end
  | _ => []
  end.

(** [%m] is [1[0-2]|0[1-9]|[1-9]]: the matching alternatives, in the
    order the regex engine tries them. *)
Definition directive_m (s : str) : list (Z * str) :=
  two_digits 1 1 0 2 s ++ two_digits 0 0 1 9 s ++ one_digit 1 9 s.

(** [%d] is [3[0-1]|[1-2]\d|0[1-9]|[1-9]| [1-9]]. *)
Definition directive_d (s : str) : list (Z * str) :=
  two_digits 3 3 0 1 s ++ two_digits 1 2 0 9 s ++ two_digits 0 0 1 9 s
  ++ one_digit 1 9 s
  ++ match s with
     | " "%char :: r => one_digit 1 9 r
     | _ => []
     end.

Definition literal (c : ascii) (s : str) : list str :=
  match s with
  | a :: r => if bool_decide (a = c) then [r] else []
  | [] => []
  end.

(** All the ways the pattern of ["%Y-%m-%d"] matches a prefix of [s], in
    the engine's order of preference; the first one is the match that
    [re.match] returns. *)
Definition ymd_matches (s : str) : list (Z * Z * Z * str) :=
  '(y, r1) ← directive_Y s;
  r2 ← literal "-" r1;
  '(m, r3) ← directive_m r2;
  r4 ← literal "-" r3;
  '(d, r5) ← directive_d r4;
  [(y, m, d, r5)].

(** [datetime.strptime(s, "%Y-%m-%d").date()]: no match and unconverted
    data are [ValueError]s, and so is a day that the month does not have. *)
Definition strptime_ymd (s : str) : res date :=
  match ymd_matches s with
  | [] => Raise ValueError
  | (y, m, d, rest) :: _ =>
      match rest with
      | [] => make_date y m d
      | _ :: _ => Raise ValueError
      end
  end.

End Dates.

Export Dates.

(** ** [src/utils.py]: the agenda extractors *)

Module Agenda.

(** The regex class [[^>]]. *)
Definition not_gt (c : ascii) : bool := negb (bool_decide (c = ">"%char)).

(** The regex [KEYWORD:\s*<([^>]+)>] anchored at the start of [s], as
    [group(1)]. Neither [\s*] nor [[^>]+] can give characters back: the
    character after the run is not in the class of what must follow. *)
Definition stamp_here (keyword : str) (s : str) : option str :=
  if startswith keyword s then
    match drop_while isspace (drop (length keyword) s) with
    | c :: r =>
        if bool_decide (c = "<"%char) then
          let value := take_while not_gt r in
          match value, drop_while not_gt r with
          | _ :: _, _ :: _ => Some value
          | _, _ => None
          end
        else None
    | [] => None
    end
  else None.

(** [re.search]: the match at the leftmost position that has one. *)
Fixpoint stamp_search (keyword : str) (s : str) : option str :=
  match stamp_here keyword s with
  | Some v => Some v
  | None =>
      match s with
      | [] => None
      | _ :: r => stamp_search keyword r
      end
  end.

(** The body of the [try]: [date_str.split()[0]], then [strptime]. *)
Definition stamp_date (date_str : str) : res date :=
  bind (index (split_ws date_str) 0) strptime_ymd.

Definition stamp (keyword : str) (content_after_heading : str) : option date :=
  match stamp_search keyword content_after_heading with
  | Some date_str => try_or_none (stamp_date date_str)
  | None => None
  end.

(** The closure [parse_timestamps_in_content], the same text in both
    extractors. *)
Definition parse_timestamps_in_content
    (heading_text content_after_heading : str) : option date * option date :=
  (stamp (py "SCHEDULED:") content_after_heading,
   stamp (py "DEADLINE:") content_after_heading).

(** [if current_heading: content_sections[current_heading] = ...] *)
Definition store_section (current_heading : option str)
    (current_content : list str) (content_sections : gmap str str)
    : gmap str str :=
  match current_heading with
  | Some (c :: h) => <[c :: h := join [LF] current_content]> content_sections
  | _ => content_sections
  end.

(** The scan that builds [content_sections], the same text in both
    extractors. *)
Fixpoint scan_sections (lines : list str) (current_heading : option str)
    (current_content : list str) (content_sections : gmap str str)
    : gmap str str :=
  match lines with
  | [] => store_section current_heading current_content content_sections
  | line :: rest =>
      match heading_pattern line with
      | Some (_, text) =>
          scan_sections rest (Some (strip text)) []
            (store_section current_heading current_content content_sections)
      | None =>
          scan_sections rest current_heading (current_content ++ [line])
            content_sections
      end
  end.

Definition build_content_sections (content : str) : gmap str str :=
  scan_sections (splitlines content) None [] ∅.

(** A node of the tree that the outline parser returns. *)
#[warnings="-register-all"]
Inductive OrgNode :=
| Node (heading : str) (todo : option str) (tags : list str)
       (priority : option str) (children : list OrgNode).

Definition node_heading (n : OrgNode) : str :=
  match n with Node h _ _ _ _ => h end.
Definition node_todo (n : OrgNode) : option str :=
  match n with Node _ t _ _ _ => t end.
Definition node_tags (n : OrgNode) : list str :=
  match n with Node _ _ t _ _ => t end.
Definition node_priority (n : OrgNode) : option str :=
  match n with Node _ _ _ p _ => p end.
Definition node_children (n : OrgNode) : list OrgNode :=
  match n with Node _ _ _ _ c => c end.

(** [re.match(r"^(ACTIVE|NEXT|TODO|WAIT|DONE)\s+", heading)] as
    [(group(1), heading[len(group(0)):])]. *)
Fixpoint status_token (keywords : list str) (heading : str)
    : option (str * str) :=
  match keywords with
  | [] => None
  | k :: ks =>
      if startswith k heading
      then match drop (length k) heading with
           | c :: r =>
               if isspace c then Some (k, drop_while isspace (c :: r))
               else status_token ks heading
           | [] => status_token ks heading
           end
      else status_token ks heading
  end.

Definition status_keywords : list str :=
  [py "ACTIVE"; py "NEXT"; py "TODO"; py "WAIT"; py "DONE"].

Definition opt_truthy (o : option str) : bool :=
  match o with Some (_ :: _) => true | _ => false end.

(** [(todo_keyword, original_heading)] of a node with a non-empty
    heading. *)
Definition status_and_title (heading : str) (todo : option str)
    : option str * str :=
  if opt_truthy todo then (todo, heading)
  else match status_token status_keywords heading with
       | Some (k, rest) => (Some k, strip rest)
       | None => (todo, heading)
       end.

(** [content_sections.get(original_heading,
                          content_sections.get(node.heading, ""))] *)
Definition heading_content (content_sections : gmap str str)
    (original_heading heading : str) : str :=
  default (default [] (content_sections !! heading))
          (content_sections !! original_heading).

Record Item := {
  title : str;
  file_name : str;
  item_file_title : str;
  todo_keyword : option str;
  tags : list str;
  priority : option str;
  scheduled : option date;
  deadline : option date;
  is_task_file : bool
}.

Record AgendaItems := {
  schedules_today : list Item;
  deadlines_today : list Item;
  todos : gmap str (list Item)
}.

Definition empty_agenda : AgendaItems :=
  {| schedules_today := [];
     deadlines_today := [];
     todos := <[py "ACTIVE" := []]> (<[py "NEXT" := []]>
              (<[py "TODO" := []]> (<[py "WAIT" := []]> ∅))) |}.

Definition open_keywords : list str :=
  [py "ACTIVE"; py "NEXT"; py "TODO"; py "WAIT"].

(** What a walk has changed so far: the file's [processed_items] and the
    shared [agenda_items]. *)
Definition walk_state : Type := gset str * AgendaItems.

Definition add_schedule (i : Item) (a : AgendaItems) : AgendaItems :=
  {| schedules_today := schedules_today a ++ [i];
     deadlines_today := deadlines_today a;
     todos := todos a |}.

Definition add_deadline (i : Item) (a : AgendaItems) : AgendaItems :=
  {| schedules_today := schedules_today a;
     deadlines_today := deadlines_today a ++ [i];
     todos := todos a |}.

(** [agenda_items["todos"][k].append(i)]; [k] is one of the four keys the
    dictionary is created with. *)
Definition add_todo (k : str) (i : Item) (a : AgendaItems) : AgendaItems :=
  {| schedules_today := schedules_today a;
     deadlines_today := deadlines_today a;
     todos := alter (fun l => l ++ [i]) k (todos a) |}.

(** [if item_id not in processed_items: processed_items.add(item_id);
    <append>] *)
Definition once (item_id : str) (append : AgendaItems -> AgendaItems)
    (st : walk_state) : walk_state :=
  if bool_decide (item_id ∈ st.1) then st
  else ({[item_id]} ∪ st.1, append st.2).

Definition is_today (d : option date) (today : date) : bool :=
  match d with Some x => bool_decide (x = today) | None => false end.

Definition is_open (todo_keyword : option str) : option str :=
  match todo_keyword with
  | Some k => if opt_truthy (Some k) && bool_decide (k ∈ open_keywords)
              then Some k else None
  | None => None
  end.

Definition schedule_id (name original_heading : str) : str :=
  py "schedule:" ++ name ++ py ":" ++ original_heading.
Definition deadline_id (name original_heading : str) : str :=
  py "deadline:" ++ name ++ py ":" ++ original_heading.
Definition todo_id (name k original_heading : str) : str :=
  py "todo:" ++ name ++ py ":" ++ k ++ py ":" ++ original_heading.

Section PerFile.

(** What the closures of one file capture. *)
Variables (today : date) (name file_title_ : str)
          (content_sections : gmap str str).

Definition item_data (node : OrgNode) (flag : bool) : Item :=
  let '(todo_keyword, original_heading) :=
    status_and_title (node_heading node) (node_todo node) in
  let heading_content_ :=
    heading_content content_sections original_heading (node_heading node) in
  let '(scheduled, deadline) :=
    parse_timestamps_in_content original_heading heading_content_ in
  {| title := original_heading;
     file_name := name;
     item_file_title := file_title_;
     todo_keyword := todo_keyword;
     tags := node_tags node;
     priority := node_priority node;
     scheduled := scheduled;
     deadline := deadline;
     is_task_file := flag |}.

(** The three [if] blocks of [walk_nodes] in [parse_org_agenda_items]. *)
Definition visit (is_task_file_ : bool) (node : OrgNode) (st : walk_state)
    : walk_state :=
  let i := item_data node is_task_file_ in
  let st :=
    if is_today (scheduled i) today
    then once (schedule_id name (title i)) (add_schedule i) st else st in
  let st :=
    if is_today (deadline i) today
    then once (deadline_id name (title i)) (add_deadline i) st else st in
  match is_open (todo_keyword i) with
  | Some k => once (todo_id name k (title i)) (add_todo k i) st
  | None => st
  end.

(** The same blocks in [parse_org_agenda_items_task_only]: the last one
    has the further condition [and is_task_file]. *)
Definition visit_task_only (is_task_file_ : bool) (node : OrgNode)
    (st : walk_state) : walk_state :=
  let i := item_data node is_task_file_ in
  let st :=
    if is_today (scheduled i) today
    then once (schedule_id name (title i)) (add_schedule i) st else st in
  let st :=
    if is_today (deadline i) today
    then once (deadline_id name (title i)) (add_deadline i) st else st in
  match is_open (todo_keyword i) with
  | Some k =>
      if is_task_file_
      then once (todo_id name k (title i)) (add_todo k i) st else st
  | None => st
  end.

Fixpoint walk_nodes (is_task_file_ : bool) (node : OrgNode) (st : walk_state)
    : walk_state :=
  let st := if truthy (node_heading node)
            then visit is_task_file_ node st else st in
  (fix walk_children (cs : list OrgNode) (st : walk_state) : walk_state :=
     match cs with
     | [] => st
     | child :: cs' => walk_children cs' (walk_nodes is_task_file_ child st)
     end) (node_children node) st.

Fixpoint walk_nodes_task_only (is_task_file_ : bool) (node : OrgNode)
    (st : walk_state) : walk_state :=
  let st := if truthy (node_heading node)
            then visit_task_only is_task_file_ node st else st in
  (fix walk_children (cs : list OrgNode) (st : walk_state) : walk_state :=
     match cs with
     | [] => st
     | child :: cs' =>
         walk_children cs' (walk_nodes_task_only is_task_file_ child st)
     end) (node_children node) st.

End PerFile.

(** A file of the directory: its name, what reading it gives, and what the
    outline parser gives for it (the children of the root node). *)
Record OrgFile := {
  path_name : str;
  read_text : res str;
  orgparse_load : res (list OrgNode)
}.

(** [file_path.stem]: the name without its last suffix. *)
Definition path_stem (name : str) : str :=
  if (4 <? length name)%nat && str_eqb (drop (length name - 4) name) (py ".org")
  then take (length name - 4) name else name.

(** [has_task_filetag] *)
Definition has_task_filetag (filename : str) : bool :=
  let parts := split (py "__") filename in
  existsb
    (fun part =>
       let clean_part := lower (replace (py ".org") [] part) in
       let tag_components := split (py "_") clean_part in
       bool_decide (py "task" ∈ tag_components))
    (drop 1 parts).

(** The body of the [try] for one file in [parse_org_agenda_items]; an
    exception leaves [agenda_items] as it was, since reading and parsing
    come before the first append. *)
Definition process_file (today : date) (f : OrgFile)
    (agenda_items : AgendaItems) : AgendaItems :=
  match read_text f, orgparse_load f with
  | Ok content, Ok root_children =>
      match file_title content (path_stem (path_name f)) with
      | Ok file_title_ =>
          let is_task_file_ :=
            contains (py "__task") (path_name f)
            || contains (py "_task") (path_name f) in
          let content_sections := build_content_sections content in
          (fold_left
             (fun st child =>
                walk_nodes today (path_name f) file_title_ content_sections
                  is_task_file_ child st)
             root_children (∅, agenda_items)).2
      | Raise _ => agenda_items
      end
  | _, _ => agenda_items
  end.

Definition process_file_task_only (today : date) (f : OrgFile)
    (agenda_items : AgendaItems) : AgendaItems :=
  match read_text f, orgparse_load f with
  | Ok content, Ok root_children =>
      let is_task_file_ := has_task_filetag (path_name f) in
      match file_title content (path_stem (path_name f)) with
      | Ok file_title_ =>
          let content_sections := build_content_sections content in
          (fold_left
             (fun st child =>
                walk_nodes_task_only today (path_name f) file_title_
                  content_sections is_task_file_ child st)
             root_children (∅, agenda_items)).2
      | Raise _ => agenda_items
      end
  | _, _ => agenda_items
  end.

(** [org_files] is the directory listing, [today] is [date.today()]. *)
Definition parse_org_agenda_items (org_files : list OrgFile) (today : date)
    : AgendaItems :=
  fold_left (fun a f => process_file today f a) org_files empty_agenda.

Definition parse_org_agenda_items_task_only (org_files : list OrgFile)
    (today : date) : AgendaItems :=
  fold_left (fun a f => process_file_task_only today f a) org_files
    empty_agenda.

End Agenda.

Export Agenda.

(** ** Specification-side definitions for the agenda extractors *)

Module AgendaSpec.

(** The timestamp as the specification words it: the first ten characters
    of the bracketed value, parsed as [YYYY-MM-DD]. *)
Definition worded_stamp (keyword content_after_heading : str) : option date :=
  match stamp_search keyword content_after_heading with
  | Some date_str => try_or_none (strptime_ymd (take 10 date_str))
  | None => None
  end.

(** The item with its task-file flag set as the task-only extractor sets
    it. *)
Definition retag (i : Item) : Item :=
  {| title := title i;
     file_name := file_name i;
     item_file_title := item_file_title i;
     todo_keyword := todo_keyword i;
     tags := tags i;
     priority := priority i;
     scheduled := scheduled i;
     deadline := deadline i;
     is_task_file := has_task_filetag (file_name i) |}.

(** The items that come from a file with the [task] filetag. *)
Definition from_task_file (i : Item) : bool := has_task_filetag (file_name i).

Definition restrict_to_task_files (items : list Item) : list Item :=
  map retag (List.filter from_task_file items).

(** The task-only agenda is the full agenda with every item's flag
    recomputed and the status lists cut down to the task files. *)
Definition agenda_rel (full task : AgendaItems) : Prop :=
  schedules_today task = map retag (schedules_today full) /\
  deadlines_today task = map retag (deadlines_today full) /\
  todos task = restrict_to_task_files <$> todos full.

Definition is_todo_id (item_id : str) : bool := startswith (py "todo:") item_id.

(** Within one file: the task-only walk has processed the same keys,
    except the status keys when the file has no [task] filetag. *)
Definition state_rel (b : bool) (full task : walk_state) : Prop :=
  (forall item_id, item_id ∈ task.1 <->
     item_id ∈ full.1 /\ (b = true \/ is_todo_id item_id = false)) /\
  agenda_rel full.2 task.2.

(** A file named [20240101T090000--meeting_tasks.org] with one heading
    scheduled on 2024-01-01. *)
Definition meeting_file : OrgFile :=
  {| path_name := py "20240101T090000--meeting_tasks.org";
     read_text := Ok (doc ["#+title: Meetings"; "* Review";
                           "SCHEDULED: <2024-01-01 Mon>"]);
     orgparse_load := Ok [Node (py "Review") None [] None []] |}.

End AgendaSpec.

Export AgendaSpec.

(** ** [src/xmpp_bot.py]: the notification scheduler *)

Module XmppBot.

Local Open Scope Z_scope.

Record time := Time { hour : Z; minute : Z; second : Z; microsecond : Z }.

Record datetime := DateTime { date_of : date; time_of : time }.

(** [datetime.combine(d, t)] *)
Definition combine (d : date) (t : time) : datetime := DateTime d t.

Definition days_before_year (y : Z) : Z :=
  let p := y - 1 in p * 365 + p / 4 - p / 100 + p / 400.

Fixpoint days_before_month_nat (y : Z) (m : nat) : Z :=
  match m with
  | O => 0
  | S k => days_before_month_nat y k + days_in_month y (Z.of_nat (S k))
  end.

(** Days of the year [y] before the first day of its month [m]. *)
Definition days_before_month (y m : Z) : Z :=
  days_before_month_nat y (Z.to_nat (m - 1)).

(** [d.toordinal()] *)
Definition toordinal (d : date) : Z :=
  days_before_year (year d) + days_before_month (year d) (month d) + day d.

Definition microsecond_of_day (t : time) : Z :=
  ((hour t * 60 + minute t) * 60 + second t) * 1000000 + microsecond t.

(** [a - b] for two naive datetimes: a [timedelta], held as its exact
    number of microseconds. *)
Definition sub_datetime (a b : datetime) : Z :=
  (toordinal (date_of a) - toordinal (date_of b)) * 86400000000
  + (microsecond_of_day (time_of a) - microsecond_of_day (time_of b)).

(** [td.total_seconds()] *)
Definition total_seconds (td : Z) : Q := td # 1000000.

(** [t1 <= t2] on [datetime.time] values. *)
Definition time_le (a b : time) : bool :=
  microsecond_of_day a <=? microsecond_of_day b.

Definition digit_char (d : Z) : ascii := ascii_of_nat (48 + Z.to_nat d).

(** [n] in decimal on [width] digits, padded with zeros. *)
Fixpoint zero_padded (width : nat) (n : Z) : str :=
  match width with
  | O => []
  | S w => zero_padded w (n / 10) ++ [digit_char (n mod 10)]
  end.

(** [d.isoformat()] for a date *)
Definition date_isoformat (d : date) : str :=
  zero_padded 4 (year d) ++ py "-" ++ zero_padded 2 (month d)
  ++ py "-" ++ zero_padded 2 (day d).

(** [dt.isoformat()] for a naive datetime: the microseconds are printed
    only when they are not zero. *)
Definition datetime_isoformat (dt : datetime) : str :=
  let t := time_of dt in
  date_isoformat (date_of dt) ++ py "T"
  ++ zero_padded 2 (hour t) ++ py ":" ++ zero_padded 2 (minute t)
  ++ py ":" ++ zero_padded 2 (second t)
  ++ (if microsecond t =? 0 then []
      else py "." ++ zero_padded 6 (microsecond t)).

(** The scheduler's state: the fields of [CommandBot] that the two loops
    read or write. [subscribers] lists the set in the order in which a
    [for] loop over it visits its elements. *)
Record Bot := {
  subscribers : list str;
  sent_notifications : gset str;
  notification_start : time;
  notification_end : time
}.

Definition record_sent (key : str) (bot : Bot) : Bot :=
  {| subscribers := subscribers bot;
     sent_notifications := {[key]} ∪ sent_notifications bot;
     notification_start := notification_start bot;
     notification_end := notification_end bot |}.

(** One call of [send_notification_to_subscribers]: the message and the
    recipients for which [send_message] was called, in order. *)
Record Broadcast := { message : str; attempts : list str }.

(** The ladder of [check_schedule_notifications]: the suffix of the key
    and the first line of the message of the branch taken. *)
Definition schedule_bucket (total_minutes : Q) : option (str * str) :=
  if Qle_bool 90 total_minutes && Qle_bool total_minutes 120
  then Some (py "_2h", py "Appointment in ~2 hours:")
  else if Qle_bool 60 total_minutes && negb (Qle_bool 90 total_minutes)
  then Some (py "_90m", py "Appointment in ~1.5 hours:")
  else if Qle_bool 45 total_minutes && negb (Qle_bool 60 total_minutes)
  then Some (py "_1h", py "Appointment in ~1 hour:")
  else if Qle_bool 30 total_minutes && negb (Qle_bool 45 total_minutes)
  then Some (py "_45m", py "Appointment in ~45 minutes:")
  else if Qle_bool 15 total_minutes && negb (Qle_bool 30 total_minutes)
  then Some (py "_30m", py "Appointment in ~30 minutes:")
  else if Qle_bool 0 total_minutes && negb (Qle_bool 15 total_minutes)
  then Some (py "_15m", py "URGENT: Appointment in ~15 minutes:")
  else None.

(** The single test of [check_deadline_notifications]. *)
Definition deadline_bucket (total_hours : Q) : option (str * str) :=
  if Qle_bool 6 total_hours && Qle_bool total_hours 8
  then Some (py "_today", py "DEADLINE TODAY:")
  else None.

Definition schedule_total_minutes (scheduled_time now : datetime) : Q :=
  (total_seconds (sub_datetime scheduled_time now) / 60)%Q.

Definition deadline_total_hours (deadline_time now : datetime) : Q :=
  (total_seconds (sub_datetime deadline_time now) / 3600)%Q.

Definition schedule_notification_id (item : Item) (scheduled_time : datetime)
    : str :=
  py "schedule_" ++ file_name item ++ py "_" ++ title item ++ py "_"
  ++ datetime_isoformat scheduled_time.

Definition deadline_notification_id (item : Item) (deadline_time : datetime)
    : str :=
  py "deadline_" ++ file_name item ++ py "_" ++ title item ++ py "_"
  ++ date_isoformat (date_of deadline_time).

(** The key a call of [check_schedule_notifications] looks up, when a
    branch of the ladder is taken. *)
Definition schedule_key (item : Item) (scheduled_time now : datetime)
    : option str :=
  match schedule_bucket (schedule_total_minutes scheduled_time now) with
  | Some (suffix, _) => Some (schedule_notification_id item scheduled_time ++ suffix)
  | None => None
  end.

Definition deadline_key (item : Item) (deadline_time now : datetime)
    : option str :=
  match deadline_bucket (deadline_total_hours deadline_time now) with
  | Some (suffix, _) => Some (deadline_notification_id item deadline_time ++ suffix)
  | None => None
  end.

Definition notification_text (lead : str) (item : Item) : str :=
  lead ++ [LF] ++ title item ++ py " (" ++ item_file_title item ++ py ")".

Section Transport.

(** The chat transport: [send_message] either queues the message or
    raises; [net] is whatever state of the transport decides which. *)
Context {net : Type}.
Variable send_message : net -> str -> str -> res unit * net.

(** The [for] loop of [send_notification_to_subscribers], inside its
    [try]: an exception ends the loop. *)
Fixpoint send_loop (n : net) (subs : list str) (msg : str)
    : res unit * net * list str :=
  match subs with
  | [] => (Ok tt, n, [])
  | subscriber :: rest =>
      match send_message n subscriber msg with
      | (Ok _, n') =>
          let '(r, n'', tried) := send_loop n' rest msg in
          (r, n'', subscriber :: tried)
      | (Raise e, n') => (Raise e, n', [subscriber])
      end
  end.

(** [send_notification_to_subscribers]: the exception, if any, is logged
    and not raised again. *)
Definition send_notification_to_subscribers (bot : Bot) (n : net) (msg : str)
    : net * Broadcast :=
  let '(_, n', tried) := send_loop n (subscribers bot) msg in
  (n', {| message := msg; attempts := tried |}).

(** [if key not in self.sent_notifications: await send(...);
    self.sent_notifications.add(key)] *)
Definition notify_once (key msg : str) (bot : Bot) (n : net)
    : Bot * net * list Broadcast :=
  if bool_decide (key ∈ sent_notifications bot) then (bot, n, [])
  else
    let '(n', b) := send_notification_to_subscribers bot n msg in
    (record_sent key bot, n', [b]).

Definition check_schedule_notifications (bot : Bot) (n : net) (item : Item)
    (scheduled_time now : datetime) : Bot * net * list Broadcast :=
  let total_minutes := schedule_total_minutes scheduled_time now in
  let notification_id := schedule_notification_id item scheduled_time in
  match schedule_bucket total_minutes with
  | Some (suffix, lead) =>
      notify_once (notification_id ++ suffix) (notification_text lead item) bot n
  | None => (bot, n, [])
  end.

Definition check_deadline_notifications (bot : Bot) (n : net) (item : Item)
    (deadline_time now : datetime) : Bot * net * list Broadcast :=
  let total_hours := deadline_total_hours deadline_time now in
  let notification_id := deadline_notification_id item deadline_time in
  match deadline_bucket total_hours with
  | Some (suffix, lead) =>
      notify_once (notification_id ++ suffix) (notification_text lead item) bot n
  | None => (bot, n, [])
  end.

(** One call made by the threshold watch. *)
Inductive call :=
| CheckSchedule (item : Item) (scheduled_time now : datetime)
| CheckDeadline (item : Item) (deadline_time now : datetime).

Definition call_key (c : call) : option str :=
  match c with
  | CheckSchedule item t now => schedule_key item t now
  | CheckDeadline item t now => deadline_key item t now
  end.

Definition do_call (c : call) (bot : Bot) (n : net)
    : Bot * net * list Broadcast :=
  match c with
  | CheckSchedule item t now => check_schedule_notifications bot n item t now
  | CheckDeadline item t now => check_deadline_notifications bot n item t now
  end.

Fixpoint do_calls (cs : list call) (bot : Bot) (n : net)
    : Bot * net * list Broadcast :=
  match cs with
  | [] => (bot, n, [])
  | c :: rest =>
      let '(bot', n', bs) := do_call c bot n in
      let '(bot'', n'', bs') := do_calls rest bot' n' in
      (bot'', n'', bs ++ bs')
  end.

(** [is_notification_time], at the time [at_] it reads the clock. *)
Definition is_notification_time (bot : Bot) (at_ : datetime) : bool :=
  time_le (notification_start bot) (time_of at_)
  && time_le (time_of at_) (notification_end bot).

(** The calls of one pass of [schedule_deadline_notifications] over an
    extracted agenda: the two [for] loops, in order. *)
Definition pass_calls (agenda : AgendaItems) (now : datetime) : list call :=
  omap (fun item =>
          match scheduled item with
          | Some d => Some (CheckSchedule item (combine d (Time 9 0 0 0)) now)
          | None => None
          end) (schedules_today agenda)
  ++ omap (fun item =>
             match deadline item with
             | Some d => Some (CheckDeadline item (combine d (Time 23 59 0 0)) now)
             | None => None
             end) (deadlines_today agenda).

(** One pass of the threshold watch: [checked_at] is the time at which
    the window is tested, [now] the time read after the extraction. *)
Definition threshold_watch_pass (agenda : AgendaItems)
    (checked_at now : datetime) (bot : Bot) (n : net)
    : Bot * net * list Broadcast :=
  if is_notification_time bot checked_at
  then do_calls (pass_calls agenda now) bot n
  else (bot, n, []).

End Transport.

End XmppBot.

Export XmppBot.

(** ** Specification-side definitions for the scheduler *)

Module SchedulerSpec.

Local Open Scope Q_scope.

(** The key suffix selected for a schedule, and for a deadline. *)
Definition schedule_bucket_key (total_minutes : Q) : option str :=
  fst <$> schedule_bucket total_minutes.

Definition deadline_bucket_key (total_hours : Q) : option str :=
  fst <$> deadline_bucket total_hours.

(** The ladder as the specification words it, with every interval closed
    on the left and open on the right. *)
Definition half_open (lo hi x : Q) : bool :=
  Qle_bool lo x && negb (Qle_bool hi x).

Definition worded_schedule_bucket_key (total_minutes : Q) : option str :=
  if half_open 90 120 total_minutes then Some (py "_2h")
  else if half_open 60 90 total_minutes then Some (py "_90m")
  else if half_open 45 60 total_minutes then Some (py "_1h")
  else if half_open 30 45 total_minutes then Some (py "_45m")
  else if half_open 15 30 total_minutes then Some (py "_30m")
  else if half_open 0 15 total_minutes then Some (py "_15m")
  else None.

(** A transport without state in which sending to one recipient raises. *)
Definition failing_for (bad : str) (n : unit) (mto mbody : str)
    : res unit * unit :=
  (if str_eqb mto bad then Raise OSError else Ok tt, tt).

Definition example_bot (subs : list str) : Bot :=
  {| subscribers := subs;
     sent_notifications := ∅;
     notification_start := Time 8 0 0 0;
     notification_end := Time 22 0 0 0 |}.

(** A transport in which every send succeeds. *)
Definition always_ok (n : unit) (mto mbody : str) : res unit * unit :=
  (Ok tt, tt).

Definition standup : Item :=
  {| title := py "Standup";
     file_name := py "work.org";
     item_file_title := py "Work";
     todo_keyword := None;
     tags := [];
     priority := None;
     scheduled := Some (Date 2024 1 1);
     deadline := None;
     is_task_file := false |}.

(** Two calls of the watch that are about the same notice: the same file
    name and title, the same scheduled date and time (for a deadline, the
    same date), and the same branch of the ladder. *)
Definition same_notice (c c' : call) : Prop :=
  match c, c' with
  | CheckSchedule item t now, CheckSchedule item' t' now' =>
      file_name item = file_name item' /\ title item = title item' /\
      t = t' /\
      exists b, schedule_bucket_key (schedule_total_minutes t now) = Some b /\
                schedule_bucket_key (schedule_total_minutes t' now') = Some b
  | CheckDeadline item t now, CheckDeadline item' t' now' =>
      file_name item = file_name item' /\ title item = title item' /\
      date_of t = date_of t' /\
      exists b, deadline_bucket_key (deadline_total_hours t now) = Some b /\
                deadline_bucket_key (deadline_total_hours t' now') = Some b
  | _, _ => False
  end.

(** The item [standup] after it was moved to the next day. *)
Definition standup_moved : Item :=
  {| title := py "Standup";
     file_name := py "work.org";
     item_file_title := py "Work";
     todo_keyword := None;
     tags := [];
     priority := None;
     scheduled := Some (Date 2024 1 2);
     deadline := None;
     is_task_file := false |}.

End SchedulerSpec.

Export SchedulerSpec.

(** * Further definitions used by the properties *)

(** A line with something other than white space on it. *)
Definition nonblank (l : list ascii) : Prop := truthy (strip l) = true.

(** A line that does not close the section of a heading of [level]
    markers: not a heading line, or a heading line with more markers. *)
Definition shallower_free (level : Z) (l : list ascii) : Prop :=
  forall stars text,
    heading_pattern l = Some (stars, text) -> Z.to_nat level < length stars.

(** What the lists of an agenda hold: the items listed as scheduled today
    are scheduled today, the items listed as due today are due today, the
    status lists are the four lists of the open statuses, and each holds
    items of its status. *)
Definition agenda_ok (today : date) (a : AgendaItems) : Prop :=
  Forall (fun i => scheduled i = Some today) (schedules_today a) /\
  Forall (fun i => deadline i = Some today) (deadlines_today a) /\
  (forall k, is_Some (todos a !! k) <-> k ∈ open_keywords) /\
  (forall k l, todos a !! k = Some l ->
               Forall (fun i => todo_keyword i = Some k) l).

(** A file that cannot be read or parsed. *)
Definition unreadable (f : OrgFile) : Prop :=
  (exists e, read_text f = Raise e) \/ (exists e, orgparse_load f = Raise e).

(** What identifies an item in a list of the agenda: its file and its
    title. *)
Definition item_key (i : Item) : str * str := (file_name i, title i).

(** [agenda_items["todos"][k]], empty when [k] is not a key. *)
Definition status_list (k : str) (a : AgendaItems) : list Item :=
  default [] (todos a !! k).

(** One list of the agenda during the walk of the file [name], read with
    [get] and guarded by the keys [id_of title]: every item of the file
    that is in the list has its key in [processed_items], no file and
    title are in the list twice, and the items come from [name] or from
    the files [names] processed before. *)
Definition bucket_inv (name : str) (names : list str)
    (get : AgendaItems -> list Item) (id_of : str -> str)
    (st : walk_state) : Prop :=
  (forall i, i ∈ get st.2 -> file_name i = name -> id_of (title i) ∈ st.1) /\
  NoDup (map item_key (get st.2)) /\
  (forall i, i ∈ get st.2 -> file_name i ∈ name :: names).

(** The same list between two files. *)
Definition bucket_out (names : list str) (get : AgendaItems -> list Item)
    (a : AgendaItems) : Prop :=
  NoDup (map item_key (get a)) /\
  (forall i, i ∈ get a -> file_name i ∈ names).

(** An append guarded by [item_id] either leaves the list alone or puts
    [i] at its end under the list's own key. *)
Definition step_ok (get : AgendaItems -> list Item) (id_of : str -> str)
    (item_id : str) (append : AgendaItems -> AgendaItems) (i : Item)
    : Prop :=
  forall a, get (append a) = get a \/
            (get (append a) = get a ++ [i] /\ item_id = id_of (title i)).

(** No list of the agenda holds the same file and title twice. *)
Definition listed_once (a : AgendaItems) : Prop :=
  NoDup (map item_key (schedules_today a)) /\
  NoDup (map item_key (deadlines_today a)) /\
  forall k, NoDup (map item_key (status_list k a)).

(** The text a call of the watch broadcasts when its key is new. *)
Definition call_message (c : call) : option str :=
  match c with
  | CheckSchedule item t now =>
      match schedule_bucket (schedule_total_minutes t now) with
      | Some (_, lead) => Some (notification_text lead item)
      | None => None
      end
  | CheckDeadline item t now =>
      match deadline_bucket (deadline_total_hours t now) with
      | Some (_, lead) => Some (notification_text lead item)
      | None => None
      end
  end.

(** ** [src/xmpp_bot.py]: the notification hours, the agenda text and the
    periodic agenda *)

Module Commands.

Local Open Scope Z_scope.

(** [__init__]: the scheduler's fields as the constructor sets them;
    [subs] is what [load_subscribers] returned. *)
Definition init (subs : list str) : Bot :=
  {| subscribers := subs;
     sent_notifications := ∅;
     notification_start := Time 8 0 0 0;
     notification_end := Time 22 0 0 0 |}.

(** [%H] is [2[0-3]|[0-1]\d|\d]: the matching alternatives, in the order
    the regex engine tries them. *)
Definition directive_H (s : str) : list (Z * str) :=
  two_digits 2 2 0 3 s ++ two_digits 0 1 0 9 s ++ one_digit 0 9 s.

(** [%M] is [[0-5]\d|\d]. *)
Definition directive_M (s : str) : list (Z * str) :=
  two_digits 0 5 0 9 s ++ one_digit 0 9 s.

Definition hm_matches (s : str) : list (Z * Z * str) :=
  '(h, r1) ← directive_H s;
  r2 ← literal ":" r1;
  '(m, r3) ← directive_M r2;
  [(h, m, r3)].

(** [datetime.strptime(s, "%H:%M").time()]: no match and unconverted data
    are [ValueError]s. *)
Definition strptime_hm (s : str) : res time :=
  match hm_matches s with
  | [] => Raise ValueError
  | (h, m, rest) :: _ =>
      match rest with
      | [] => Ok (Time h m 0 0)
      | _ :: _ => Raise ValueError
      end
  end.

(** [t.strftime("%H:%M")] *)
Definition strftime_hm (t : time) : str :=
  zero_padded 2 (hour t) ++ py ":" ++ zero_padded 2 (minute t).

Definition set_hours (start_time end_time : time) (bot : Bot) : Bot :=
  {| subscribers := subscribers bot;
     sent_notifications := sent_notifications bot;
     notification_start := start_time;
     notification_end := end_time |}.

Definition hours_text (bot : Bot) : str :=
  strftime_hm (notification_start bot) ++ py " - "
  ++ strftime_hm (notification_end bot).

(** [cmd_notifications]: the bot after the command and the reply. Only a
    [ValueError] is caught; both times are parsed before either field is
    assigned. *)
Definition cmd_notifications (args : list str) (bot : Bot)
    : res (Bot * str) :=
  match args with
  | a0 :: a1 :: _ =>
      match bind (strptime_hm a0)
              (fun start_time =>
                 bind (strptime_hm a1)
                   (fun end_time => Ok (start_time, end_time))) with
      | Ok (start_time, end_time) =>
          let bot' := set_hours start_time end_time bot in
          Ok (bot', py "Notification hours set: " ++ hours_text bot')
      | Raise ValueError =>
          Ok (bot, py "Invalid time format. Use: /notifications HH:MM HH:MM")
      | Raise e => Raise e
      end
  | _ =>
      Ok (bot, py "Current notification hours: " ++ hours_text bot
               ++ [LF] ++ py "Change with: /notifications HH:MM HH:MM")
  end.

(** A [datetime.time] value: what the constructor accepts. *)
Definition valid_time (t : time) : Prop :=
  0 <= hour t <= 23 /\ 0 <= minute t <= 59 /\ 0 <= second t <= 59
  /\ 0 <= microsecond t <= 999999.

(** [str(jid).split("/")[0]]: the address without its resource, as
    [is_whitelisted] and [message] compute it. *)
Definition bare_jid (jid : str) : res str := index (split (py "/") jid) 0.

(** [is_whitelisted] *)
Definition is_whitelisted (whitelist : gset str) (jid : str) : res bool :=
  bind (bare_jid jid) (fun bare => Ok (bool_decide (bare ∈ whitelist))).

End Commands.

Export Commands.

From Stdlib Require Import DecimalString.

(** ** [src/xmpp_bot.py]: the agenda text and the periodic agenda *)

Module AgendaText.

(** [str(n)] for a non-negative integer. *)
Definition decimal (n : nat) : str :=
  py (NilEmpty.string_of_uint (Nat.to_uint n)).

(** [now.strftime("%Y-%m-%d %H:%M")]: the C library prints the year in
    decimal without padding (["999"] for the year 999), the month and the
    day on two digits. *)
Definition strftime_ymd_hm (now : datetime) : str :=
  let d := date_of now in
  decimal (Z.to_nat (year d)) ++ py "-" ++ zero_padded 2 (month d)
  ++ py "-" ++ zero_padded 2 (day d)
  ++ py " " ++ strftime_hm (time_of now).

(** The truth value of a list. *)
Definition list_truthy {A} (l : list A) : bool :=
  match l with [] => false | _ :: _ => true end.

Definition item_line (item : Item) : str :=
  py "  - " ++ title item ++ py " (" ++ item_file_title item ++ py ")".

(** What [format_agenda] appends for one status, [todos[status]] being
    [items]. *)
Definition status_lines (status : str) (items : list Item) : list str :=
  if list_truthy items then
    [py "  " ++ status ++ py ":"]
    ++ map (fun item => py "    - " ++ title item) (take 5 items)
    ++ (if (5 <? length items)%nat
        then [py "    ... and " ++ decimal (length items - 5) ++ py " more"]
        else [])
  else [].

(** The loop [for status in ["ACTIVE", "NEXT", "TODO", "WAIT"]]; [None]
    is the [KeyError] of [todos[status]]. *)
Fixpoint tasks_lines (todos_ : gmap str (list Item)) (statuses : list str)
    : option (list str) :=
  match statuses with
  | [] => Some []
  | status :: rest =>
      match todos_ !! status with
      | Some items =>
          match tasks_lines todos_ rest with
          | Some ls => Some (status_lines status items ++ ls)
          | None => None
          end
      | None => None
      end
  end.

(** [any(todos.values())] *)
Definition any_values (todos_ : gmap str (list Item)) : bool :=
  existsb list_truthy (map snd (map_to_list todos_)).

(** The list [result] of [format_agenda] before it is joined; [now] is the
    clock as the function reads it. *)
Definition format_agenda_result (now : datetime) (agenda : AgendaItems)
    : option (list str) :=
  let result := [py "Agenda for " ++ strftime_ymd_hm now] in
  let result :=
    if list_truthy (schedules_today agenda)
    then result ++ [LF :: py "Scheduled for today:"]
                ++ map item_line (schedules_today agenda)
    else result in
  let result :=
    if list_truthy (deadlines_today agenda)
    then result ++ [LF :: py "Deadlines today:"]
                ++ map item_line (deadlines_today agenda)
    else result in
  let todos_ := todos agenda in
  match (if any_values todos_
         then match tasks_lines todos_ open_keywords with
              | Some ls => Some (result ++ [LF :: py "Tasks:"] ++ ls)
              | None => None
              end
         else Some result) with
  | Some result =>
      Some (if (length result =? 1)%nat
            then result ++ [LF :: py "No appointments or tasks for today!"]
            else result)
  | None => None
  end.

Definition format_agenda (now : datetime) (agenda : AgendaItems)
    : option str :=
  join [LF] <$> format_agenda_result now agenda.

(** The fields of [CommandBot] that only the periodic agenda uses. *)
Record AgendaClock := {
  last_agenda_sent : option datetime;
  agenda_interval : Z
}.

(** [self.last_agenda_sent is None or
     (now - self.last_agenda_sent).total_seconds()
       >= self.agenda_interval * 3600] *)
Definition agenda_due (c : AgendaClock) (now : datetime) : bool :=
  match last_agenda_sent c with
  | None => true
  | Some last_ =>
      Qle_bool (inject_Z (agenda_interval c * 3600))
               (total_seconds (sub_datetime now last_))
  end.

Section PeriodicTransport.

Context {net : Type}.
Variable send_message : net -> str -> str -> res unit * net.

(** One turn of the loop of [periodic_agenda_notifications], up to the
    sleep: [checked_at] is the time at which the window is tested, [now]
    the time read next, [formatted_at] the time [format_agenda] reads. An
    exception leaves the fields as they were. *)
Definition periodic_pass (agenda : AgendaItems)
    (checked_at now formatted_at : datetime) (bot : Bot) (c : AgendaClock)
    (n : net) : AgendaClock * net * list Broadcast :=
  if is_notification_time bot checked_at then
    if agenda_due c now then
      match format_agenda formatted_at agenda with
      | Some agenda_text =>
          let '(n', b) :=
            send_notification_to_subscribers send_message bot n
              (py "Automatic agenda notification" ++ [LF; LF] ++ agenda_text)
          in
          ({| last_agenda_sent := Some now;
              agenda_interval := agenda_interval c |}, n', [b])
      | None => (c, n, [])
      end
    else (c, n, [])
  else (c, n, []).

(** What one turn of the loop reads: the agenda and the clock, three
    times. *)
Record Turn := {
  turn_agenda : AgendaItems;
  turn_checked_at : datetime;
  turn_now : datetime;
  turn_formatted_at : datetime
}.

(** Successive turns of the loop; every broadcast is returned with the
    [now] of its turn. *)
Fixpoint periodic_run (turns : list Turn) (bot : Bot) (c : AgendaClock)
    (n : net) : AgendaClock * net * list (datetime * Broadcast) :=
  match turns with
  | [] => (c, n, [])
  | t :: rest =>
      let '(c', n', bs) :=
        periodic_pass (turn_agenda t) (turn_checked_at t) (turn_now t)
          (turn_formatted_at t) bot c n in
      let '(c'', n'', sent) := periodic_run rest bot c' n' in
      (c'', n'', map (fun b => (turn_now t, b)) bs ++ sent)
  end.

End PeriodicTransport.

(** Broadcasts that are each at least [interval] hours after the one
    before, the first one after [last_]. *)
Fixpoint spaced (interval : Z) (last_ : option datetime)
    (sent : list (datetime * Broadcast)) : Prop :=
  match sent with
  | [] => True
  | (t, _) :: rest =>
      match last_ with
      | Some l => (interval * 3600 * 1000000 <= sub_datetime t l)%Z
      | None => True
      end /\ spaced interval (Some t) rest
  end.

End AgendaText.

Export AgendaText.
(* ===================================================================== *)
(** * Part II: properties                                                 *)
(* ===================================================================== *)

(** ** Strings *)

Lemma isspace_not_star c : isspace c = true -> is_star c = false.
Proof.
  intros H. unfold is_star. case_bool_decide as E; [|done].
  subst c. discriminate H.
Qed.

Lemma take_drop_while p s : take_while p s ++ drop_while p s = s.
Proof. induction s as [|c r IH]; simpl; [done|]. destruct (p c); simpl; congruence. Qed.

Lemma take_while_all p s : Forall (fun c => p c = true) (take_while p s).
Proof.
  induction s as [|c r IH]; simpl; [constructor|].
  destruct (p c) eqn:E; [constructor; assumption | constructor].
Qed.

Lemma drop_while_head p s c r : drop_while p s = c :: r -> p c = false.
Proof.
  induction s as [|d s IH]; simpl; [done|].
  destruct (p d) eqn:E; [assumption|]. intros [= -> ->]. assumption.
Qed.

Lemma take_while_app p a b :
  Forall (fun c => p c = true) a ->
  take_while p (a ++ b) = a ++ take_while p b.
Proof. induction 1 as [|c a Hc _ IH]; simpl; [done|]. by rewrite Hc, IH. Qed.

Lemma drop_while_app p a b :
  Forall (fun c => p c = true) a ->
  drop_while p (a ++ b) = drop_while p b.
Proof. induction 1 as [|c a Hc _ IH]; simpl; [done|]. by rewrite Hc. Qed.

Lemma take_while_stop p c r : p c = false -> take_while p (c :: r) = [].
Proof. intros H; simpl; by rewrite H. Qed.

Lemma drop_while_stop p c r : p c = false -> drop_while p (c :: r) = c :: r.
Proof. intros H; simpl; by rewrite H. Qed.

Lemma repeat_star_all n : Forall (fun c => is_star c = true) (repeat star n).
Proof.
  induction n; simpl; constructor; [|assumption].
  unfold is_star. by rewrite bool_decide_eq_true.
Qed.

Lemma all_star_repeat s :
  Forall (fun c => is_star c = true) s -> s = repeat star (length s).
Proof.
  induction 1 as [|c s Hc _ IH]; simpl; [done|].
  unfold is_star in Hc. apply bool_decide_eq_true in Hc. subst c. by f_equal.
Qed.

Lemma lstrip_drop_while s : lstrip s = drop_while isspace s.
Proof. induction s as [|c r IH]; simpl; [done|]. by destruct (isspace c). Qed.

Lemma lstrip_all_space s : Forall (fun c => isspace c = true) s -> lstrip s = [].
Proof. induction 1 as [|c s Hc _ IH]; simpl; [done|]. by rewrite Hc. Qed.

Lemma lstrip_app_space ws s :
  Forall (fun c => isspace c = true) ws -> lstrip (ws ++ s) = lstrip s.
Proof. induction 1 as [|c a Hc _ IH]; simpl; [done|]. by rewrite Hc. Qed.

Lemma strip_app_space ws s :
  Forall (fun c => isspace c = true) ws -> strip (ws ++ s) = strip s.
Proof. intros H. unfold strip. by rewrite lstrip_app_space. Qed.

Lemma strip_all_space s : Forall (fun c => isspace c = true) s -> strip s = [].
Proof. intros H. unfold strip. by rewrite lstrip_all_space. Qed.

Lemma lstrip_idem s : lstrip (lstrip s) = lstrip s.
Proof.
  induction s as [|c r IH]; simpl; [done|].
  destruct (isspace c) eqn:E; [assumption|]. simpl. by rewrite E.
Qed.

Lemma strip_lstrip s : strip (lstrip s) = strip s.
Proof. unfold strip. by rewrite lstrip_idem. Qed.

Lemma rstrip_idem s : rstrip (rstrip s) = rstrip s.
Proof.
  induction s as [|c r IH]; simpl; [done|].
  destruct (rstrip r) as [|d r'] eqn:E.
  - destruct (isspace c) eqn:Ec; simpl; [done|]. by rewrite Ec.
  - simpl in *. destruct (rstrip r') as [|e r2] eqn:E2.
    + destruct (isspace d); [discriminate|]. by injection IH as <-.
    + by rewrite IH.
Qed.

Lemma rstrip_head c r :
  isspace c = false -> exists r', rstrip (c :: r) = c :: r'.
Proof.
  intros H. simpl. destruct (rstrip r); [rewrite H|]; eauto.
Qed.

Lemma lstrip_head s :
  lstrip s = [] \/ exists c r, lstrip s = c :: r /\ isspace c = false.
Proof.
  induction s as [|c r IH]; simpl; [by left|].
  destruct (isspace c) eqn:E; [assumption|]. right; eauto.
Qed.

Lemma strip_idem s : strip (strip s) = strip s.
Proof.
  unfold strip at 2 3.
  destruct (lstrip_head s) as [->|(c & r & -> & Hc)]; [done|].
  destruct (rstrip_head c r Hc) as [r' E].
  unfold strip. rewrite <- (rstrip_idem (c :: r)) at 2. rewrite E.
  simpl lstrip. by rewrite Hc.
Qed.

Lemma strip_nonempty_head s c r : strip s = c :: r -> isspace c = false.
Proof.
  unfold strip. destruct (lstrip_head s) as [->|(d & r' & -> & Hd)]; [done|].
  destruct (rstrip_head d r' Hd) as [r2 ->]. by intros [= <- _].
Qed.

(** ** The heading pattern *)

Lemma last_split_space (ws : str) :
  2 <= length ws -> Forall (fun c => isspace c = true) ws ->
  exists c, drop (length ws - 1) ws = [c] /\ isspace c = true /\
            ws = take (length ws - 1) ws ++ [c] /\ take (length ws - 1) ws <> [].
Proof.
  intros Hlen Hall.
  assert (Hd : length (drop (length ws - 1) ws) = 1) by (rewrite length_drop; lia).
  destruct (drop (length ws - 1) ws) as [|c [|? ?]] eqn:E; try discriminate.
  exists c. split; [done|].
  assert (Hws : ws = take (length ws - 1) ws ++ [c])
    by (rewrite <- E; symmetry; apply take_drop).
  split; [|split; [done|]].
  - rewrite Hws in Hall. apply Forall_app in Hall as [_ Hc]. by inversion Hc.
  - intros Hnil. apply (f_equal length) in Hnil. rewrite length_take in Hnil.
    simpl in Hnil. lia.
Qed.

(** Soundness: the groups of a match decompose the line as the pattern
    says. *)
Lemma heading_pattern_sound line stars text :
  heading_pattern line = Some (stars, text) ->
  exists n, stars = repeat star n /\
            is_heading_of isspace n (strip text) line.
Proof.
  unfold heading_pattern.
  pose proof (take_drop_while is_star line) as Hline.
  pose proof (take_while_all is_star line) as Hst.
  pose proof (take_drop_while isspace (drop_while is_star line)) as Hrest.
  pose proof (take_while_all isspace (drop_while is_star line)) as Hws.
  destruct (take_while is_star line) as [|s0 st] eqn:Est; [done|].
  destruct (take_while isspace (drop_while is_star line)) as [|w0 ws] eqn:Ews;
    [done|].
  destruct (drop_while isspace (drop_while is_star line)) as [|t0 tx] eqn:Etx.
  - destruct ws as [|w1 ws]; [done|]. intros [= <- <-].
    exists (length (s0 :: st)). split; [by apply all_star_repeat|].
    split; [simpl; lia|].
    destruct (last_split_space (w0 :: w1 :: ws)) as (c & Ec & Hc & Hsplit & Hne);
      [simpl; lia | done |].
    exists (take (length (w0 :: w1 :: ws) - 1) (w0 :: w1 :: ws)), [c].
    split; [done|]. split.
    { rewrite Hsplit in Hws. by apply Forall_app in Hws as [? _]. }
    split; [done|]. split.
    + rewrite <- Hsplit, <- (all_star_repeat _ Hst).
      rewrite app_nil_r in Hrest. by rewrite Hrest.
    + change (drop (length ws) (w1 :: ws)) with (drop (length (w0 :: w1 :: ws) - 1) (w0 :: w1 :: ws)). by rewrite Ec.
  - intros [= <- <-].
    exists (length (s0 :: st)). split; [by apply all_star_repeat|].
    split; [simpl; lia|].
    exists (w0 :: ws), (t0 :: tx). split; [done|]. split; [done|].
    split; [done|]. split; [|done].
    by rewrite <- (all_star_repeat _ Hst), Hrest.
Qed.

(** Completeness: every line of that shape is matched, with all its
    markers in the first group. *)
Lemma heading_pattern_complete n label line :
  is_heading_of isspace n label line ->
  exists text, heading_pattern line = Some (repeat star n, text) /\
               strip text = label.
Proof.
  intros (Hn & ws & text & Hws & Hall & Htext & -> & Hlabel).
  destruct ws as [|w0 ws]; [done|].
  assert (Hw0 : isspace w0 = true) by (by inversion Hall).
  unfold heading_pattern.
  rewrite (take_while_app _ _ _ (repeat_star_all n)),
          (drop_while_app _ _ _ (repeat_star_all n)).
  change ((w0 :: ws) ++ text) with (w0 :: (ws ++ text)).
  rewrite (take_while_stop _ _ _ (isspace_not_star _ Hw0)),
          (drop_while_stop _ _ _ (isspace_not_star _ Hw0)), app_nil_r.
  change (w0 :: (ws ++ text)) with ((w0 :: ws) ++ text).
  rewrite (take_while_app _ _ _ Hall), (drop_while_app _ _ _ Hall).
  destruct n as [|n]; [lia|]. simpl repeat.
  destruct (drop_while isspace text) as [|t0 tx] eqn:Etx.
  - (* the text is all whitespace: [\s+] gives back the last character *)
    pose proof (take_drop_while isspace text) as Ht. rewrite Etx, app_nil_r in Ht.
    pose proof (take_while_all isspace text) as Hta. rewrite Ht in Hta.
    rewrite Ht.
    destruct text as [|t1 text]; [done|].
    assert (Hall2 : Forall (fun c => isspace c = true) ((w0 :: ws) ++ t1 :: text))
      by (apply Forall_app; done).
    destruct (last_split_space ((w0 :: ws) ++ t1 :: text)) as (c & Ec & Hc & _ & _);
      [rewrite length_app; simpl; lia | done |].
    destruct ((w0 :: ws) ++ t1 :: text) as [|a [|b l]] eqn:E.
    + discriminate.
    + apply (f_equal length) in E. rewrite length_app in E. simpl in E. lia.
    + eexists. split; [reflexivity|]. rewrite Ec, <- Hlabel.
      rewrite (strip_all_space _ Hta). unfold strip; simpl. by rewrite Hc.
  - destruct (w0 :: ws ++ take_while isspace text) eqn:E; [discriminate|].
    eexists. split; [reflexivity|].
    rewrite <- Etx, <- lstrip_drop_while, strip_lstrip. done.
Qed.

Lemma is_heading_line_pattern n line :
  is_heading_line isspace n line <->
  exists text, heading_pattern line = Some (repeat star n, text).
Proof.
  split.
  - intros [label H]. destruct (heading_pattern_complete _ _ _ H) as (t & ? & _).
    eauto.
  - intros [text H]. destruct (heading_pattern_sound _ _ _ H) as (m & Hm & Hh).
    exists (strip text). apply (f_equal length) in Hm.
    rewrite !repeat_length in Hm. by subst m.
Qed.

Lemma is_heading_of_pattern n label line :
  is_heading_of isspace n label line <->
  exists text, heading_pattern line = Some (repeat star n, text) /\
               strip text = label.
Proof.
  split; [apply heading_pattern_complete|].
  intros (text & H & <-). destruct (heading_pattern_sound _ _ _ H) as (m & Hm & Hh).
  apply (f_equal length) in Hm. rewrite !repeat_length in Hm. by subst m.
Qed.

(** ** The locator's loops *)

Lemma scan_end_none stars j rest :
  scan_end stars j rest = None ->
  forall k line next text,
    rest !! k = Some line -> heading_pattern line = Some (next, text) ->
    length stars < length next.
Proof.
  revert j. induction rest as [|l rest IH]; intros j H k line next text Hk Hp.
  - done.
  - simpl in H. destruct k as [|k]; simpl in Hk.
    + injection Hk as ->. rewrite Hp in H.
      destruct (length next <=? length stars) eqn:E; [done|].
      apply Nat.leb_gt in E. lia.
    + destruct (heading_pattern l) as [[ns ?]|];
        [destruct (length ns <=? length stars); [done|]|]; eauto.
Qed.

Lemma scan_end_some stars j rest e :
  scan_end stars j rest = Some e ->
  exists k line next text,
    e = j + k /\ rest !! k = Some line /\
    heading_pattern line = Some (next, text) /\
    length next <= length stars /\
    forall k' line' next' text',
      k' < k -> rest !! k' = Some line' ->
      heading_pattern line' = Some (next', text') ->
      length stars < length next'.
Proof.
  revert j. induction rest as [|l rest IH]; intros j H; [done|].
  simpl in H.
  assert (Hrec : scan_end stars (S j) rest = Some e ->
    (forall next text, heading_pattern l = Some (next, text) ->
                       length stars < length next) ->
    exists k line next text,
      e = j + k /\ (l :: rest) !! k = Some line /\
      heading_pattern line = Some (next, text) /\
      length next <= length stars /\
      forall k' line' next' text',
        k' < k -> (l :: rest) !! k' = Some line' ->
        heading_pattern line' = Some (next', text') ->
        length stars < length next').
  { intros Hs Hl. destruct (IH _ Hs) as (k & line & next & text & -> & Hk & Hp & Hle & Hbefore).
    exists (S k), line, next, text. repeat split; [lia|done..|].
    intros [|k'] line' next' text' Hlt Hk' Hp'; simpl in Hk'.
    - injection Hk' as ->. eauto.
    - eapply Hbefore; [|done..]. lia. }
  destruct (heading_pattern l) as [[ns tx]|] eqn:Hl.
  - destruct (length ns <=? length stars) eqn:E.
    + injection H as <-. apply Nat.leb_le in E.
      exists 0, l, ns, tx. repeat split; [lia|done..|]. intros; lia.
    + apply Nat.leb_gt in E. apply Hrec; [done|]. by intros ? ? [= <- <-].
  - apply Hrec; done.
Qed.

Lemma scan_heading_none ts th total i rest :
  scan_heading ts th total i rest = None ->
  forall k line text,
    rest !! k = Some line -> heading_pattern line = Some (ts, text) ->
    strip text <> th.
Proof.
  revert i. induction rest as [|l rest IH]; intros i H k line text Hk Hp; [done|].
  simpl in H. destruct k as [|k]; simpl in Hk.
  - injection Hk as ->. rewrite Hp in H. unfold str_eqb in H.
    rewrite bool_decide_true in H by done. simpl in H.
    case_bool_decide; done.
  - destruct (heading_pattern l) as [[st tx]|];
      [destruct (str_eqb st ts && str_eqb (strip tx) th); [done|]|]; eauto.
Qed.

Lemma scan_heading_some ts th total i rest s e :
  scan_heading ts th total i rest = Some (s, e) ->
  exists k line text,
    s = i + k /\ rest !! k = Some line /\
    heading_pattern line = Some (ts, text) /\ strip text = th /\
    (forall k' line' text',
       k' < k -> rest !! k' = Some line' ->
       heading_pattern line' = Some (ts, text') -> strip text' <> th) /\
    e = default total (scan_end ts (S s) (drop (S k) rest)).
Proof.
  revert i. induction rest as [|l rest IH]; intros i H; [done|].
  simpl in H.
  assert (Hrec : scan_heading ts th total (S i) rest = Some (s, e) ->
    (forall text, heading_pattern l = Some (ts, text) -> strip text <> th) ->
    exists k line text,
      s = i + k /\ (l :: rest) !! k = Some line /\
      heading_pattern line = Some (ts, text) /\ strip text = th /\
      (forall k' line' text',
         k' < k -> (l :: rest) !! k' = Some line' ->
         heading_pattern line' = Some (ts, text') -> strip text' <> th) /\
      e = default total (scan_end ts (S s) (drop (S k) (l :: rest)))).
  { intros Hs Hl.
    destruct (IH _ Hs) as (k & line & text & -> & Hk & Hp & Hth & Hbefore & He).
    exists (S k), line, text. repeat split; [lia|done..| |].
    - intros [|k'] line' text' Hlt Hk' Hp'; simpl in Hk'.
      + injection Hk' as ->. eauto.
      + eapply Hbefore; [|done..]. lia.
    - rewrite He. by replace (i + S k) with (S i + k) by lia. }
  destruct (heading_pattern l) as [[st tx]|] eqn:Hl.
  - destruct (str_eqb st ts && str_eqb (strip tx) th) eqn:E.
    + injection H as <- <-. apply andb_true_iff in E as [E1 E2].
      unfold str_eqb in *. apply bool_decide_eq_true in E1, E2. subst st.
      exists 0, l, tx.
      split; [lia|]. split; [done|]. split; [done|]. split; [done|].
      split; [intros; lia|]. done.
    + apply Hrec; [done|]. intros text [= <- <-].
      unfold str_eqb in E. rewrite bool_decide_true in E by done.
      simpl in E. by apply bool_decide_eq_false in E.
  - apply Hrec; done.
Qed.

Lemma pattern_stars_length line stars text n :
  heading_pattern line = Some (stars, text) ->
  (stars = repeat star n <-> length stars = n).
Proof.
  intros H. destruct (heading_pattern_sound _ _ _ H) as (m & -> & _).
  rewrite repeat_length. split; [intros E | congruence].
  apply (f_equal length) in E. by rewrite !repeat_length in E.
Qed.

(** The locator meets its contract when the separator between markers and
    text is any run of whitespace. *)
Lemma scan_heading_locate lines label n :
  locate_spec isspace lines label n
    (scan_heading (repeat star n) label (length lines) 0 lines).
Proof.
  destruct (scan_heading _ _ _ _ _) as [[s e]|] eqn:H; simpl.
  - destruct (scan_heading_some _ _ _ _ _ _ _ H)
      as (k & line & text & -> & Hk & Hp & Hth & Hbefore & He).
    simpl in *.
    assert (Hklt : k < length lines) by (by apply lookup_lt_Some in Hk).
    assert (Hlt : k < e <= length lines).
    { destruct (scan_end _ _ _) as [e'|] eqn:Hend; simpl in He; subst e;
        [|lia].
      destruct (scan_end_some _ _ _ _ Hend)
        as (k2 & l2 & n2 & t2 & -> & Hk2 & _).
      apply lookup_lt_Some in Hk2. rewrite length_drop in Hk2. lia. }
    split; [|split; [|split; [|split; [|split]]]].
    + exists line. split; [done|]. apply is_heading_of_pattern. eauto.
    + intros i l Hi Hl Hh. apply is_heading_of_pattern in Hh as (t & Ht & Htl).
      by eapply Hbefore.
    + intros j l m [Hj1 Hj2] Hl Hh.
      apply is_heading_line_pattern in Hh as [t Ht].
      destruct (scan_end _ _ _) as [e'|] eqn:Hend; simpl in He; subst e.
      * destruct (scan_end_some _ _ _ _ Hend)
          as (k2 & l2 & n2 & t2 & -> & Hk2 & Hp2 & Hle & Hbef).
        specialize (Hbef (j - S k) l (repeat star m) t).
        rewrite !repeat_length in Hbef. apply Hbef; [lia| |done].
        rewrite lookup_drop. by replace (S k + (j - S k)) with j by lia.
      * pose proof (scan_end_none _ _ _ Hend (j - S k) l (repeat star m) t) as Hn.
        rewrite !repeat_length in Hn. apply Hn; [|done].
        rewrite lookup_drop. by replace (S k + (j - S k)) with j by lia.
    + destruct (scan_end _ _ _) as [e'|] eqn:Hend; simpl in He; subst e;
        [right | by left].
      destruct (scan_end_some _ _ _ _ Hend)
        as (k2 & l2 & n2 & t2 & -> & Hk2 & Hp2 & Hle & Hbef).
      rewrite lookup_drop in Hk2.
      destruct (heading_pattern_sound _ _ _ Hp2) as (m & -> & Hh).
      rewrite !repeat_length in Hle.
      exists l2, m. split; [|split; [by eexists | done]].
      by replace (S k + k2) with (S k + k2) by lia.
    + lia.
    + lia.
  - intros i line Hi Hh. apply is_heading_of_pattern in Hh as (t & Ht & Htl).
    by eapply (scan_heading_none _ _ _ _ _ H).
Qed.

(** The contract leaves no choice: two results that meet it on the same
    lines are the same result. *)
Lemma locate_spec_unique sep lines label level r1 r2 :
  locate_spec sep lines label level r1 ->
  locate_spec sep lines label level r2 -> r1 = r2.
Proof.
  assert (Hstart : forall s1 e1 s2 e2,
    locate_spec sep lines label level (Some (s1, e1)) ->
    locate_spec sep lines label level (Some (s2, e2)) -> ~ s1 < s2).
  { intros s1 e1 s2 e2 ((l1 & Hl1 & Hh1) & _) (_ & Hbefore & _) Hlt.
    by eapply Hbefore. }
  assert (Hend : forall s e1 e2,
    locate_spec sep lines label level (Some (s, e1)) ->
    locate_spec sep lines label level (Some (s, e2)) -> ~ e1 < e2).
  { intros s e1 e2 (_ & _ & _ & Hat & Hse1 & _ & Hlen1)
           (_ & _ & Hin & _ & _ & _ & Hlen2) Hlt.
    destruct Hat as [-> | (l & m & Hl & Hh & Hm)]; [lia|].
    specialize (Hin e1 l m ltac:(lia) Hl Hh). lia. }
  intros H1 H2. destruct r1 as [[s1 e1]|], r2 as [[s2 e2]|].
  - assert (s1 = s2).
    { pose proof (Hstart _ _ _ _ H1 H2). pose proof (Hstart _ _ _ _ H2 H1).
      lia. }
    subst s2.
    pose proof (Hend _ _ _ H1 H2). pose proof (Hend _ _ _ H2 H1).
    do 2 f_equal. lia.
  - destruct H1 as ((l & Hl & Hh) & _). by destruct (H2 _ _ Hl).
  - destruct H2 as ((l & Hl & Hh) & _). by destruct (H1 _ _ Hl).
  - done.
Qed.

(** ** Splitting into lines and joining back *)

Lemma splitlines_cons c s :
  splitlines (c :: s) =
  if bool_decide (c = LF) then [] :: splitlines s
  else cons_head c (splitlines s).
Proof.
  unfold splitlines, split. simpl.
  case_bool_decide as E1; case_bool_decide as E2; subst; simpl; congruence.
Qed.

Lemma splitlines_nil : splitlines [] = [[]].
Proof. reflexivity. Qed.

Lemma splitlines_not_nil s : splitlines s <> [].
Proof.
  destruct s as [|c s]; [done|]. rewrite splitlines_cons.
  case_bool_decide; [done|]. by destruct (splitlines s).
Qed.

Lemma splitlines_line l s :
  no_lf l -> splitlines (l ++ LF :: s) = l :: splitlines s.
Proof.
  unfold no_lf. induction l as [|c l IH]; intros H; simpl.
  - rewrite splitlines_cons. by rewrite bool_decide_true.
  - apply not_elem_of_cons in H as [Hc Hl].
    rewrite splitlines_cons, bool_decide_false by done. by rewrite IH.
Qed.

Lemma splitlines_single l : no_lf l -> splitlines l = [l].
Proof.
  unfold no_lf. induction l as [|c l IH]; intros H; [done|].
  apply not_elem_of_cons in H as [Hc Hl].
  rewrite splitlines_cons, bool_decide_false by done. by rewrite IH.
Qed.

Lemma splitlines_join ls :
  ls <> [] -> Forall no_lf ls -> splitlines (join [LF] ls) = ls.
Proof.
  induction ls as [|l ls IH]; intros Hne Hall; [done|].
  inversion Hall as [|? ? Hl Hls]; subst.
  destruct ls as [|l2 ls]; simpl.
  - by apply splitlines_single.
  - rewrite splitlines_line by done. f_equal. by apply IH.
Qed.

Lemma splitlines_no_lf s : Forall no_lf (splitlines s).
Proof.
  induction s as [|c s IH].
  - constructor; [|constructor]. unfold no_lf. set_solver.
  - rewrite splitlines_cons. case_bool_decide as E.
    + constructor; [|done]. unfold no_lf. set_solver.
    + pose proof (splitlines_not_nil s) as Hne.
      destruct (splitlines s) as [|l ls]; [done|]. simpl.
      inversion IH as [|? ? Hl Hls]; subst. constructor; [|done].
      unfold no_lf in *. by apply not_elem_of_cons.
Qed.

Lemma join_splitlines s : join [LF] (splitlines s) = s.
Proof.
  induction s as [|c s IH]; [done|].
  rewrite splitlines_cons. case_bool_decide as E.
  - subst c. pose proof (splitlines_not_nil s).
    destruct (splitlines s) eqn:Es; [done|]. simpl in *. by rewrite IH.
  - pose proof (splitlines_not_nil s).
    destruct (splitlines s) as [|l [|l2 ls]] eqn:Es; [done|..]; simpl in *;
      by rewrite <- IH.
Qed.

Lemma join_app sep (xs ys : list str) :
  xs <> [] -> ys <> [] ->
  join sep (xs ++ ys) = join sep xs ++ sep ++ join sep ys.
Proof.
  induction xs as [|x xs IH]; intros Hx Hy; [done|].
  destruct xs as [|x2 xs].
  - simpl. by destruct ys.
  - change ((x :: x2 :: xs) ++ ys) with (x :: ((x2 :: xs) ++ ys)).
    change (join sep (x :: (x2 :: xs) ++ ys))
      with (x ++ sep ++ join sep ((x2 :: xs) ++ ys)).
    rewrite IH by done. simpl. by rewrite <- !app_assoc.
Qed.

Lemma lstrip_forall (P : ascii -> Prop) s : Forall P s -> Forall P (lstrip s).
Proof.
  induction 1 as [|c s Hc Hs IH]; simpl; [constructor|].
  destruct (isspace c); [assumption | by constructor].
Qed.

Lemma rstrip_forall (P : ascii -> Prop) s : Forall P s -> Forall P (rstrip s).
Proof.
  induction 1 as [|c s Hc Hs IH]; simpl; [constructor|].
  destruct (rstrip s); [destruct (isspace c); by repeat constructor|].
  by constructor.
Qed.

Lemma no_lf_forall l : no_lf l <-> Forall (fun c => c <> LF) l.
Proof.
  unfold no_lf. rewrite Forall_forall. split.
  - intros H x Hx ->. done.
  - intros H Hin. by apply (H LF).
Qed.

Lemma strip_no_lf s : no_lf s -> no_lf (strip s).
Proof.
  rewrite !no_lf_forall. intros H. by apply rstrip_forall, lstrip_forall.
Qed.

(** ** The editor *)

Lemma find_heading_some content label level s e :
  find_heading_in_content content label level = Some (s, e) ->
  exists k line text,
    s = k /\ splitlines content !! k = Some line /\
    heading_pattern line = Some (str_mul star level, text) /\
    strip text = label /\
    (forall k' line' text',
       k' < k -> splitlines content !! k' = Some line' ->
       heading_pattern line' = Some (str_mul star level, text') ->
       strip text' <> label) /\
    e = default (length (splitlines content))
          (scan_end (str_mul star level) (S s) (drop (S k) (splitlines content))).
Proof.
  unfold find_heading_in_content. intros H.
  destruct (scan_heading_some _ _ _ _ _ _ _ H) as (k & line & text & H1 & H2).
  exists k, line, text. simpl in H1. by split.
Qed.

Lemma scan_heading_skip ts th total i pre rest :
  (forall line text, line ∈ pre -> heading_pattern line = Some (ts, text) ->
                     strip text <> th) ->
  scan_heading ts th total i (pre ++ rest) =
  scan_heading ts th total (i + length pre) rest.
Proof.
  revert i. induction pre as [|l pre IH]; intros i H; simpl.
  - by rewrite Nat.add_0_r.
  - assert (Hrec : scan_heading ts th total (S i) (pre ++ rest) =
                   scan_heading ts th total (i + S (length pre)) rest).
    { rewrite IH; [f_equal; lia|]. intros ? ? ?. apply H. by right. }
    destruct (heading_pattern l) as [[st tx]|] eqn:Hl; [|done].
    destruct (str_eqb st ts && str_eqb (strip tx) th) eqn:E; [|done].
    apply andb_true_iff in E as [E1 E2]. unfold str_eqb in *.
    apply bool_decide_eq_true in E1, E2. subst st.
    exfalso. eapply H; [by left | done..].
Qed.

Lemma scan_heading_here ts th total i line text rest :
  heading_pattern line = Some (ts, text) -> strip text = th ->
  scan_heading ts th total i (line :: rest) =
  Some (i, default total (scan_end ts (S i) rest)).
Proof.
  intros Hp Hs. simpl. rewrite Hp. unfold str_eqb.
  by rewrite !bool_decide_true.
Qed.

Lemma heading_line_matches n (label : str) :
  0 < n -> label <> [] -> strip label = label ->
  exists text,
    heading_pattern (repeat star n ++ py " " ++ label)
      = Some (repeat star n, text) /\ strip text = label.
Proof.
  intros Hn Hne Hs. apply heading_pattern_complete. split; [done|].
  exists (py " "), label. split; [done|]. split; [|done].
  by repeat constructor.
Qed.

Lemma pattern_stars_nonempty line stars text :
  heading_pattern line = Some (stars, text) -> stars <> [].
Proof.
  intros H. destruct (heading_pattern_sound _ _ _ H) as (n & -> & Hn & _).
  by destruct n; [lia|].
Qed.

Lemma no_lf_app a b : no_lf a -> no_lf b -> no_lf (a ++ b).
Proof. unfold no_lf. rewrite elem_of_app. tauto. Qed.

Lemma no_lf_repeat_star n : no_lf (repeat star n).
Proof.
  apply no_lf_forall. induction n; simpl; constructor; [done|assumption].
Qed.

Lemma pattern_text_no_lf line stars text :
  no_lf line -> heading_pattern line = Some (stars, text) -> no_lf (strip text).
Proof.
  intros Hl H.
  destruct (heading_pattern_sound _ _ _ H) as (n & _ & _ & ws & tx & _ & _ & _ & -> & <-).
  apply strip_no_lf. unfold no_lf in *. rewrite !elem_of_app in Hl. tauto.
Qed.

(** Replacing a heading by itself with an empty body leaves the heading
    with an empty span, provided its label is not empty. *)
Lemma update_then_locate content label level s e :
  label <> [] ->
  find_heading_in_content content label level = Some (s, e) ->
  find_heading_in_content
    (update_heading_in_content content label label [] level) label level
  = Some (s, S s).
Proof.
  intros Hne Hfind. unfold update_heading_in_content. rewrite Hfind.
  destruct (find_heading_some _ _ _ _ _ Hfind)
    as (k & line & text & -> & Hk & Hp & Hth & Hbefore & He).
  set (lines := splitlines content) in *.
  set (ts := str_mul star level) in *.
  assert (Hlines : Forall no_lf lines) by apply splitlines_no_lf.
  assert (Hline : no_lf line).
  { rewrite Forall_forall in Hlines. apply Hlines. by eapply list_elem_of_lookup_2. }
  assert (Hklt : k < length lines) by (by apply lookup_lt_Some in Hk).
  assert (Hlabel : strip label = label) by (rewrite <- Hth; apply strip_idem).
  assert (Hn : 0 < Z.to_nat level).
  { pose proof (pattern_stars_nonempty _ _ _ Hp) as Hs. unfold ts, str_mul in Hs.
    destruct (Z.to_nat level); [done | lia]. }
  destruct (heading_line_matches _ _ Hn Hne Hlabel) as (text' & Hp' & Hs').
  fold (str_mul star level) in Hp'. fold ts in Hp'.
  unfold heading_block. simpl truthy. cbv iota. rewrite app_nil_r.
  fold ts.
  set (hl := ts ++ py " " ++ label) in *.
  assert (Hnew : Forall no_lf ((take k lines ++ [hl]) ++ drop e lines)).
  { apply Forall_app. split; [apply Forall_app; split|].
    - by apply Forall_take.
    - constructor; [|constructor]. unfold hl, ts, str_mul.
      apply no_lf_app; [apply no_lf_repeat_star|].
      apply no_lf_app; [apply no_lf_forall; by repeat constructor|].
      rewrite <- Hth. by eapply pattern_text_no_lf.
    - by apply Forall_drop. }
  unfold find_heading_in_content.
  rewrite splitlines_join; [|by destruct (take k lines) | done].
  fold ts. rewrite <- app_assoc.
  rewrite scan_heading_skip.
  2:{ intros l t Hin Hl. apply list_elem_of_lookup in Hin as [k' Hk'].
      pose proof (lookup_lt_Some _ _ _ Hk') as Hlt.
      rewrite length_take in Hlt. rewrite lookup_take_lt in Hk' by lia.
      eapply Hbefore; [|done..]. lia. }
  simpl app. rewrite (scan_heading_here _ _ _ _ _ _ _ Hp' Hs').
  rewrite length_take, Nat.min_l by lia. simpl. f_equal. f_equal.
  rewrite !length_app, length_take, Nat.min_l by lia. simpl.
  destruct (scan_end ts (S k) (drop (S k) lines)) as [e'|] eqn:Hend;
    simpl in He; subst e.
  - destruct (scan_end_some _ _ _ _ Hend)
      as (k2 & l2 & n2 & t2 & -> & Hk2 & Hp2 & Hle & _).
    rewrite lookup_drop in Hk2.
    rewrite (drop_S _ _ _ Hk2). simpl. rewrite Hp2.
    apply Nat.leb_le in Hle. by rewrite Hle.
  - rewrite drop_all. simpl. lia.
Qed.

(** ** The title line *)

Lemma startswith_spec p s : startswith p s = true <-> exists rest, s = p ++ rest.
Proof.
  revert s. induction p as [|a p IH]; intros s; simpl.
  - split; eauto.
  - destruct s as [|b s].
    + split; [done | intros [? ?]; done].
    + rewrite andb_true_iff, bool_decide_eq_true, IH. split.
      * intros [-> [rest ->]]. eauto.
      * intros [rest [= -> ->]]. eauto.
Qed.

Lemma title_line_test line :
  startswith (py "#+title:") line || startswith (py "#+TITLE:") line = true
  <-> is_title_line line.
Proof.
  rewrite orb_true_iff, !startswith_spec. unfold is_title_line, title_prefix.
  split.
  - intros [[rest ->] | [rest ->]]; eauto.
  - intros (p & rest & [-> | ->] & ->); eauto.
Qed.

Lemma title_line_text p rest :
  title_prefix p -> index (split1 ":" (p ++ rest)) 1 = Ok rest.
Proof. intros [-> | ->]; reflexivity. Qed.

Lemma extract_title_lines_cons line rest :
  extract_title_lines (line :: rest) =
  if startswith (py "#+title:") line || startswith (py "#+TITLE:") line
  then match index (split1 ":" line) 1 with
       | Ok t => Ok (Some (strip t))
       | Raise e => Raise e
       end
  else extract_title_lines rest.
Proof. reflexivity. Qed.

Lemma extract_title_lines_skip line rest :
  ~ is_title_line line ->
  extract_title_lines (line :: rest) = extract_title_lines rest.
Proof.
  intros H. rewrite extract_title_lines_cons.
  destruct (startswith (py "#+title:") line || startswith (py "#+TITLE:") line)
    eqn:E; [|done].
  by apply title_line_test in E.
Qed.

Lemma extract_title_lines_hit p rest post :
  title_prefix p ->
  extract_title_lines ((p ++ rest) :: post) = Ok (Some (strip rest)).
Proof.
  intros Hp. rewrite extract_title_lines_cons.
  assert (E : startswith (py "#+title:") (p ++ rest)
              || startswith (py "#+TITLE:") (p ++ rest) = true)
    by (apply title_line_test; by exists p, rest).
  rewrite E. by rewrite title_line_text.
Qed.

Lemma extract_title_lines_first pre p rest post :
  title_prefix p -> Forall (fun l => ~ is_title_line l) pre ->
  extract_title_lines (pre ++ (p ++ rest) :: post) = Ok (Some (strip rest)).
Proof.
  intros Hp. induction 1 as [|l pre Hl _ IH].
  - by apply extract_title_lines_hit.
  - change ((l :: pre) ++ (p ++ rest) :: post)
      with (l :: (pre ++ (p ++ rest) :: post)).
    by rewrite extract_title_lines_skip.
Qed.

Lemma extract_title_lines_none lines :
  Forall (fun l => ~ is_title_line l) lines ->
  extract_title_lines lines = Ok None.
Proof.
  induction 1 as [|l pre Hl _ IH]; [done|].
  by rewrite extract_title_lines_skip.
Qed.

(** [extract_title_from_content] never raises: a line that passes the
    prefix test contains a colon. *)
Lemma extract_title_lines_ok lines : exists r, extract_title_lines lines = Ok r.
Proof.
  induction lines as [|l lines IH]; [by eexists|].
  rewrite extract_title_lines_cons.
  destruct (startswith (py "#+title:") l || startswith (py "#+TITLE:") l) eqn:E;
    [|done].
  apply title_line_test in E as (p & rest & Hp & ->).
  rewrite title_line_text by done. eauto.
Qed.

(** ** The scheduler *)

Local Open Scope Q_scope.

Lemma Qle_bool_false a b : Qle_bool a b = false <-> b < a.
Proof.
  rewrite <- not_true_iff_false, Qle_bool_iff. split.
  - apply Qnot_le_lt.
  - apply Qlt_not_le.
Qed.

Ltac q_cases :=
  repeat match goal with
    | |- context [Qle_bool ?a ?b] =>
        let E := fresh "E" in
        destruct (Qle_bool a b) eqn:E;
        [apply Qle_bool_iff in E | apply Qle_bool_false in E];
        cbn [andb negb]
    end.

(** The branch of the ladder taken, by the interval that holds
    [total_minutes]. *)
Lemma schedule_bucket_key_cases (tm : Q) :
  ((90 <= tm /\ tm <= 120) /\ schedule_bucket_key tm = Some (py "_2h")) \/
  ((60 <= tm /\ tm < 90) /\ schedule_bucket_key tm = Some (py "_90m")) \/
  ((45 <= tm /\ tm < 60) /\ schedule_bucket_key tm = Some (py "_1h")) \/
  ((30 <= tm /\ tm < 45) /\ schedule_bucket_key tm = Some (py "_45m")) \/
  ((15 <= tm /\ tm < 30) /\ schedule_bucket_key tm = Some (py "_30m")) \/
  ((0 <= tm /\ tm < 15) /\ schedule_bucket_key tm = Some (py "_15m")) \/
  ((tm < 0 \/ 120 < tm) /\ schedule_bucket_key tm = None).
Proof.
  unfold schedule_bucket_key, schedule_bucket.
  q_cases; simpl;
    first
      [ left; split; [split; lra | reflexivity]
      | right; left; split; [split; lra | reflexivity]
      | right; right; left; split; [split; lra | reflexivity]
      | right; right; right; left; split; [split; lra | reflexivity]
      | right; right; right; right; left; split; [split; lra | reflexivity]
      | right; right; right; right; right; left;
        split; [split; lra | reflexivity]
      | right; right; right; right; right; right;
        split; [first [left; lra | right; lra] | reflexivity] ].
Qed.

Lemma deadline_bucket_key_cases (th : Q) :
  ((6 <= th /\ th <= 8) /\ deadline_bucket_key th = Some (py "_today")) \/
  ((th < 6 \/ 8 < th) /\ deadline_bucket_key th = None).
Proof.
  unfold deadline_bucket_key, deadline_bucket.
  q_cases; simpl;
    first [ left; split; [split; lra | reflexivity]
          | right; split; [first [left; lra | right; lra] | reflexivity] ].
Qed.

Ltac key_differs :=
  let H := fresh in intros H; vm_compute in H; discriminate H.

Local Close Scope Q_scope.

Section TransportFacts.

Context {net : Type}.
Variable send_message : net -> str -> str -> res unit * net.

Lemma notify_once_recorded key msg bot n :
  key ∈ sent_notifications bot ->
  notify_once send_message key msg bot n = (bot, n, []).
Proof. intros H. unfold notify_once. by rewrite bool_decide_true. Qed.

Lemma notify_once_sent key msg bot n bot' n' bs :
  notify_once send_message key msg bot n = (bot', n', bs) ->
  key ∈ sent_notifications bot' /\
  sent_notifications bot ⊆ sent_notifications bot'.
Proof.
  unfold notify_once. case_bool_decide as Hin.
  - intros [= <- <- <-]. done.
  - destruct (send_notification_to_subscribers _ _ _ _) as [n1 b].
    intros [= <- <- <-]. simpl. set_solver.
Qed.

Lemma do_call_recorded c bot n k :
  call_key c = Some k -> k ∈ sent_notifications bot ->
  do_call send_message c bot n = (bot, n, []).
Proof.
  destruct c as [item t now | item t now]; simpl;
    unfold schedule_key, check_schedule_notifications,
           deadline_key, check_deadline_notifications.
  - destruct (schedule_bucket _) as [[suffix lead]|]; [|done].
    intros [= <-] Hin. by apply notify_once_recorded.
  - destruct (deadline_bucket _) as [[suffix lead]|]; [|done].
    intros [= <-] Hin. by apply notify_once_recorded.
Qed.

Lemma do_call_sent c bot n bot' n' bs :
  do_call send_message c bot n = (bot', n', bs) ->
  sent_notifications bot ⊆ sent_notifications bot' /\
  (forall k, call_key c = Some k -> k ∈ sent_notifications bot').
Proof.
  destruct c as [item t now | item t now]; simpl;
    unfold schedule_key, check_schedule_notifications,
           deadline_key, check_deadline_notifications.
  - destruct (schedule_bucket _) as [[suffix lead]|].
    + intros H. apply notify_once_sent in H as [H1 H2]. split; [done|].
      by intros k [= <-].
    + intros [= <- <- <-]. done.
  - destruct (deadline_bucket _) as [[suffix lead]|].
    + intros H. apply notify_once_sent in H as [H1 H2]. split; [done|].
      by intros k [= <-].
    + intros [= <- <- <-]. done.
Qed.

Lemma do_calls_sent cs bot n bot' n' bs :
  do_calls send_message cs bot n = (bot', n', bs) ->
  sent_notifications bot ⊆ sent_notifications bot'.
Proof.
  revert bot n bot' n' bs.
  induction cs as [|c cs IH]; intros bot n bot' n' bs; simpl.
  - by intros [= <- <- <-].
  - destruct (do_call send_message c bot n) as [[b1 n1] bs1] eqn:E1.
    destruct (do_calls send_message cs b1 n1) as [[b2 n2] bs2] eqn:E2.
    intros [= <- <- <-].
    apply do_call_sent in E1 as [E1 _]. apply IH in E2. set_solver.
Qed.

Lemma do_calls_app cs1 cs2 bot n :
  do_calls send_message (cs1 ++ cs2) bot n =
  let '(b1, n1, bs1) := do_calls send_message cs1 bot n in
  let '(b2, n2, bs2) := do_calls send_message cs2 b1 n1 in
  (b2, n2, bs1 ++ bs2).
Proof.
  revert bot n. induction cs1 as [|c cs1 IH]; intros bot n; simpl.
  - by destruct (do_calls send_message cs2 bot n) as [[? ?] ?].
  - destruct (do_call send_message c bot n) as [[b1 n1] bs1].
    rewrite IH.
    destruct (do_calls send_message cs1 b1 n1) as [[b2 n2] bs2].
    destruct (do_calls send_message cs2 b2 n2) as [[b3 n3] bs3].
    by rewrite app_assoc.
Qed.

(** Once a call has computed a key, the key is in the ledger after every
    later sequence of calls. *)
Lemma key_stays_recorded cs1 c cs2 bot n k :
  call_key c = Some k ->
  k ∈ sent_notifications (do_calls send_message (cs1 ++ c :: cs2) bot n).1.1.
Proof.
  intros Hk. rewrite do_calls_app.
  destruct (do_calls send_message cs1 bot n) as [[b1 n1] bs1]. simpl.
  destruct (do_call send_message c b1 n1) as [[b2 n2] bs2] eqn:E2.
  destruct (do_calls send_message cs2 b2 n2) as [[b3 n3] bs3] eqn:E3. simpl.
  apply do_call_sent in E2 as [_ E2]. apply do_calls_sent in E3.
  specialize (E2 k Hk). set_solver.
Qed.

(** Calls about the same notice compute the same key. *)
Lemma same_notice_key c c' :
  same_notice c c' ->
  exists k, call_key c = Some k /\ call_key c' = Some k.
Proof.
  destruct c as [i t now | i t now], c' as [i' t' now' | i' t' now'];
    try done; simpl.
  - intros (Hf & Ht & <- & b & Hb & Hb').
    unfold schedule_key, schedule_bucket_key, schedule_notification_id in *.
    destruct (schedule_bucket (schedule_total_minutes t now))
      as [[s l]|]; [|done].
    destruct (schedule_bucket (schedule_total_minutes t now'))
      as [[s' l']|]; [|done].
    simpl in Hb, Hb'. injection Hb as ->. injection Hb' as ->.
    rewrite Hf, Ht. eauto.
  - intros (Hf & Ht & Hd & b & Hb & Hb').
    unfold deadline_key, deadline_bucket_key, deadline_notification_id in *.
    destruct (deadline_bucket (deadline_total_hours t now))
      as [[s l]|]; [|done].
    destruct (deadline_bucket (deadline_total_hours t' now'))
      as [[s' l']|]; [|done].
    simpl in Hb, Hb'. injection Hb as ->. injection Hb' as ->.
    rewrite Hf, Ht, Hd. eauto.
Qed.

(** The recipients tried are the subscribers up to the first failure. *)
Lemma send_loop_prefix n subs msg :
  exists rest, subs = (send_loop send_message n subs msg).2 ++ rest /\
    ((send_loop send_message n subs msg).1.1 = Ok tt -> rest = []).
Proof.
  revert n. induction subs as [|s subs IH]; intros n; simpl.
  - by exists [].
  - destruct (send_message n s msg) as [[[]|e] n1].
    + destruct (IH n1) as (rest & Hrest & Hok).
      destruct (send_loop send_message n1 subs msg) as [[r n2] tried].
      simpl in *. exists rest. split; [by f_equal | done].
    + exists subs. by split.
Qed.

End TransportFacts.

(** A pass of the watch inside the window is the sequence of its calls;
    outside the window it does nothing. *)
Lemma threshold_watch_pass_calls {net : Type}
    (send_message : net -> str -> str -> res unit * net)
    agenda checked_at now bot (n : net) :
  threshold_watch_pass send_message agenda checked_at now bot n
  = if is_notification_time bot checked_at
    then do_calls send_message (pass_calls agenda now) bot n
    else (bot, n, []).
Proof. reflexivity. Qed.

(** The item enters the 30-minute bucket at 08:40 and is announced; the
    pass one minute later computes the same key and sends nothing. *)
Example watch_rerun_sends_nothing :
  let agenda := {| schedules_today := [standup];
                   deadlines_today := [];
                   todos := ∅ |} in
  let at_0840 := combine (Date 2024 1 1) (Time 8 40 0 0) in
  let at_0841 := combine (Date 2024 1 1) (Time 8 41 0 0) in
  let '(bot1, n1, sent1) :=
    threshold_watch_pass always_ok agenda at_0840 at_0840
      (example_bot [py "a@x"]) tt in
  let '(bot2, n2, sent2) :=
    threshold_watch_pass always_ok agenda at_0841 at_0841 bot1 n1 in
  (length sent1, sent2) = (1%nat, []).
Proof. vm_compute. reflexivity. Qed.

(** ** Timestamps *)

Lemma startswith_app p rest : startswith p (p ++ rest) = true.
Proof. apply startswith_spec. eauto. Qed.

(** The anchored timestamp pattern, read as a decomposition of the
    input. *)
Lemma stamp_here_complete keyword ws value rest :
  Forall (fun c => isspace c = true) ws ->
  value <> [] -> Forall (fun c => not_gt c = true) value ->
  stamp_here keyword (keyword ++ ws ++ "<"%char :: value ++ ">"%char :: rest)
  = Some value.
Proof.
  intros Hws Hne Hv. unfold stamp_here. cbv zeta.
  rewrite startswith_app, drop_app_length, (drop_while_app _ _ _ Hws).
  rewrite drop_while_stop by done. rewrite bool_decide_true by done.
  rewrite (take_while_app _ _ _ Hv), (drop_while_app _ _ _ Hv).
  rewrite take_while_stop, drop_while_stop by done. rewrite app_nil_r.
  by destruct value.
Qed.

Lemma drop_while_not_gt_head r g rest :
  drop_while not_gt r = g :: rest -> g = ">"%char.
Proof.
  intros H. apply drop_while_head in H. unfold not_gt in H.
  apply negb_false_iff in H. by apply bool_decide_eq_true in H.
Qed.

Lemma stamp_here_sound keyword s value :
  stamp_here keyword s = Some value ->
  exists ws rest,
    s = keyword ++ ws ++ "<"%char :: value ++ ">"%char :: rest /\
    Forall (fun c => isspace c = true) ws /\
    value <> [] /\ Forall (fun c => not_gt c = true) value.
Proof.
  unfold stamp_here. cbv zeta.
  destruct (startswith keyword s) eqn:Hs; [|done].
  apply startswith_spec in Hs as [tail ->]. rewrite drop_app_length.
  pose proof (take_drop_while isspace tail) as Htail.
  pose proof (take_while_all isspace tail) as Hws.
  destruct (drop_while isspace tail) as [|c r] eqn:Hd; [done|].
  case_bool_decide as Hc; [subst c | done].
  pose proof (take_drop_while not_gt r) as Hr.
  pose proof (take_while_all not_gt r) as Hv.
  destruct (take_while not_gt r) as [|v0 v] eqn:Hval; [done|].
  destruct (drop_while not_gt r) as [|g rest] eqn:Hg; [done|].
  apply drop_while_not_gt_head in Hg as ->.
  intros [= <-]. exists (take_while isspace tail), rest.
  rewrite Hr, Htail. done.
Qed.

(** [re.search] returns the match at the first position that has one. *)
Lemma stamp_search_sound keyword s value :
  stamp_search keyword s = Some value ->
  exists k, stamp_here keyword (drop k s) = Some value /\
            forall j, (j < k)%nat -> stamp_here keyword (drop j s) = None.
Proof.
  induction s as [|c s IH]; simpl.
  - destruct (stamp_here keyword []) eqn:E; [|done].
    intros [= <-]. exists 0%nat. split; [done | intros; lia].
  - destruct (stamp_here keyword (c :: s)) as [v|] eqn:E.
    + intros [= <-]. exists 0%nat. split; [done | intros; lia].
    + intros H. destruct (IH H) as (k & Hk & Hbefore).
      exists (S k). split; [done|].
      intros [|j] Hj; [done|]. apply Hbefore. lia.
Qed.

Lemma stamp_search_none keyword s :
  stamp_search keyword s = None ->
  forall j, stamp_here keyword (drop j s) = None.
Proof.
  induction s as [|c s IH]; simpl.
  - destruct (stamp_here keyword []) eqn:E; [done|]. by intros _ [|j].
  - destruct (stamp_here keyword (c :: s)) as [v|] eqn:E; [done|].
    intros H [|j]; [done|]. by apply IH.
Qed.

(** The first token of [split()] is the first maximal run of characters
    that are not whitespace. *)
Lemma split_ws_go_run cur token rest :
  Forall (fun c => isspace c = false) token ->
  split_ws_go cur (token ++ rest) = split_ws_go (rev token ++ cur) rest.
Proof.
  intros H. revert cur. induction H as [|c token Hc _ IH]; intros cur; [done|].
  simpl. rewrite Hc, IH. by rewrite <- app_assoc.
Qed.

Lemma split_ws_first_token ws token rest :
  Forall (fun c => isspace c = true) ws ->
  token <> [] -> Forall (fun c => isspace c = false) token ->
  (rest = [] \/ exists c r, rest = c :: r /\ isspace c = true) ->
  exists more, split_ws (ws ++ token ++ rest) = token :: more.
Proof.
  intros Hws Hne Htok Hrest. unfold split_ws.
  induction Hws as [|w ws Hw _ IH]; simpl.
  - rewrite split_ws_go_run by done. rewrite app_nil_r.
    assert (Hrev : rev token <> []).
    { intros E. apply (f_equal (@rev ascii)) in E.
      by rewrite rev_involutive in E. }
    destruct Hrest as [-> | (c & r & -> & Hc)]; simpl.
    + destruct (rev token) eqn:E; [done|]. rewrite <- E, rev_involutive. eauto.
    + rewrite Hc. destruct (rev token) eqn:E; [done|].
      rewrite <- E, rev_involutive. eauto.
  - by rewrite Hw.
Qed.

Lemma split_ws_all_space ws :
  Forall (fun c => isspace c = true) ws -> split_ws ws = [].
Proof.
  unfold split_ws. induction 1 as [|w ws Hw _ IH]; simpl; [done|].
  by rewrite Hw.
Qed.

(** ** The heading-to-body index *)

Lemma store_section_other (ch : option str) (cc : list str)
    (m : gmap str str) (h : str) :
  ch <> Some h -> store_section ch cc m !! h = m !! h.
Proof.
  intros Hne. destruct ch as [[|c k]|]; simpl; try done.
  apply lookup_insert_ne. congruence.
Qed.

Lemma store_section_here (cc : list str) (m : gmap str str) (h : str) :
  h <> [] -> store_section (Some h) cc m !! h = Some (join [LF] cc).
Proof. intros Hne. destruct h; [done|]. simpl. apply lookup_insert_eq. Qed.

(** Whatever precedes a heading line only changes the state in which the
    scan reaches it. *)
Lemma scan_sections_app pre rest ch cc m :
  exists ch' cc' m',
    scan_sections (pre ++ rest) ch cc m = scan_sections rest ch' cc' m'.
Proof.
  revert ch cc m. induction pre as [|l pre IH]; intros ch cc m; simpl.
  - eauto.
  - destruct (heading_pattern l) as [[st tx]|]; apply IH.
Qed.

Lemma scan_sections_body body rest ch cc m :
  Forall (fun l => heading_pattern l = None) body ->
  scan_sections (body ++ rest) ch cc m
  = scan_sections rest ch (cc ++ body) m.
Proof.
  intros H. revert cc. induction H as [|l body Hl _ IH]; intros cc; simpl.
  - by rewrite app_nil_r.
  - rewrite Hl, IH. by rewrite <- app_assoc.
Qed.

(** An entry is kept as long as no later heading has its key. *)
Lemma scan_sections_keeps (lines : list str) (ch : option str)
    (cc : list str) (m : gmap str str) (h v : str) :
  m !! h = Some v -> ch <> Some h ->
  (forall l st tx, l ∈ lines -> heading_pattern l = Some (st, tx) ->
                   strip tx <> h) ->
  scan_sections lines ch cc m !! h = Some v.
Proof.
  revert ch cc m. induction lines as [|l lines IH]; intros ch cc m Hm Hch Hno;
    simpl.
  - by rewrite store_section_other.
  - destruct (heading_pattern l) as [[st tx]|] eqn:Hl.
    + apply IH.
      * by rewrite store_section_other.
      * intros [= E]. eapply Hno; [by left | done..].
      * intros ? ? ? ?. apply Hno. by right.
    + apply IH; [done..|]. intros ? ? ? ?. apply Hno. by right.
Qed.

Lemma scan_sections_last pre hl stars text body post ch cc m :
  heading_pattern hl = Some (stars, text) -> strip text <> [] ->
  Forall (fun l => heading_pattern l = None) body ->
  (post = [] \/ exists l post', post = l :: post' /\ heading_pattern l <> None) ->
  (forall l st tx, l ∈ post -> heading_pattern l = Some (st, tx) ->
                   strip tx <> strip text) ->
  scan_sections (pre ++ hl :: body ++ post) ch cc m !! strip text
  = Some (join [LF] body).
Proof.
  intros Hhl Hne Hbody Hpost Hlast.
  destruct (scan_sections_app pre (hl :: body ++ post) ch cc m)
    as (ch' & cc' & m' & ->).
  simpl. rewrite Hhl, scan_sections_body by done. simpl.
  destruct Hpost as [-> | (l & post' & -> & Hl)]; simpl.
  - by apply store_section_here.
  - destruct (heading_pattern l) as [[st tx]|] eqn:El; [|done].
    apply scan_sections_keeps.
    + by apply store_section_here.
    + intros [= E]. eapply Hlast; [by left | done..].
    + intros ? ? ? ?. apply Hlast. by right.
Qed.

Lemma stamp_search_unfold keyword s :
  stamp_search keyword s
  = match stamp_here keyword s with
    | Some v => Some v
    | None => match s with
              | [] => None
              | _ :: r => stamp_search keyword r
              end
    end.
Proof. by destruct s. Qed.

Lemma stamp_search_complete keyword s k value :
  stamp_here keyword (drop k s) = Some value ->
  (forall j, (j < k)%nat -> stamp_here keyword (drop j s) = None) ->
  stamp_search keyword s = Some value.
Proof.
  revert s. induction k as [|k IH]; intros s Hk Hbefore.
  - rewrite stamp_search_unfold. change (drop 0 s) with s in Hk.
    by rewrite Hk.
  - pose proof (Hbefore 0%nat ltac:(lia)) as H0.
    change (drop 0 s) with s in H0.
    rewrite stamp_search_unfold, H0.
    destruct s as [|c r]; [change (drop (S k) []) with (@nil ascii) in Hk;
                           congruence|].
    apply IH; [done|]. intros j Hj. apply (Hbefore (S j)). lia.
Qed.

Lemma stamp_search_absent keyword s :
  (forall j, stamp_here keyword (drop j s) = None) ->
  stamp_search keyword s = None.
Proof.
  induction s as [|c r IH]; intros H; rewrite stamp_search_unfold.
  - pose proof (H 0%nat) as H0. change (drop 0 []) with (@nil ascii) in H0.
    by rewrite H0.
  - pose proof (H 0%nat) as H0. change (drop 0 (c :: r)) with (c :: r) in H0.
    rewrite H0.
    apply IH. intros j. apply (H (S j)).
Qed.

(** ** The two extractors *)

(** Induction on a tree whose children are a list of trees. *)
Lemma OrgNode_tree_ind (P : OrgNode -> Prop) :
  (forall h t tg p cs, Forall P cs -> P (Node h t tg p cs)) ->
  forall n, P n.
Proof.
  intros H. fix IH 1. intros [h t tg p cs]. apply H.
  induction cs as [|c cs IHcs]; constructor; [apply IH | exact IHcs].
Qed.

Lemma walk_nodes_fold today name ft sections flag node st :
  walk_nodes today name ft sections flag node st
  = fold_left (fun st c => walk_nodes today name ft sections flag c st)
      (node_children node)
      (if truthy (node_heading node)
       then visit today name ft sections flag node st else st).
Proof.
  destruct node as [h t tg p cs]. simpl.
  generalize (if truthy h
              then visit today name ft sections flag (Node h t tg p cs) st
              else st).
  induction cs as [|c cs IH]; intros s; simpl; [done | apply IH].
Qed.

Lemma walk_nodes_task_only_fold today name ft sections flag node st :
  walk_nodes_task_only today name ft sections flag node st
  = fold_left
      (fun st c => walk_nodes_task_only today name ft sections flag c st)
      (node_children node)
      (if truthy (node_heading node)
       then visit_task_only today name ft sections flag node st else st).
Proof.
  destruct node as [h t tg p cs]. simpl.
  generalize (if truthy h
              then visit_task_only today name ft sections flag
                     (Node h t tg p cs) st
              else st).
  induction cs as [|c cs IH]; intros s; simpl; [done | apply IH].
Qed.

Lemma restrict_app_keep l i :
  from_task_file i = true ->
  restrict_to_task_files (l ++ [i]) = restrict_to_task_files l ++ [retag i].
Proof.
  intros H. unfold restrict_to_task_files.
  rewrite List.filter_app, map_app. simpl. by rewrite H.
Qed.

Lemma restrict_app_drop l i :
  from_task_file i = false ->
  restrict_to_task_files (l ++ [i]) = restrict_to_task_files l.
Proof.
  intros H. unfold restrict_to_task_files.
  rewrite List.filter_app, map_app. simpl. by rewrite H, app_nil_r.
Qed.

Section OneFile.

Variables (today : date) (name ft : str) (sections : gmap str str).
Variable flag : bool.

Let b := has_task_filetag name.

Lemma retag_item_data node :
  retag (item_data name ft sections node flag)
  = item_data name ft sections node b.
Proof.
  unfold item_data, retag.
  destruct (status_and_title _ _) as [kw original].
  by destruct (parse_timestamps_in_content _ _) as [s d].
Qed.

Lemma item_data_flag node f1 f2 :
  title (item_data name ft sections node f1)
  = title (item_data name ft sections node f2) /\
  scheduled (item_data name ft sections node f1)
  = scheduled (item_data name ft sections node f2) /\
  deadline (item_data name ft sections node f1)
  = deadline (item_data name ft sections node f2) /\
  todo_keyword (item_data name ft sections node f1)
  = todo_keyword (item_data name ft sections node f2) /\
  file_name (item_data name ft sections node f1) = name.
Proof.
  unfold item_data.
  destruct (status_and_title _ _) as [kw original].
  by destruct (parse_timestamps_in_content _ _) as [s d].
Qed.

(** A guarded append made by both walks under a key that both have or
    both lack. *)
Lemma once_both item_id appf appt full task :
  (b = true \/ is_todo_id item_id = false) ->
  (forall af at_, agenda_rel af at_ -> agenda_rel (appf af) (appt at_)) ->
  state_rel b full task ->
  state_rel b (once item_id appf full) (once item_id appt task).
Proof.
  intros Hid Happ Hrel. pose proof Hrel as [Hkeys Hag]. unfold once.
  destruct (decide (item_id ∈ full.1)) as [Hin|Hnin].
  - rewrite (bool_decide_true (item_id ∈ full.1)) by done.
    rewrite (bool_decide_true (item_id ∈ task.1)); [done|].
    apply Hkeys. by split.
  - rewrite (bool_decide_false (item_id ∈ full.1)) by done.
    rewrite (bool_decide_false (item_id ∈ task.1)) by (rewrite Hkeys; tauto).
    split; simpl; [|by apply Happ].
    intros k. rewrite !elem_of_union, !elem_of_singleton, Hkeys.
    split; [intros [->|[? ?]]; auto | intros [[->|?] ?]; auto].
Qed.

(** A status append that only the full walk makes: the file has no
    [task] filetag. *)
Lemma once_full_only item_id k i full task :
  b = false -> is_todo_id item_id = true -> file_name i = name ->
  state_rel b full task ->
  state_rel b (once item_id (add_todo k i) full) task.
Proof.
  intros Hb Hid Hname [Hkeys Hag]. unfold once.
  case_bool_decide as Hin; [done|].
  split; simpl.
  - intros k'. rewrite elem_of_union, elem_of_singleton, Hkeys.
    split; [intros [? ?]; auto|].
    intros [[->|?] [?|Hk]]; try congruence; auto.
  - destruct Hag as (Hs & Hd & Ht). split; [done|]. split; [done|].
    simpl. rewrite Ht.
    rewrite (fmap_alter _ _ id).
    + apply map_eq. intros j. rewrite lookup_alter.
      case_decide; [subst j|done]. by destruct (_ !! k).
    + intros l _. apply restrict_app_drop.
      unfold from_task_file. rewrite Hname. exact Hb.
Qed.

Lemma add_schedule_rel i af at_ :
  agenda_rel af at_ -> agenda_rel (add_schedule i af) (add_schedule (retag i) at_).
Proof.
  intros (Hs & Hd & Ht). split; [|done]. simpl. by rewrite Hs, map_app.
Qed.

Lemma add_deadline_rel i af at_ :
  agenda_rel af at_ -> agenda_rel (add_deadline i af) (add_deadline (retag i) at_).
Proof.
  intros (Hs & Hd & Ht). split; [done|]. split; [|done].
  simpl. by rewrite Hd, map_app.
Qed.

Lemma add_todo_rel k i af at_ :
  from_task_file i = true ->
  agenda_rel af at_ -> agenda_rel (add_todo k i af) (add_todo k (retag i) at_).
Proof.
  intros Hi (Hs & Hd & Ht). split; [done|]. split; [done|].
  simpl. rewrite Ht. symmetry. apply fmap_alter. intros l _.
  by apply restrict_app_keep.
Qed.

Lemma visit_rel node full task :
  state_rel b full task ->
  state_rel b (visit today name ft sections flag node full)
              (visit_task_only today name ft sections b node task).
Proof.
  intros Hrel. unfold visit, visit_task_only. cbv zeta.
  rewrite <- retag_item_data.
  destruct (item_data_flag node flag flag) as (_ & _ & _ & _ & Hn).
  set (i := item_data name ft sections node flag) in *.
  change (title (retag i)) with (title i).
  change (scheduled (retag i)) with (scheduled i).
  change (deadline (retag i)) with (deadline i).
  change (todo_keyword (retag i)) with (todo_keyword i).
  assert (H1 : state_rel b
    (if is_today (scheduled i) today
     then once (schedule_id name (title i)) (add_schedule i) full else full)
    (if is_today (scheduled i) today
     then once (schedule_id name (title i)) (add_schedule (retag i)) task
     else task)).
  { destruct (is_today (scheduled i) today); [|done].
    apply once_both; [by right | apply add_schedule_rel | done]. }
  set (full1 := if is_today (scheduled i) today then _ else full) in *.
  set (task1 := if is_today (scheduled i) today then _ else task) in *.
  assert (H2 : state_rel b
    (if is_today (deadline i) today
     then once (deadline_id name (title i)) (add_deadline i) full1 else full1)
    (if is_today (deadline i) today
     then once (deadline_id name (title i)) (add_deadline (retag i)) task1
     else task1)).
  { destruct (is_today (deadline i) today); [|done].
    apply once_both; [by right | apply add_deadline_rel | done]. }
  set (full2 := if is_today (deadline i) today then _ else full1) in *.
  set (task2 := if is_today (deadline i) today then _ else task1) in *.
  destruct (is_open (todo_keyword i)) as [k|]; [|done].
  destruct (bool_dec b true) as [Hb|Hb].
  - match goal with
    | |- state_rel _ _ (if b then ?X else ?Y) =>
        replace (if b then X else Y) with X by (by rewrite Hb)
    end.
    apply once_both; [by left | | done].
    intros af at_. apply add_todo_rel. unfold from_task_file. by rewrite Hn.
  - apply not_true_is_false in Hb.
    match goal with
    | |- state_rel _ _ (if b then ?X else ?Y) =>
        replace (if b then X else Y) with Y by (by rewrite Hb)
    end.
    apply once_full_only; done.
Qed.

Lemma walk_rel node :
  forall full task,
    state_rel b full task ->
    state_rel b (walk_nodes today name ft sections flag node full)
                (walk_nodes_task_only today name ft sections b node task).
Proof.
  induction node as [h t tg p cs IH] using OrgNode_tree_ind.
  intros full task Hrel.
  rewrite walk_nodes_fold, walk_nodes_task_only_fold. simpl.
  assert (H0 : state_rel b
    (if truthy h then visit today name ft sections flag (Node h t tg p cs) full
     else full)
    (if truthy h
     then visit_task_only today name ft sections b (Node h t tg p cs) task
     else task)).
  { destruct (truthy h); [by apply visit_rel | done]. }
  revert H0.
  generalize (if truthy h
              then visit today name ft sections flag (Node h t tg p cs) full
              else full).
  generalize (if truthy h
              then visit_task_only today name ft sections b
                     (Node h t tg p cs) task
              else task).
  induction IH as [|c cs Hc _ IHcs]; intros t0 f0 H0; simpl; [done|].
  apply IHcs. by apply Hc.
Qed.

Lemma walk_roots_rel roots :
  forall full task,
    state_rel b full task ->
    state_rel b
      (fold_left (fun st c => walk_nodes today name ft sections flag c st)
         roots full)
      (fold_left
         (fun st c => walk_nodes_task_only today name ft sections b c st)
         roots task).
Proof.
  induction roots as [|c cs IH]; intros full task Hrel; simpl; [done|].
  apply IH. by apply walk_rel.
Qed.

End OneFile.

Lemma process_file_rel today f af at_ :
  agenda_rel af at_ ->
  agenda_rel (process_file today f af) (process_file_task_only today f at_).
Proof.
  intros Hrel. unfold process_file, process_file_task_only.
  destruct (read_text f) as [content|]; [|done].
  destruct (orgparse_load f) as [roots|]; [|done].
  destruct (file_title content (path_stem (path_name f))) as [ft|]; [|done].
  cbv zeta. apply walk_roots_rel. split; [|done].
  intros k. simpl. rewrite !elem_of_empty. tauto.
Qed.

Lemma empty_agenda_rel : agenda_rel empty_agenda empty_agenda.
Proof.
  split; [done|]. split; [done|]. simpl.
  by rewrite !fmap_insert, fmap_empty.
Qed.

Lemma parse_rel today files af at_ :
  agenda_rel af at_ ->
  agenda_rel (fold_left (fun a f => process_file today f a) files af)
             (fold_left (fun a f => process_file_task_only today f a)
                files at_).
Proof.
  revert af at_. induction files as [|f files IH]; intros af at_ H; simpl;
    [done|].
  apply IH. by apply process_file_rel.
Qed.

(** ** Dates: printing and parsing *)

Local Open Scope Z_scope.

Lemma bind_one {A B} (x : A) (f : A -> list B) : ([x] ≫= f) = f x.
Proof. simpl. apply app_nil_r. Qed.

Lemma bind_more {A B} (x : A) (xs : list A) (f : A -> list B) :
  ((x :: xs) ≫= f) = f x ++ (xs ≫= f).
Proof. reflexivity. Qed.

Lemma literal_here c rest : literal c (c :: rest) = [rest].
Proof. unfold literal. by rewrite bool_decide_true. Qed.

Lemma digit_digit_char k : 0 <= k <= 9 -> digit (digit_char k) = Some k.
Proof.
  intros H. assert (Hk : k = 0 \/ k = 1 \/ k = 2 \/ k = 3 \/ k = 4 \/ k = 5 \/ k = 6 \/ k = 7 \/ k = 8 \/ k = 9) by lia.
  repeat (destruct Hk as [->|Hk]; [reflexivity|]). by subst k.
Qed.

Lemma directive_Y_padded y rest :
  0 <= y <= 9999 -> directive_Y (zero_padded 4 y ++ rest) = [(y, rest)].
Proof.
  intros Hy. cbn [zero_padded app]. unfold directive_Y.
  rewrite !digit_digit_char
    by (match goal with
        | |- 0 <= ?a mod 10 <= 9 =>
            pose proof (Z.mod_pos_bound a 10 eq_refl); lia
        end).
  do 2 f_equal. Z.div_mod_to_equations. lia.
Qed.

(** The month, followed by the hyphen: the regex engine's first
    alternative that lets the hyphen match reads the month printed. *)
Lemma month_then_hyphen {A} m rest (k : Z -> list ascii -> list A) :
  1 <= m <= 12 ->
  ('(m', r3) ← directive_m (zero_padded 2 m ++ "-"%char :: rest);
   r4 ← literal "-" r3; k m' r4)
  = k m rest.
Proof.
  intros H. assert (Hm : m = 1 \/ m = 2 \/ m = 3 \/ m = 4 \/ m = 5 \/ m = 6 \/ m = 7 \/ m = 8 \/ m = 9 \/ m = 10 \/ m = 11 \/ m = 12) by lia.
  assert (Hnil : forall v, (k v rest ++ []) ++ [] = k v rest)
    by (intros; by rewrite !app_nil_r).
  repeat (destruct Hm as [->|Hm]; [exact (Hnil _)|]).
  subst m. exact (Hnil _).
Qed.

Lemma day_at_end d :
  1 <= d <= 31 ->
  exists others, directive_d (zero_padded 2 d) = (d, []) :: others.
Proof.
  intros H. assert (Hd : d = 1 \/ d = 2 \/ d = 3 \/ d = 4 \/ d = 5 \/ d = 6 \/ d = 7 \/ d = 8 \/ d = 9 \/ d = 10 \/ d = 11 \/ d = 12 \/ d = 13 \/ d = 14 \/ d = 15 \/ d = 16 \/ d = 17 \/ d = 18 \/ d = 19 \/ d = 20 \/ d = 21 \/ d = 22 \/ d = 23 \/ d = 24 \/ d = 25 \/ d = 26 \/ d = 27 \/ d = 28 \/ d = 29 \/ d = 30 \/ d = 31) by lia.
  repeat (destruct Hd as [->|Hd]; [eexists; vm_compute; reflexivity|]).
  subst d. eexists; vm_compute; reflexivity.
Qed.

Lemma days_in_month_le y m : days_in_month y m <= 31.
Proof.
  unfold days_in_month.
  repeat match goal with |- context [if ?c then _ else _] => destruct c end;
    lia.
Qed.

(** A date that [datetime.date] accepts is read back from its ISO
    form. *)
Lemma strptime_isoformat y m d :
  make_date y m d = Ok (Date y m d) ->
  strptime_ymd (date_isoformat (Date y m d)) = Ok (Date y m d).
Proof.
  intros Hdate. pose proof Hdate as Hok. unfold make_date in Hok.
  destruct (_ && _) eqn:E in Hok; [clear Hok | done].
  repeat (apply andb_true_iff in E as [E ?]).
  repeat match goal with H : (_ <=? _) = true |- _ => apply Z.leb_le in H end.
  pose proof (days_in_month_le y m).
  unfold strptime_ymd, ymd_matches, date_isoformat. cbn [year month day].
  rewrite directive_Y_padded by lia. rewrite bind_one.
  change (py "-" ++ ?x) with ("-"%char :: x).
  rewrite literal_here, bind_one.
  change (py "-" ++ ?x) with ("-"%char :: x).
  rewrite (month_then_hyphen m _
             (fun m' r4 => '(d', r5) ← directive_d r4; [(y, m', d', r5)]))
    by lia.
  destruct (day_at_end d) as [others ->]; [lia|].
  rewrite bind_more. simpl app. exact Hdate.
Qed.

Local Close Scope Z_scope.

(** ** More on the editor: what an edit leaves in place *)

Lemma heading_pattern_nil : heading_pattern [] = None.
Proof. reflexivity. Qed.

Lemma heading_block_no_lf level new_heading new_content :
  no_lf new_heading -> Forall no_lf (heading_block level new_heading new_content).
Proof.
  intros H. unfold heading_block. apply Forall_app. split.
  - constructor; [|constructor]. unfold str_mul.
    apply no_lf_app; [apply no_lf_repeat_star|].
    apply no_lf_app; [apply no_lf_forall; by repeat constructor | done].
  - destruct (truthy (strip new_content)); [|constructor].
    constructor; [apply no_lf_forall; constructor | apply splitlines_no_lf].
Qed.

Lemma heading_block_not_nil level new_heading new_content :
  heading_block level new_heading new_content <> [].
Proof. done. Qed.

(** The lines of the text that [update_heading_in_content] returns. *)
Lemma update_lines content old_heading new_heading new_content level s e :
  find_heading_in_content content old_heading level = Some (s, e) ->
  no_lf new_heading ->
  splitlines (update_heading_in_content content old_heading new_heading
                new_content level)
  = take s (splitlines content)
    ++ heading_block level new_heading new_content
    ++ drop e (splitlines content).
Proof.
  intros Hfind Hlf. unfold update_heading_in_content. rewrite Hfind.
  cbv zeta. rewrite <- app_assoc. apply splitlines_join.
  - pose proof (heading_block_not_nil level new_heading new_content).
    destruct (take s (splitlines content)); [|done].
    by destruct (heading_block level new_heading new_content).
  - apply Forall_app. split; [apply Forall_take, splitlines_no_lf|].
    apply Forall_app. split; [by apply heading_block_no_lf|].
    apply Forall_drop, splitlines_no_lf.
Qed.

Lemma find_heading_bounds content label level s e :
  find_heading_in_content content label level = Some (s, e) ->
  s < e <= length (splitlines content).
Proof.
  intros Hfind.
  destruct (find_heading_some _ _ _ _ _ Hfind)
    as (k & line & text & -> & Hk & _ & _ & _ & He).
  apply lookup_lt_Some in Hk.
  destruct (scan_end _ _ _) as [e'|] eqn:Hend; simpl in He; subst e; [|lia].
  destruct (scan_end_some _ _ _ _ Hend) as (k2 & l2 & n2 & t2 & -> & Hk2 & _).
  apply lookup_lt_Some in Hk2. rewrite length_drop in Hk2. lia.
Qed.

(** The lines of the text that [add_heading_to_content] returns for a
    parent that is found. *)
Lemma add_lines content c p parent_level new_heading new_content new_level s e :
  find_heading_in_content content (c :: p) parent_level = Some (s, e) ->
  no_lf new_heading ->
  splitlines (add_heading_to_content content (Some (c :: p)) parent_level
                new_heading new_content new_level)
  = take e (splitlines content)
    ++ ((if last_line_nonblank (take e (splitlines content))
         then [[]] else [])
        ++ heading_block new_level new_heading new_content)
    ++ drop e (splitlines content).
Proof.
  intros Hfind Hlf. unfold add_heading_to_content. rewrite Hfind.
  cbv zeta.
  pose proof (splitlines_no_lf content) as Hall.
  pose proof (heading_block_no_lf new_level new_heading new_content Hlf) as Hb.
  pose proof (heading_block_not_nil new_level new_heading new_content) as Hne.
  assert (Hnil : no_lf []) by (apply no_lf_forall; constructor).
  destruct (last_line_nonblank (take e (splitlines content))).
  - rewrite <- !app_assoc. apply splitlines_join.
    + destruct (take e (splitlines content)); done.
    + rewrite !Forall_app, Forall_cons.
      repeat split; auto using Forall_take, Forall_drop.
  - rewrite <- !app_assoc. apply splitlines_join.
    + destruct (take e (splitlines content)); [|done].
      by destruct (heading_block new_level new_heading new_content).
    + rewrite !Forall_app.
      repeat split; auto using Forall_take, Forall_drop.
Qed.

(** The start of a located heading depends only on the lines up to it. *)
Lemma scan_heading_start ts th total' i rest rest' k line text :
  rest !! k = Some line ->
  heading_pattern line = Some (ts, text) -> strip text = th ->
  (forall k' line' text',
     k' < k -> rest !! k' = Some line' ->
     heading_pattern line' = Some (ts, text') -> strip text' <> th) ->
  take (S k) rest' = take (S k) rest ->
  exists e', scan_heading ts th total' i rest' = Some (i + k, e').
Proof.
  intros Hk Hp Hs Hbefore Htake.
  assert (Hrest' : rest' = take k rest ++ line :: drop (S k) rest').
  { rewrite <- (take_drop (S k) rest') at 1. rewrite Htake.
    rewrite (take_S_r _ _ _ Hk), <- app_assoc. done. }
  rewrite Hrest'. rewrite scan_heading_skip.
  - rewrite (scan_heading_here _ _ _ _ _ _ _ Hp Hs).
    apply lookup_lt_Some in Hk. rewrite length_take, Nat.min_l by lia. eauto.
  - intros l t Hin Hl. apply list_elem_of_lookup in Hin as [k' Hk'].
    pose proof (lookup_lt_Some _ _ _ Hk') as Hlt.
    rewrite length_take in Hlt. rewrite lookup_take_lt in Hk' by lia.
    eapply Hbefore; [|done..]. lia.
Qed.

Lemma scan_end_skip stars j pre rest :
  (forall l st tx, l ∈ pre -> heading_pattern l = Some (st, tx) ->
                   length stars < length st) ->
  scan_end stars j (pre ++ rest) = scan_end stars (j + length pre) rest.
Proof.
  revert j. induction pre as [|l pre IH]; intros j H; simpl.
  - by rewrite Nat.add_0_r.
  - assert (Hrec : scan_end stars (S j) (pre ++ rest)
                   = scan_end stars (j + S (length pre)) rest).
    { rewrite IH; [f_equal; lia|]. intros ? ? ? ?. apply H. by right. }
    destruct (heading_pattern l) as [[st tx]|] eqn:Hl; [|done].
    pose proof (H l st tx ltac:(by left) Hl) as Hlt.
    apply Nat.leb_gt in Hlt. by rewrite Hlt.
Qed.

(** Blank lines at both ends. *)
Lemma pop_blank_front_head xs :
  pop_blank_front xs = [] \/
  exists x r, pop_blank_front xs = x :: r /\ nonblank x.
Proof.
  induction xs as [|x r IH]; simpl; [by left|].
  destruct (truthy (strip x)) eqn:E; [right; eauto | done].
Qed.

Lemma pop_blank_back_head x r :
  nonblank x -> exists r', pop_blank_back (x :: r) = x :: r'.
Proof.
  intros H. simpl. destruct (pop_blank_back r); [|eauto].
  unfold nonblank in H. rewrite H. eauto.
Qed.

Lemma pop_blank_back_last xs :
  pop_blank_back xs = [] \/
  exists l, last (pop_blank_back xs) = Some l /\ nonblank l.
Proof.
  induction xs as [|x r IH]; simpl; [by left|].
  destruct (pop_blank_back r) as [|y r'] eqn:E.
  - destruct (truthy (strip x)) eqn:Ex; [right | by left].
    exists x. done.
  - right. destruct IH as [|(l & Hl & Hn)]; [done|].
    exists l. split; [|done]. by rewrite last_cons, Hl.
Qed.

Lemma pop_blank_front_id x r : nonblank x -> pop_blank_front (x :: r) = x :: r.
Proof. intros H. simpl. unfold nonblank in H. by rewrite H. Qed.

Lemma pop_blank_back_id xs l :
  last xs = Some l -> nonblank l -> pop_blank_back xs = xs.
Proof.
  induction xs as [|x r IH]; intros Hl Hn; [done|].
  simpl. destruct r as [|y r'].
  - injection Hl as ->. simpl. unfold nonblank in Hn. by rewrite Hn.
  - rewrite last_cons in Hl. destruct (last (y :: r')) eqn:E;
      [|by apply last_None in E].
    injection Hl as ->. rewrite (IH eq_refl Hn). done.
Qed.

Lemma pop_blank_forall (P : list ascii -> Prop) xs :
  Forall P xs -> Forall P (pop_blank_back (pop_blank_front xs)).
Proof.
  intros H.
  assert (Hf : Forall P (pop_blank_front xs)).
  { induction H as [|x r Hx Hr IH]; simpl; [constructor|].
    destruct (truthy (strip x)); [by constructor | done]. }
  clear H. induction Hf as [|x r Hx Hr IH]; simpl; [constructor|].
  destruct (pop_blank_back r); [destruct (truthy (strip x))|];
    auto using Forall_nil, Forall_cons_2.
Qed.

Lemma strip_truthy_exists s :
  truthy (strip s) = true <-> Exists (fun c => isspace c = false) s.
Proof.
  unfold strip. split.
  - intros H. induction s as [|c s IH]; [done|].
    simpl in H. destruct (isspace c) eqn:E; [right; auto | by left].
  - intros H. induction H as [c s Hc | c s Hs IH]; simpl.
    + rewrite Hc. destruct (rstrip_head c s Hc) as [r' ->]. done.
    + destruct (isspace c) eqn:E; [done|].
      destruct (rstrip_head c s E) as [r' ->]. done.
Qed.

Lemma splitlines_head_chars s l rest :
  splitlines s = l :: rest -> forall c, c ∈ l -> c ∈ s.
Proof.
  intros H c Hc. rewrite <- (join_splitlines s), H.
  destruct rest; simpl; [done|]. apply elem_of_app. by left.
Qed.

Lemma scan_end_boundary ts k lines e j :
  e = default (length lines) (scan_end ts (S k) (drop (S k) lines)) ->
  default (j + length (drop e lines)) (scan_end ts j (drop e lines)) = j.
Proof.
  intros He.
  destruct (scan_end ts (S k) (drop (S k) lines)) as [e'|] eqn:Hend;
    simpl in He; subst e.
  - destruct (scan_end_some _ _ _ _ Hend)
      as (k2 & l2 & n2 & t2 & -> & Hk2 & Hp2 & Hle & _).
    rewrite lookup_drop in Hk2.
    rewrite (drop_S _ _ _ Hk2). simpl. rewrite Hp2.
    apply Nat.leb_le in Hle. by rewrite Hle.
  - rewrite drop_all. simpl. lia.
Qed.

(** Where the heading is found again after it was rewritten with a body
    that holds no heading of its level or above. *)
Lemma update_then_locate_body content label body level s e :
  label <> [] ->
  find_heading_in_content content label level = Some (s, e) ->
  Forall (shallower_free level) (splitlines body) ->
  find_heading_in_content
    (update_heading_in_content content label label body level) label level
  = Some (s, s + length (heading_block level label body)).
Proof.
  intros Hne Hfind Hbody.
  destruct (find_heading_some _ _ _ _ _ Hfind)
    as (k & line & text & -> & Hk & Hp & Hth & Hbefore & He).
  assert (Hline : no_lf line).
  { pose proof (splitlines_no_lf content) as Hall.
    rewrite Forall_forall in Hall. apply Hall.
    by eapply list_elem_of_lookup_2. }
  assert (Hlf : no_lf label).
  { rewrite <- Hth. by eapply pattern_text_no_lf. }
  unfold find_heading_in_content at 1.
  rewrite (update_lines _ _ _ _ _ _ _ Hfind Hlf).
  set (lines := splitlines content) in *.
  set (ts := str_mul star level) in *.
  assert (Hklt : k < length lines) by (by apply lookup_lt_Some in Hk).
  assert (Hlabel : strip label = label) by (rewrite <- Hth; apply strip_idem).
  assert (Hn : 0 < Z.to_nat level).
  { pose proof (pattern_stars_nonempty _ _ _ Hp) as Hs.
    unfold ts, str_mul in Hs. destruct (Z.to_nat level); [done | lia]. }
  destruct (heading_line_matches _ _ Hn Hne Hlabel) as (text' & Hp' & Hs').
  fold (str_mul star level) in Hp'. fold ts in Hp'.
  rewrite scan_heading_skip.
  2:{ intros l t Hin Hl. apply list_elem_of_lookup in Hin as [k' Hk'].
      pose proof (lookup_lt_Some _ _ _ Hk') as Hlt.
      rewrite length_take in Hlt. rewrite lookup_take_lt in Hk' by lia.
      eapply Hbefore; [|done..]. lia. }
  unfold heading_block. cbv zeta. fold ts.
  set (tail := if truthy (strip body) then [] :: splitlines body else []).
  change (([ts ++ py " " ++ label] ++ tail) ++ drop e lines)
    with ((ts ++ py " " ++ label) :: (tail ++ drop e lines)).
  rewrite (scan_heading_here _ _ _ _ _ _ _ Hp' Hs').
  rewrite length_take, Nat.min_l by lia. simpl Nat.add at 1 2.
  f_equal. f_equal.
  rewrite scan_end_skip.
  2:{ intros l st tx Hin Hl. unfold tail in Hin.
      destruct (truthy (strip body)); [|by apply elem_of_nil in Hin].
      apply elem_of_cons in Hin as [-> | Hin]; [by rewrite heading_pattern_nil in Hl|].
      rewrite Forall_forall in Hbody. unfold ts, str_mul.
      rewrite repeat_length. by eapply Hbody. }
  rewrite length_app, length_take, Nat.min_l by lia.
  replace (k + length ((ts ++ py " " ++ label) :: tail ++ drop e lines))
    with (S k + length tail + length (drop e lines))
    by (simpl; rewrite length_app; lia).
  rewrite (scan_end_boundary ts k lines e _ He).
  rewrite length_app. simpl. lia.
Qed.

(** ** More on the agenda extractors *)

(** What every visit keeps, every walk keeps. *)
Lemma walk_nodes_preserves today name ft sections flag
    (P : walk_state -> Prop) :
  (forall node st, P st -> P (visit today name ft sections flag node st)) ->
  forall node st, P st -> P (walk_nodes today name ft sections flag node st).
Proof.
  intros Hvisit node. induction node as [h t tg p cs IH] using OrgNode_tree_ind.
  intros st Hst. rewrite walk_nodes_fold.
  set (st0 := if truthy (node_heading (Node h t tg p cs))
              then visit today name ft sections flag (Node h t tg p cs) st
              else st).
  assert (H0 : P st0) by (unfold st0; destruct (truthy _); auto).
  clearbody st0. simpl node_children. revert st0 H0.
  induction IH as [|c cs Hc Hcs IHcs]; intros st0 H0; simpl; [done|].
  apply IHcs. by apply Hc.
Qed.

Lemma process_file_preserves today f (P : walk_state -> Prop) a :
  (forall ft sections flag node st,
     P st -> P (visit today (path_name f) ft sections flag node st)) ->
  P (∅, a) -> exists seen, P (seen, process_file today f a).
Proof.
  intros Hvisit H0. unfold process_file.
  destruct (read_text f) as [content|]; [|eauto].
  destruct (orgparse_load f) as [roots|]; [|eauto].
  destruct (file_title content (path_stem (path_name f))) as [ft|]; [|eauto].
  cbv zeta.
  set (step := fun st child => walk_nodes today (path_name f) ft _ _ child st).
  assert (H : P (fold_left step roots (∅, a))).
  { generalize (∅ : gset str, a) H0. induction roots as [|r roots IH];
      intros st Hst; simpl; [done|].
    apply IH. unfold step.
    apply (walk_nodes_preserves _ _ _ _ _ P); [|done].
    intros. by apply Hvisit. }
  destruct (fold_left step roots (∅, a)) as [seen a'] eqn:E. eauto.
Qed.

Lemma process_file_unreadable today f a :
  unreadable f ->
  process_file today f a = a /\ process_file_task_only today f a = a.
Proof.
  unfold process_file, process_file_task_only.
  intros [[e ->] | [e ->]]; [done|].
  by destruct (read_text f).
Qed.

Lemma is_today_true d today : is_today d today = true -> d = Some today.
Proof.
  destruct d as [x|]; simpl; [|done].
  intros H. apply bool_decide_eq_true in H. by subst.
Qed.

Lemma is_open_some o k :
  is_open o = Some k -> o = Some k /\ k ∈ open_keywords.
Proof.
  destruct o as [k'|]; unfold is_open; [|done].
  destruct (opt_truthy (Some k') && bool_decide (k' ∈ open_keywords)) eqn:E;
    [|done].
  intros [= ->]. apply andb_true_iff in E as [_ E].
  apply bool_decide_eq_true in E. done.
Qed.

Lemma once_preserves (P : AgendaItems -> Prop) item_id append st :
  (P st.2 -> P (append st.2)) -> P st.2 -> P (once item_id append st).2.
Proof. intros Happ H. unfold once. case_bool_decide; simpl; auto. Qed.

Lemma add_schedule_ok today i a :
  scheduled i = Some today -> agenda_ok today a ->
  agenda_ok today (add_schedule i a).
Proof.
  intros Hi (Hs & Hd & Hk & Ht). split; [|done].
  simpl. apply Forall_app. split; [done | by constructor].
Qed.

Lemma add_deadline_ok today i a :
  deadline i = Some today -> agenda_ok today a ->
  agenda_ok today (add_deadline i a).
Proof.
  intros Hi (Hs & Hd & Hk & Ht). split; [done|]. split; [|done].
  simpl. apply Forall_app. split; [done | by constructor].
Qed.

Lemma add_todo_ok today k i a :
  todo_keyword i = Some k -> agenda_ok today a ->
  agenda_ok today (add_todo k i a).
Proof.
  intros Hi (Hs & Hd & Hk & Ht). split; [done|]. split; [done|].
  simpl. split.
  - intros k'. rewrite <- Hk. destruct (decide (k = k')) as [->|Hne].
    + rewrite lookup_alter_eq. by rewrite fmap_is_Some.
    + by rewrite lookup_alter_ne.
  - intros k' l. destruct (decide (k = k')) as [->|Hne].
    + rewrite lookup_alter_eq. destruct (todos a !! k') as [l0|] eqn:E; [|done].
      intros [= <-]. apply Forall_app. split; [by eapply Ht | by constructor].
    + rewrite lookup_alter_ne by done. apply Ht.
Qed.

Lemma item_data_file_name name ft sections node flag :
  file_name (item_data name ft sections node flag) = name.
Proof.
  unfold item_data. destruct (status_and_title _ _).
  by destruct (parse_timestamps_in_content _ _).
Qed.

Lemma visit_ok today name ft sections flag node st :
  agenda_ok today st.2 ->
  agenda_ok today (visit today name ft sections flag node st).2.
Proof.
  intros H. unfold visit. cbv zeta.
  set (i := item_data name ft sections node flag).
  destruct (is_today (scheduled i) today) eqn:E1;
    destruct (is_today (deadline i) today) eqn:E2;
    destruct (is_open (todo_keyword i)) as [k|] eqn:E3;
    repeat match goal with
      | |- agenda_ok _ (once _ (add_schedule _) _).2 =>
          apply (once_preserves (agenda_ok today));
          [apply add_schedule_ok; by apply is_today_true|]
      | |- agenda_ok _ (once _ (add_deadline _) _).2 =>
          apply (once_preserves (agenda_ok today));
          [apply add_deadline_ok; by apply is_today_true|]
      | |- agenda_ok _ (once _ (add_todo _ _) _).2 =>
          apply (once_preserves (agenda_ok today));
          [apply add_todo_ok; by apply is_open_some in E3 as [E3 _]|]
      end; done.
Qed.

Lemma empty_agenda_ok today : agenda_ok today empty_agenda.
Proof.
  split; [constructor|]. split; [constructor|]. simpl. split.
  - intros k. unfold open_keywords.
    rewrite !lookup_insert_is_Some', lookup_empty.
    rewrite !elem_of_cons, elem_of_nil.
    split; intros H; repeat destruct H as [H|H]; subst; auto 10;
      by destruct H.
  - intros k l. rewrite !lookup_insert_Some, lookup_empty.
    intros [[_ <-]|[_ [[_ <-]|[_ [[_ <-]|[_ [[_ <-]|[_ ?]]]]]]]];
      done || constructor.
Qed.

Lemma parse_ok today files a :
  agenda_ok today a ->
  agenda_ok today (fold_left (fun a f => process_file today f a) files a).
Proof.
  revert a. induction files as [|f files IH]; intros a Ha; simpl; [done|].
  apply IH.
  destruct (process_file_preserves today f
              (fun st => agenda_ok today st.2) a) as [seen H]; [|done..].
  intros. by apply visit_ok.
Qed.

Lemma retag_fields i :
  scheduled (retag i) = scheduled i /\ deadline (retag i) = deadline i /\
  todo_keyword (retag i) = todo_keyword i /\ file_name (retag i) = file_name i /\
  title (retag i) = title i /\
  is_task_file (retag i) = has_task_filetag (file_name i).
Proof. done. Qed.

Lemma agenda_rel_ok today full task :
  agenda_rel full task -> agenda_ok today full -> agenda_ok today task.
Proof.
  intros (Hs & Hd & Ht) (Fs & Fd & Fk & Ft).
  split; [|split; [|split]].
  - rewrite Hs. rewrite Forall_map. done.
  - rewrite Hd. rewrite Forall_map. done.
  - intros k. rewrite Ht, lookup_fmap, fmap_is_Some. apply Fk.
  - intros k l. rewrite Ht, lookup_fmap.
    destruct (todos full !! k) as [l0|] eqn:E; [|done].
    simpl. intros [= <-]. unfold restrict_to_task_files. rewrite Forall_map.
    pose proof (Ft k l0 E) as Hl0. rewrite Forall_forall in Hl0.
    apply Forall_forall. intros i Hi.
    apply list_elem_of_In in Hi. apply List.filter_In in Hi as [Hi _].
    apply (Hl0 i). by apply list_elem_of_In.
Qed.

Lemma split_no_occurrence c sep s :
  contains (c :: sep) s = false -> split (c :: sep) s = [s].
Proof.
  unfold split. induction s as [|a s IH]; [done|].
  intros H. change (contains (c :: sep) (a :: s))
    with (startswith (c :: sep) (a :: s) || contains (c :: sep) s) in H.
  apply orb_false_iff in H as [Hs Hc].
  change (split_go (c :: sep) 0 (a :: s))
    with (if startswith (c :: sep) (a :: s)
          then [] :: split_go (c :: sep) (length (c :: sep) - 1) s
          else cons_head a (split_go (c :: sep) 0 s)).
  by rewrite Hs, (IH Hc).
Qed.

(** The characters of a printed date. *)
Lemma digit_char_plain k :
  (0 <= k <= 9)%Z ->
  isspace (digit_char k) = false /\ not_gt (digit_char k) = true.
Proof.
  intros H.
  assert (Hk : (k = 0 \/ k = 1 \/ k = 2 \/ k = 3 \/ k = 4 \/ k = 5 \/ k = 6
                \/ k = 7 \/ k = 8 \/ k = 9)%Z) by lia.
  repeat (destruct Hk as [->|Hk]; [by split|]). by subst k.
Qed.

Lemma zero_padded_plain w n :
  Forall (fun c => isspace c = false /\ not_gt c = true) (zero_padded w n).
Proof.
  revert n. induction w as [|w IH]; intros n; simpl; [constructor|].
  apply Forall_app. split; [apply IH|]. constructor; [|constructor].
  apply digit_char_plain.
  pose proof (Z.mod_pos_bound n 10 eq_refl). lia.
Qed.

Lemma date_isoformat_plain d :
  Forall (fun c => isspace c = false /\ not_gt c = true) (date_isoformat d).
Proof.
  unfold date_isoformat. rewrite !Forall_app.
  repeat split; try apply zero_padded_plain; by repeat constructor.
Qed.

Lemma date_isoformat_not_nil d : date_isoformat d <> [].
Proof.
  unfold date_isoformat. destruct (zero_padded 4 (year d)); done.
Qed.

(** A prefix without the keyword's first character holds no match. *)
Lemma stamp_search_skip c kw pre s :
  c ∉ pre -> stamp_search (c :: kw) (pre ++ s) = stamp_search (c :: kw) s.
Proof.
  induction pre as [|a pre IH]; intros H; [done|].
  apply not_elem_of_cons in H as [Hc Hpre].
  change (stamp_search (c :: kw) ((a :: pre) ++ s))
    with (match stamp_here (c :: kw) (a :: pre ++ s) with
          | Some v => Some v
          | None => stamp_search (c :: kw) (pre ++ s)
          end).
  assert (Hs : startswith (c :: kw) (a :: pre ++ s) = false).
  { apply not_true_is_false. intros Hs.
    apply startswith_spec in Hs as [rest Hs]. simpl in Hs. congruence. }
  unfold stamp_here. rewrite Hs. by apply IH.
Qed.

(** A printed date between the brackets, first on its own or followed by
    white space and more, is read back. *)
Lemma stamp_isoformat c kw pre ws y m d more post :
  make_date y m d = Ok (Date y m d) ->
  c ∉ pre ->
  Forall (fun c => isspace c = true) ws ->
  (more = [] \/ exists a r, more = a :: r /\ isspace a = true) ->
  Forall (fun c => not_gt c = true) more ->
  stamp (c :: kw)
    (pre ++ (c :: kw) ++ ws
         ++ "<"%char :: (date_isoformat (Date y m d) ++ more)
         ++ ">"%char :: post)
  = Some (Date y m d).
Proof.
  intros Hd Hc Hws Hmore Hgt. unfold stamp.
  rewrite (stamp_search_skip _ _ _ _ Hc).
  pose proof (date_isoformat_plain (Date y m d)) as Hplain.
  pose proof (date_isoformat_not_nil (Date y m d)) as Hnn.
  set (iso := date_isoformat (Date y m d)) in *.
  assert (Hhere : stamp_here (c :: kw)
                    ((c :: kw) ++ ws ++ "<"%char :: (iso ++ more)
                               ++ ">"%char :: post)
                  = Some (iso ++ more)).
  { apply stamp_here_complete; [done | by destruct iso |].
    apply Forall_app. split; [|done].
    eapply Forall_impl; [exact Hplain|]. by intros ? [_ ?]. }
  assert (Hsearch : stamp_search (c :: kw)
                      ((c :: kw) ++ ws ++ "<"%char :: (iso ++ more)
                                 ++ ">"%char :: post)
                    = Some (iso ++ more)).
  { apply (stamp_search_complete _ _ 0); [exact Hhere | intros j Hj; lia]. }
  rewrite Hsearch. unfold stamp_date.
  destruct (split_ws_first_token [] iso more) as [rest Hsplit];
    [constructor | done | | done |].
  { eapply Forall_impl; [exact Hplain|]. by intros ? [? _]. }
  change ([] ++ iso ++ more) with (iso ++ more) in Hsplit.
  rewrite Hsplit. unfold index, bind. cbn [lookup list_lookup].
  unfold iso. by rewrite (strptime_isoformat _ _ _ Hd).
Qed.

(** *** No item is listed twice *)

Section Bucket.

Variables (today : date) (get : AgendaItems -> list Item).

Lemma once_step name names id_of item_id append i st :
  step_ok get id_of item_id append i ->
  file_name i = name ->
  bucket_inv name names get id_of st ->
  bucket_inv name names get id_of (once item_id append st).
Proof.
  intros Hstep Hname (Hseen & Hnd & Hfrom). unfold once.
  case_bool_decide as Hin; [done|].
  destruct st as [seen a]. simpl in *.
  destruct (Hstep a) as [Heq | [Heq ->]]; unfold bucket_inv; simpl;
    rewrite Heq.
  - split; [|done]. intros j Hj Hjn. apply elem_of_union_r. by apply Hseen.
  - split; [|split].
    + intros j Hj Hjn. apply elem_of_app in Hj as [Hj|Hj].
      * apply elem_of_union_r. by apply Hseen.
      * apply list_elem_of_singleton in Hj as ->.
        apply elem_of_union_l. by apply elem_of_singleton.
    + rewrite map_app. simpl. apply NoDup_app. split; [done|].
      split; [|apply NoDup_singleton].
      intros key Hkey Hkey'. apply list_elem_of_singleton in Hkey' as ->.
      apply list_elem_of_fmap in Hkey as (j & Hj & Hjin).
      unfold item_key in Hj. injection Hj as Hf Ht.
      apply Hin. rewrite Ht. apply Hseen; [done | congruence].
    + intros j Hj. apply elem_of_app in Hj as [Hj|Hj]; [by apply Hfrom|].
      apply list_elem_of_singleton in Hj as ->. rewrite Hname. by left.
Qed.

Lemma visit_bucket name names id_of ft sections flag node st :
  (forall i, step_ok get id_of (schedule_id name (title i))
               (add_schedule i) i) ->
  (forall i, step_ok get id_of (deadline_id name (title i))
               (add_deadline i) i) ->
  (forall k i, step_ok get id_of (todo_id name k (title i))
                 (add_todo k i) i) ->
  bucket_inv name names get id_of st ->
  bucket_inv name names get id_of
    (visit today name ft sections flag node st).
Proof.
  intros Hs Hd Ht H. unfold visit. cbv zeta.
  pose proof (item_data_file_name name ft sections node flag) as Hname.
  set (i := item_data name ft sections node flag) in *.
  destruct (is_today (scheduled i) today);
    destruct (is_today (deadline i) today);
    destruct (is_open (todo_keyword i)) as [k|];
    repeat (apply (once_step _ _ _ _ _ i);
            [solve [apply Hs | apply Hd | apply Ht] | exact Hname |]);
    done.
Qed.

Lemma process_file_bucket names id_of f a :
  (forall i, step_ok get id_of (schedule_id (path_name f) (title i))
               (add_schedule i) i) ->
  (forall i, step_ok get id_of (deadline_id (path_name f) (title i))
               (add_deadline i) i) ->
  (forall k i, step_ok get id_of (todo_id (path_name f) k (title i))
                 (add_todo k i) i) ->
  path_name f ∉ names ->
  bucket_out names get a ->
  bucket_out (path_name f :: names) get (process_file today f a).
Proof.
  intros Hs Hd Ht Hfresh [Hnd Hfrom].
  destruct (process_file_preserves today f
              (bucket_inv (path_name f) names get id_of) a)
    as [seen (_ & Hnd' & Hfrom')].
  - intros. by apply visit_bucket.
  - split; [|split]; simpl; [|done|].
    + intros i Hi Hn. exfalso. apply Hfresh. rewrite <- Hn. by apply Hfrom.
    + intros i Hi. right. by apply Hfrom.
  - done.
Qed.

Lemma parse_bucket (id_of : str -> str -> str) files names a :
  (forall name i, step_ok get (id_of name) (schedule_id name (title i))
                    (add_schedule i) i) ->
  (forall name i, step_ok get (id_of name) (deadline_id name (title i))
                    (add_deadline i) i) ->
  (forall name k i, step_ok get (id_of name) (todo_id name k (title i))
                      (add_todo k i) i) ->
  NoDup (map path_name files) ->
  (forall f, f ∈ files -> path_name f ∉ names) ->
  bucket_out names get a ->
  NoDup (map item_key
           (get (fold_left (fun a f => process_file today f a) files a))).
Proof.
  intros Hs Hd Ht. revert names a.
  induction files as [|f files IH]; intros names a Hnd Hfresh Hout;
    simpl; [by destruct Hout|].
  apply NoDup_cons in Hnd as [Hf Hnd].
  apply (IH (path_name f :: names)); [done | |].
  - intros g Hg Hin. apply elem_of_cons in Hin as [Hin|Hin].
    + apply Hf. rewrite <- Hin. apply list_elem_of_fmap. eauto.
    + apply (Hfresh g); [by right | done].
  - apply (process_file_bucket names (id_of (path_name f))); auto.
    apply Hfresh. by left.
Qed.

End Bucket.

Lemma status_list_empty k : status_list k empty_agenda = [].
Proof.
  unfold status_list. destruct (todos empty_agenda !! k) as [l|] eqn:E;
    [|done].
  simpl in E. rewrite !lookup_insert_Some, lookup_empty in E.
  by destruct E as [[_ <-]|[_ [[_ <-]|[_ [[_ <-]|[_ [[_ <-]|[_ ?]]]]]]]].
Qed.

Lemma status_list_add_todo k' k i a :
  status_list k' (add_todo k i a) = status_list k' a \/
  (status_list k' (add_todo k i a) = status_list k' a ++ [i] /\ k = k').
Proof.
  unfold status_list, add_todo. simpl.
  destruct (decide (k = k')) as [->|Hne].
  - rewrite lookup_alter_eq. destruct (todos a !! k'); simpl; auto.
  - rewrite lookup_alter_ne by done. auto.
Qed.

Lemma parse_listed_once files today :
  NoDup (map path_name files) ->
  listed_once (parse_org_agenda_items files today).
Proof.
  intros Hnd. unfold parse_org_agenda_items. split; [|split].
  - apply (parse_bucket today schedules_today schedule_id files []);
      try done.
    + intros name i a. right. done.
    + intros name i a. by left.
    + intros name k i a. by left.
    + intros f _ H. by apply elem_of_nil in H.
    + split; [constructor|]. intros i H. by apply elem_of_nil in H.
  - apply (parse_bucket today deadlines_today deadline_id files []);
      try done.
    + intros name i a. by left.
    + intros name i a. right. done.
    + intros name k i a. by left.
    + intros f _ H. by apply elem_of_nil in H.
    + split; [constructor|]. intros i H. by apply elem_of_nil in H.
  - intros k'.
    apply (parse_bucket today (status_list k')
             (fun name => todo_id name k') files []); try done.
    + intros name i a. by left.
    + intros name i a. by left.
    + intros name k i a.
      destruct (status_list_add_todo k' k i a) as [H|[H ->]]; auto.
    + intros f _ H. by apply elem_of_nil in H.
    + unfold bucket_out. rewrite status_list_empty. split; [constructor|].
      intros i H. by apply elem_of_nil in H.
Qed.

Lemma NoDup_map_filter {A B} (f : A -> B) (p : A -> bool) l :
  NoDup (map f l) -> NoDup (map f (List.filter p l)).
Proof.
  induction l as [|x l IH]; simpl; [done|].
  intros H. apply NoDup_cons in H as [Hx Hl].
  destruct (p x); simpl; [|auto].
  apply NoDup_cons. split; [|auto].
  intros Hin. apply Hx.
  apply list_elem_of_fmap in Hin as (y & -> & Hy).
  apply list_elem_of_fmap. exists y. split; [done|].
  apply list_elem_of_In in Hy. apply List.filter_In in Hy as [Hy _].
  by apply list_elem_of_In.
Qed.

Lemma map_item_key_retag l : map item_key (map retag l) = map item_key l.
Proof. rewrite map_map. by apply map_ext. Qed.

Lemma agenda_rel_listed_once full task :
  agenda_rel full task -> listed_once full -> listed_once task.
Proof.
  intros (Hs & Hd & Ht) (Ns & Nd & Nt). split; [|split].
  - by rewrite Hs, map_item_key_retag.
  - by rewrite Hd, map_item_key_retag.
  - intros k. specialize (Nt k). unfold status_list in *.
    rewrite Ht, lookup_fmap. destruct (todos full !! k) as [l|]; simpl;
      [|constructor].
    unfold restrict_to_task_files. rewrite map_item_key_retag.
    by apply NoDup_map_filter.
Qed.

(** *** The status keyword in front of a heading *)

Lemma status_token_first ks1 k ks2 c ws rest :
  Forall (fun k' => startswith k' (k ++ c :: ws ++ rest) = false) ks1 ->
  isspace c = true ->
  status_token (ks1 ++ k :: ks2) (k ++ c :: ws ++ rest)
  = Some (k, drop_while isspace (c :: ws ++ rest)).
Proof.
  intros Hks Hc. induction Hks as [|k' ks1 Hk' _ IH]; simpl.
  - rewrite startswith_app, drop_app_length. by rewrite Hc.
  - by rewrite Hk'.
Qed.

(** ** More on the scheduler *)

Section MoreTransportFacts.

Context {net : Type}.
Variable send_message : net -> str -> str -> res unit * net.

Lemma send_loop_all_ok n subs msg :
  (forall n' s, s ∈ subs -> exists n'', send_message n' s msg = (Ok tt, n'')) ->
  (send_loop send_message n subs msg).2 = subs.
Proof.
  revert n. induction subs as [|s subs IH]; intros n H; simpl; [done|].
  destruct (H n s ltac:(by left)) as [n1 ->].
  specialize (IH n1 ltac:(intros; apply H; by right)).
  destruct (send_loop send_message n1 subs msg) as [[r n2] tried].
  simpl in *. by f_equal.
Qed.

Lemma do_call_message c bot n b :
  b ∈ (do_call send_message c bot n).2 -> call_message c = Some (message b).
Proof.
  assert (Honce : forall key msg,
            b ∈ (notify_once send_message key msg bot n).2 -> message b = msg).
  { intros key msg. unfold notify_once, send_notification_to_subscribers.
    case_bool_decide; [by intros ?%elem_of_nil|].
    destruct (send_loop send_message n (subscribers bot) msg)
      as [[r n'] tried].
    simpl. by intros ->%list_elem_of_singleton. }
  destruct c as [item t now | item t now]; simpl;
    unfold check_schedule_notifications, check_deadline_notifications.
  - destruct (schedule_bucket _) as [[suffix lead]|];
      [|by intros ?%elem_of_nil].
    intros Hb. by rewrite (Honce _ _ Hb).
  - destruct (deadline_bucket _) as [[suffix lead]|];
      [|by intros ?%elem_of_nil].
    intros Hb. by rewrite (Honce _ _ Hb).
Qed.

Lemma do_calls_message cs bot n b :
  b ∈ (do_calls send_message cs bot n).2 ->
  exists c, c ∈ cs /\ call_message c = Some (message b).
Proof.
  revert bot n. induction cs as [|c cs IH]; intros bot n; simpl.
  - by intros ?%elem_of_nil.
  - pose proof (do_call_message c bot n b) as Hc.
    destruct (do_call send_message c bot n) as [[b1 n1] bs1].
    specialize (IH b1 n1).
    destruct (do_calls send_message cs b1 n1) as [[b2 n2] bs2].
    simpl in *. intros [Hin|Hin]%elem_of_app.
    + exists c. split; [by left | by apply Hc].
    + destruct (IH Hin) as (c0 & Hc0 & Hm). exists c0. split; [by right|done].
Qed.

End MoreTransportFacts.

Section CommandFacts.

Local Open Scope Z_scope.

(** The hour, followed by the colon: the first alternative that lets the
    colon match reads the hour printed. *)
Lemma hour_then_colon {A} h rest (k : Z -> list ascii -> list A) :
  0 <= h <= 23 ->
  ('(h', r1) ← directive_H (zero_padded 2 h ++ ":"%char :: rest);
   r2 ← literal ":" r1; k h' r2)
  = k h rest.
Proof.
  intros H.
  assert (Hh : h = 0 \/ h = 1 \/ h = 2 \/ h = 3 \/ h = 4 \/ h = 5 \/ h = 6
               \/ h = 7 \/ h = 8 \/ h = 9 \/ h = 10 \/ h = 11 \/ h = 12
               \/ h = 13 \/ h = 14 \/ h = 15 \/ h = 16 \/ h = 17 \/ h = 18
               \/ h = 19 \/ h = 20 \/ h = 21 \/ h = 22 \/ h = 23) by lia.
  assert (Hnil : forall v, (k v rest ++ []) ++ [] = k v rest)
    by (intros; by rewrite !app_nil_r).
  repeat (destruct Hh as [->|Hh]; [exact (Hnil _)|]).
  subst h. exact (Hnil _).
Qed.

Lemma minute_at_end m :
  0 <= m <= 59 ->
  exists others, directive_M (zero_padded 2 m) = (m, []) :: others.
Proof.
  intros H.
  assert (Hm : exists a b, m = 10 * a + b /\ 0 <= a <= 5 /\ 0 <= b <= 9).
  { exists (m / 10), (m mod 10). Z.div_mod_to_equations. lia. }
  destruct Hm as (a & b & -> & Ha & Hb).
  assert (Ha' : a = 0 \/ a = 1 \/ a = 2 \/ a = 3 \/ a = 4 \/ a = 5) by lia.
  assert (Hb' : b = 0 \/ b = 1 \/ b = 2 \/ b = 3 \/ b = 4 \/ b = 5 \/ b = 6
                \/ b = 7 \/ b = 8 \/ b = 9) by lia.
  clear Ha Hb H.
  repeat (destruct Ha' as [->|Ha']);
    repeat (destruct Hb' as [->|Hb']);
    subst; eexists; vm_compute; reflexivity.
Qed.

(** A time of day printed as [HH:MM] is read back, without its seconds. *)
Lemma strptime_strftime_hm t :
  0 <= hour t <= 23 -> 0 <= minute t <= 59 ->
  strptime_hm (strftime_hm t) = Ok (Time (hour t) (minute t) 0 0).
Proof.
  intros Hh Hm. unfold strptime_hm, hm_matches, strftime_hm.
  change (zero_padded 2 (hour t) ++ py ":" ++ zero_padded 2 (minute t))
    with (zero_padded 2 (hour t) ++ ":"%char :: zero_padded 2 (minute t)).
  rewrite (hour_then_colon (hour t) (zero_padded 2 (minute t))
             (fun h r2 => '(m, r3) ← directive_M r2; [(h, m, r3)]) Hh).
  destruct (minute_at_end _ Hm) as [others ->]. done.
Qed.

Lemma two_digits_range lo1 hi1 lo2 hi2 s v r :
  (v, r) ∈ two_digits lo1 hi1 lo2 hi2 s ->
  10 * lo1 + lo2 <= v <= 10 * hi1 + hi2.
Proof.
  unfold two_digits. destruct s as [|a [|b s]];
    try (intros H; by apply elem_of_nil in H).
  unfold digit_in. destruct (digit a) as [x|];
    [|intros H; by apply elem_of_nil in H].
  destruct ((lo1 <=? x) && (x <=? hi1)) eqn:E1;
    [|intros H; by apply elem_of_nil in H].
  destruct (digit b) as [y|]; [|intros H; by apply elem_of_nil in H].
  destruct ((lo2 <=? y) && (y <=? hi2)) eqn:E2;
    [|intros H; by apply elem_of_nil in H].
  intros H. apply list_elem_of_singleton in H. injection H as -> ->.
  apply andb_true_iff in E1 as [? ?], E2 as [? ?]. lia.
Qed.

Lemma one_digit_range lo hi s v r :
  (v, r) ∈ one_digit lo hi s -> lo <= v <= hi.
Proof.
  unfold one_digit. destruct s as [|a s];
    [intros H; by apply elem_of_nil in H|].
  unfold digit_in. destruct (digit a) as [x|];
    [|intros H; by apply elem_of_nil in H].
  destruct ((lo <=? x) && (x <=? hi)) eqn:E;
    [|intros H; by apply elem_of_nil in H].
  intros H. apply list_elem_of_singleton in H. injection H as -> ->.
  apply andb_true_iff in E as [? ?]. lia.
Qed.

(** Every time that [strptime] returns for ["%H:%M"] is a time of day. *)
Lemma strptime_hm_valid s t : strptime_hm s = Ok t -> valid_time t.
Proof.
  unfold strptime_hm. destruct (hm_matches s) as [|[[h m] rest] more] eqn:E;
    [done|].
  destruct rest; [|done]. intros [= <-].
  assert (Hin : (h, m, []) ∈ hm_matches s) by (rewrite E; by left).
  unfold hm_matches in Hin.
  apply list_elem_of_bind in Hin as ([h' r1] & Hin & HH).
  apply list_elem_of_bind in Hin as (r2 & Hin & _).
  apply list_elem_of_bind in Hin as ([m' r3] & Hin & HM).
  apply list_elem_of_singleton in Hin. injection Hin as <- <- <-.
  assert (0 <= h <= 23).
  { unfold directive_H in HH. rewrite !elem_of_app in HH.
    destruct HH as [HH|[HH|HH]];
      [apply two_digits_range in HH | apply two_digits_range in HH
       | apply one_digit_range in HH]; lia. }
  assert (0 <= m <= 59).
  { unfold directive_M in HM. rewrite !elem_of_app in HM.
    destruct HM as [HM|HM];
      [apply two_digits_range in HM | apply one_digit_range in HM]; lia. }
  unfold valid_time. simpl. lia.
Qed.

Lemma strptime_hm_error s e : strptime_hm s = Raise e -> e = ValueError.
Proof.
  unfold strptime_hm. destruct (hm_matches s) as [|[[h m] rest] more];
    [by intros [= <-]|].
  destruct rest; [done | by intros [= <-]].
Qed.

Lemma agenda_due_spaced c now l :
  last_agenda_sent c = Some l -> agenda_due c now = true ->
  agenda_interval c * 3600 * 1000000 <= sub_datetime now l.
Proof.
  unfold agenda_due. intros -> H. apply Qle_bool_iff in H.
  unfold Qle, total_seconds in H. simpl in H. lia.
Qed.

Lemma periodic_run_spaced {net : Type}
    (send_message : net -> str -> str -> res unit * net)
    turns bot c (n : net) :
  spaced (agenda_interval c) (last_agenda_sent c)
    (periodic_run send_message turns bot c n).2.
Proof.
  revert c n. induction turns as [|t turns IH]; intros c n; simpl; [done|].
  unfold periodic_pass.
  destruct (is_notification_time bot (turn_checked_at t));
    [destruct (agenda_due c (turn_now t)) eqn:Hdue;
       [destruct (format_agenda (turn_formatted_at t) (turn_agenda t))|]|].
  - destruct (send_notification_to_subscribers _ _ _ _) as [n' b].
    specialize (IH {| last_agenda_sent := Some (turn_now t);
                      agenda_interval := agenda_interval c |} n').
    destruct (periodic_run _ _ _ _ _) as [[c'' n''] sent]. simpl in *.
    split; [|done].
    destruct (last_agenda_sent c) as [l0|] eqn:El; [|done].
    by apply agenda_due_spaced.
  - specialize (IH c n).
    by destruct (periodic_run _ _ _ _ _) as [[c'' n''] sent].
  - specialize (IH c n).
    by destruct (periodic_run _ _ _ _ _) as [[c'' n''] sent].
  - specialize (IH c n).
    by destruct (periodic_run _ _ _ _ _) as [[c'' n''] sent].
Qed.

(** Inside hours that start at 08:00 or later, 09:00 of the day of the
    check is at most 60 minutes after any later reading of the clock. *)
Lemma nine_oclock_within_the_hour bot checked_at now :
  time_le (Time 8 0 0 0) (notification_start bot) = true ->
  is_notification_time bot checked_at = true ->
  0 <= sub_datetime now checked_at ->
  (schedule_total_minutes (combine (date_of checked_at) (Time 9 0 0 0)) now
   <= 60)%Q.
Proof.
  intros Hstart Hin Hclock.
  unfold is_notification_time in Hin.
  apply andb_true_iff in Hin as [Hin _].
  unfold time_le in Hstart, Hin.
  apply Z.leb_le in Hstart, Hin.
  change (microsecond_of_day (Time 8 0 0 0)) with 28800000000 in Hstart.
  assert (Hsub : sub_datetime
                   (combine (date_of checked_at) (Time 9 0 0 0)) now
                 <= 3600000000).
  { unfold sub_datetime in *. unfold combine. simpl date_of. simpl time_of.
    change (microsecond_of_day (Time 9 0 0 0)) with 32400000000.
    lia. }
  unfold schedule_total_minutes, total_seconds.
  set (x := sub_datetime
              (combine (date_of checked_at) (Time 9 0 0 0)) now) in *.
  clearbody x. unfold Qle, Qdiv, Qmult, Qinv. simpl. lia.
Qed.

End CommandFacts.

(** The agenda text. *)
Lemma status_lines_length status items :
  length (status_lines status items) <= 7.
Proof.
  unfold status_lines. destruct (list_truthy items); [|simpl; lia].
  destruct (5 <? length items);
    rewrite !length_app, length_map, length_take; cbn [length]; lia.
Qed.

Lemma tasks_lines_length todos_ statuses ls :
  tasks_lines todos_ statuses = Some ls ->
  length ls <= 7 * length statuses.
Proof.
  revert ls. induction statuses as [|st statuses IH]; intros ls; simpl.
  - intros [= <-]. simpl. lia.
  - destruct (todos_ !! st) as [items|]; [|done].
    destruct (tasks_lines todos_ statuses) as [ls'|]; [|done].
    intros [= <-]. rewrite length_app.
    pose proof (status_lines_length st items). specialize (IH ls' eq_refl).
    lia.
Qed.

Lemma tasks_lines_some todos_ statuses :
  Forall (fun k => is_Some (todos_ !! k)) statuses ->
  is_Some (tasks_lines todos_ statuses).
Proof.
  induction 1 as [|k statuses [items Hk] _ [ls IH]]; simpl; [by eexists|].
  rewrite Hk, IH. by eexists.
Qed.

Lemma format_agenda_result_ok today now a :
  agenda_ok today a -> is_Some (format_agenda_result now a).
Proof.
  intros (_ & _ & Hk & _). unfold format_agenda_result. cbv zeta.
  destruct (tasks_lines_some (todos a) open_keywords) as [ls ->].
  { apply Forall_forall. intros k Hin. by apply Hk. }
  destruct (any_values (todos a)); by eexists.
Qed.

(** Splitting at one character. *)
Lemma split_char_cons c a s :
  split [c] (a :: s) =
  if bool_decide (a = c) then [] :: split [c] s
  else cons_head a (split [c] s).
Proof.
  unfold split. simpl.
  case_bool_decide as E1; case_bool_decide as E2; subst; simpl; congruence.
Qed.

Lemma split_char_not_nil c s : split [c] s <> [].
Proof.
  destruct s as [|a s]; [done|]. rewrite split_char_cons.
  case_bool_decide; [done|]. by destruct (split [c] s).
Qed.

Lemma split_char_first c l s :
  c ∉ l -> split [c] (l ++ c :: s) = l :: split [c] s.
Proof.
  induction l as [|a l IH]; intros H; simpl.
  - rewrite split_char_cons. by rewrite bool_decide_true.
  - apply not_elem_of_cons in H as [Hc Hl].
    rewrite split_char_cons, bool_decide_false by done. by rewrite IH.
Qed.

Lemma split_char_single c l : c ∉ l -> split [c] l = [l].
Proof.
  induction l as [|a l IH]; intros H; [done|].
  apply not_elem_of_cons in H as [Hc Hl].
  rewrite split_char_cons, bool_decide_false by done. by rewrite IH.
Qed.

(** The first lines of the notices other than the one two hours ahead. *)
Lemma schedule_lead_not_two_hours tm suffix lead rest :
  (tm <= 60)%Q ->
  schedule_bucket tm = Some (suffix, lead) ->
  startswith (py "Appointment in ~2 hours:") (lead ++ rest) = false.
Proof.
  intros Hle. unfold schedule_bucket.
  destruct (Qle_bool 90 tm) eqn:E90.
  { apply Qle_bool_iff in E90. lra. }
  cbn [andb negb].
  repeat match goal with
    | |- context [Qle_bool ?a ?b] => destruct (Qle_bool a b); cbn [andb negb]
    end;
    first [ by intros [= <- <-] | done ].
Qed.

Lemma deadline_lead_not_two_hours th suffix lead rest :
  deadline_bucket th = Some (suffix, lead) ->
  startswith (py "Appointment in ~2 hours:") (lead ++ rest) = false.
Proof.
  unfold deadline_bucket.
  destruct (Qle_bool 6 th && Qle_bool th 8); [|done]. by intros [= <- <-].
Qed.

Lemma pass_calls_elem agenda now c :
  c ∈ pass_calls agenda now ->
  (exists item d, c = CheckSchedule item (combine d (Time 9 0 0 0)) now /\
                  item ∈ schedules_today agenda /\ scheduled item = Some d) \/
  (exists item t, c = CheckDeadline item t now).
Proof.
  unfold pass_calls. intros [Hin|Hin]%elem_of_app.
  - left. apply list_elem_of_omap in Hin as (item & Hitem & Hc).
    destruct (scheduled item) as [d|] eqn:E; [|done].
    injection Hc as <-. eauto.
  - right. apply list_elem_of_omap in Hin as (item & Hitem & Hc).
    destruct (deadline item) as [d|] eqn:E; [|done].
    injection Hc as <-. eauto.
Qed.

(* ===================================================================== *)
(** * Part III: the claims                                                *)
(* ===================================================================== *)

(** C1, as amended: for every document text, label and level,
    [find_heading_in_content] returns [(body_start_line, body_end_line)]
    where [body_start_line] is the index of the topmost line made of
    exactly [level] markers, one or more whitespace characters and a text
    whose trimmed form is the label; [body_end_line] is the index of the
    first heading line strictly after it with at most [level] markers, or
    the line count when there is none; it returns nothing exactly when no
    line matches; and [body_start_line < body_end_line <= line count]. The
    contract determines the result: whatever meets it is what the function
    returns. *)
Theorem find_heading_in_content_locates content label level :
  locate_spec isspace (splitlines content) label (Z.to_nat level)
    (find_heading_in_content content label level) /\
  forall r,
    locate_spec isspace (splitlines content) label (Z.to_nat level) r ->
    r = find_heading_in_content content label level.
Proof.
  assert (H : locate_spec isspace (splitlines content) label (Z.to_nat level)
                (find_heading_in_content content label level)).
  { unfold find_heading_in_content, str_mul. apply scan_heading_locate. }
  split; [done|]. intros r Hr. by eapply locate_spec_unique.
Qed.

(** C1, counterexample: in the line [*<TAB>A] the marker is followed by a
    tab, not by a space; the code still locates the heading [A] there. *)
Lemma find_heading_tab_separator :
  find_heading_in_content [star; TAB; "A"%char] (py "A") 1 = Some (0, 1) /\
  ~ locate_spec space_only (splitlines [star; TAB; "A"%char]) (py "A") 1
      (find_heading_in_content [star; TAB; "A"%char] (py "A") 1).
Proof.
  split; [reflexivity|].
  change (find_heading_in_content [star; TAB; "A"%char] (py "A") 1)
    with (Some (0, 1)).
  intros ((line & Hl & _ & ws & text & Hws & Hsp & _ & Hline & _) & _).
  injection Hl as <-. destruct ws as [|w ws]; [done|].
  injection Hline as Hw _. subst w. by inversion Hsp.
Qed.

(** C6, as amended: with an empty or absent parent the new heading block is
    appended after the last line of the document, preceded by a blank line
    when that last line is not blank; in particular inserting [B] at level
    1 with an empty body into ["* A\n"] gives ["* A\n\n* B"]. *)
Theorem add_heading_appends content parent parent_level
    new_heading new_content new_level :
  parent = None \/ parent = Some [] ->
  add_heading_to_content content parent parent_level
    new_heading new_content new_level
  = content ++ [LF]
    ++ (if last_line_nonblank (splitlines content) then [LF] else [])
    ++ join [LF] (heading_block new_level new_heading new_content)
  /\ add_heading_to_content (doc ["* A"; ""]) parent parent_level (py "B") [] 1
     = doc ["* A"; ""; "* B"].
Proof.
  intros Hp.
  assert (Hgen : forall c h b l,
    add_heading_to_content c parent parent_level h b l
    = c ++ [LF] ++ (if last_line_nonblank (splitlines c) then [LF] else [])
      ++ join [LF] (heading_block l h b)).
  { intros c h b l. unfold add_heading_to_content.
    pose proof (splitlines_not_nil c) as Hne.
    assert (Hb : heading_block l h b <> []) by done.
    destruct Hp as [-> | ->]; cbv beta iota zeta;
      rewrite firstn_all, drop_all, app_nil_r;
      (destruct (last_line_nonblank (splitlines c));
       [ rewrite <- app_assoc, join_app by done;
         rewrite join_splitlines;
         change ([[]] ++ heading_block l h b) with ([] :: heading_block l h b);
         destruct (heading_block l h b) eqn:E; [done | reflexivity]
       | rewrite join_app by done; by rewrite join_splitlines ]). }
  split; [apply Hgen|]. rewrite Hgen. reflexivity.
Qed.

Lemma add_heading_appends_witness :
  add_heading_to_content (doc ["* A"; "text"]) None 1 (py "B") (py "body") 1
  = doc ["* A"; "text"; ""; "* B"; ""; "body"].
Proof.
  destruct (add_heading_appends (doc ["* A"; "text"]) None 1
              (py "B") (py "body") 1 (or_introl eq_refl)) as [H _].
  exact H.
Defined.

(** C6, counterexample: the insertion into ["* A\n"] does not give
    ["* A\n* B\n"]: the heading follows the blank last line and no line
    feed ends the result. *)
Lemma add_heading_example_differs :
  add_heading_to_content (doc ["* A"; ""]) None 1 (py "B") [] 1
  = doc ["* A"; ""; "* B"]
  /\ doc ["* A"; ""; "* B"] <> doc ["* A"; "* B"; ""].
Proof. split; [reflexivity | discriminate]. Qed.

(** C7, as amended: for every document text in which a heading with a
    non-empty label [L] exists at the given level, replacing that heading by
    itself with an empty body and then reading its content gives the empty
    string. *)
Theorem update_empty_body_then_content content label level :
  label <> [] ->
  find_heading_in_content content label level <> None ->
  get_heading_content
    (update_heading_in_content content label label [] level) label level
  = [].
Proof.
  intros Hne Hfind.
  destruct (find_heading_in_content content label level) as [[s e]|] eqn:E;
    [|done].
  unfold get_heading_content.
  rewrite (update_then_locate _ _ _ _ _ Hne E).
  replace (s + 1 <? S s) with false; [done|].
  symmetry. apply Nat.ltb_ge. lia.
Qed.

Lemma update_empty_body_then_content_witness :
  get_heading_content
    (update_heading_in_content (doc ["* A"; "body"; "** Sub"; "* B"])
       (py "A") (py "A") [] 1) (py "A") 1
  = [].
Proof.
  apply update_empty_body_then_content; [discriminate|].
  vm_compute. discriminate.
Defined.

(** C7, counterexample: a heading whose label is empty. The rewritten
    heading line ["* "] is no longer a heading, so the second heading with
    an empty label is located and its body is read. *)
Lemma update_empty_label_reads_body :
  find_heading_in_content (doc ["*  "; "*  "; "body"]) [] 1 = Some (0, 1) /\
  get_heading_content
    (update_heading_in_content (doc ["*  "; "*  "; "body"]) [] [] [] 1) [] 1
  = py "body".
Proof. split; reflexivity. Qed.

(** C8, as amended: the document title is taken from the first line that
    starts with [#+title:] or [#+TITLE:], in exactly one of these two
    spellings, and is the trimmed text after that colon; when there is no
    such line, or when that text is empty, the file's base name is the
    title. *)
Theorem file_title_two_spellings content stem :
  (forall pre p rest post,
     splitlines content = pre ++ (p ++ rest) :: post ->
     title_prefix p ->
     Forall (fun l => ~ is_title_line l) pre ->
     file_title content stem
     = Ok (if truthy (strip rest) then strip rest else stem)) /\
  (Forall (fun l => ~ is_title_line l) (splitlines content) ->
   file_title content stem = Ok stem).
Proof.
  unfold file_title, extract_title_from_content. split.
  - intros pre p rest post -> Hp Hpre.
    by rewrite extract_title_lines_first.
  - intros Hall. by rewrite extract_title_lines_none.
Qed.

Lemma file_title_two_spellings_witness :
  file_title (doc ["#+filetags: x"; "#+TITLE: My note "; "* A"]) (py "stem")
  = Ok (py "My note")
  /\ file_title (doc ["#+filetags: x"; "* A"]) (py "stem") = Ok (py "stem").
Proof.
  split.
  - apply (proj1 (file_title_two_spellings _ (py "stem"))
             [py "#+filetags: x"] (py "#+TITLE:") (py " My note ") [py "* A"]).
    + reflexivity.
    + by right.
    + constructor; [|constructor].
      intros (p & rest & [-> | ->] & H); discriminate H.
  - apply (proj2 (file_title_two_spellings _ (py "stem"))).
    repeat constructor; intros (p & rest & [-> | ->] & H); discriminate H.
Defined.

(** C8, counterexample: the spelling [#+Title:] is not recognised, so the
    base name is used although a title line in another casing exists. *)
Lemma file_title_mixed_case :
  file_title (doc ["#+Title: Foo"]) (py "note") = Ok (py "note") /\
  title_nocase (doc ["#+Title: Foo"]) (py "note") = py "Foo".
Proof. split; reflexivity. Qed.

(** C2, as amended: the schedule ladder selects the key [2h] iff
    [total_minutes] is in [[90,120]] (both ends included), [90m] iff in
    [[60,90)], [1h] iff in [[45,60)], [45m] iff in [[30,45)], [30m] iff in
    [[15,30)], [15m] iff in [[0,15)], and no key otherwise; so exactly one
    key is selected for every [total_minutes] in [[0,120]]; for deadlines
    the key [today] is selected iff [total_hours] is in [[6,8]]. *)
Theorem bucket_ladder (total_minutes total_hours : Q) :
  ((schedule_bucket_key total_minutes = Some (py "_2h")
    <-> 90 <= total_minutes /\ total_minutes <= 120) /\
   (schedule_bucket_key total_minutes = Some (py "_90m")
    <-> 60 <= total_minutes /\ total_minutes < 90) /\
   (schedule_bucket_key total_minutes = Some (py "_1h")
    <-> 45 <= total_minutes /\ total_minutes < 60) /\
   (schedule_bucket_key total_minutes = Some (py "_45m")
    <-> 30 <= total_minutes /\ total_minutes < 45) /\
   (schedule_bucket_key total_minutes = Some (py "_30m")
    <-> 15 <= total_minutes /\ total_minutes < 30) /\
   (schedule_bucket_key total_minutes = Some (py "_15m")
    <-> 0 <= total_minutes /\ total_minutes < 15) /\
   (schedule_bucket_key total_minutes = None
    <-> total_minutes < 0 \/ 120 < total_minutes) /\
   (is_Some (schedule_bucket_key total_minutes)
    <-> 0 <= total_minutes /\ total_minutes <= 120) /\
   (deadline_bucket_key total_hours = Some (py "_today")
    <-> 6 <= total_hours /\ total_hours <= 8) /\
   (deadline_bucket_key total_hours = None
    <-> total_hours < 6 \/ 8 < total_hours))%Q.
Proof.
  destruct (schedule_bucket_key_cases total_minutes)
    as [[Hm ->]|[[Hm ->]|[[Hm ->]|[[Hm ->]|[[Hm ->]|[[Hm ->]|[Hm ->]]]]]]];
  destruct (deadline_bucket_key_cases total_hours) as [[Hh ->]|[Hh ->]];
  rewrite is_Some_alt;
  repeat match goal with |- _ /\ _ => split end;
  (split; [first [key_differs | intros _; lra | done]
          | first [ reflexivity | intros; exfalso; lra ]]).
Qed.

(** C2, counterexample: two hours before the appointment
    [total_minutes] is exactly 120, outside [[90,120)], and the key [2h]
    is selected. *)
Lemma bucket_at_two_hours :
  (schedule_total_minutes (combine (Date 2024 1 1) (Time 9 0 0 0))
                          (combine (Date 2024 1 1) (Time 7 0 0 0)) == 120)%Q
  /\ schedule_bucket_key
       (schedule_total_minutes (combine (Date 2024 1 1) (Time 9 0 0 0))
                               (combine (Date 2024 1 1) (Time 7 0 0 0)))
     = Some (py "_2h")
  /\ worded_schedule_bucket_key
       (schedule_total_minutes (combine (Date 2024 1 1) (Time 9 0 0 0))
                               (combine (Date 2024 1 1) (Time 7 0 0 0)))
     = None.
Proof. repeat split. Qed.

(** C3, as amended: the record of sent notifications is keyed by the
    item's file name and title, its scheduled date and time (for a
    deadline, its date) and the branch of the ladder. Once a call of the
    threshold watch has computed such a key (and so recorded it, by
    sending or because it was recorded already), every later call in the
    same process about the same notice (same file name, title, scheduled
    date and time or deadline date, and branch) sends nothing and leaves
    the scheduler as it is, whatever calls were made in between: at most
    one send per item, per scheduled date and time, per branch. *)
Theorem recorded_key_never_resent {net : Type}
    (send_message : net -> str -> str -> res unit * net)
    (bot : Bot) (n : net) (before : list call) (c : call)
    (between : list call) (c' : call) :
  same_notice c c' ->
  let '(bot1, n1, _) := do_calls send_message (before ++ c :: between) bot n in
  do_call send_message c' bot1 n1 = (bot1, n1, []).
Proof.
  intros Hsame.
  destruct (same_notice_key c c' Hsame) as (k & Hk & Hk').
  pose proof (key_stays_recorded send_message before c between bot n k Hk) as H.
  destruct (do_calls send_message (before ++ c :: between) bot n)
    as [[bot1 n1] bs].
  by eapply do_call_recorded.
Qed.

Lemma recorded_key_never_resent_witness :
  let c := CheckSchedule standup (combine (Date 2024 1 1) (Time 9 0 0 0))
             (combine (Date 2024 1 1) (Time 8 40 0 0)) in
  let c' := CheckSchedule standup (combine (Date 2024 1 1) (Time 9 0 0 0))
              (combine (Date 2024 1 1) (Time 8 41 0 0)) in
  let '(bot1, n1, _) :=
    do_calls always_ok ([] ++ c :: []) (example_bot [py "a@x"]) tt in
  do_call always_ok c' bot1 n1 = (bot1, n1, []).
Proof.
  apply (recorded_key_never_resent always_ok (example_bot [py "a@x"]) tt []
           (CheckSchedule standup (combine (Date 2024 1 1) (Time 9 0 0 0))
              (combine (Date 2024 1 1) (Time 8 40 0 0)))
           []
           (CheckSchedule standup (combine (Date 2024 1 1) (Time 9 0 0 0))
              (combine (Date 2024 1 1) (Time 8 41 0 0)))).
  split; [reflexivity|]. split; [reflexivity|]. split; [reflexivity|].
  exists (py "_30m"). split; reflexivity.
Defined.

(** C3, counterexample: the pair of item and branch alone does not stop a
    second send. [Standup] of [work.org] is announced in the 30-minute
    branch on 2024-01-01; moved to the next day, the same item in the same
    branch is announced again by the same process, since its key holds the
    scheduled date. The same happens with the deadline branch. *)
Lemma same_item_next_day_is_sent_again :
  let c := CheckSchedule standup (combine (Date 2024 1 1) (Time 9 0 0 0))
             (combine (Date 2024 1 1) (Time 8 40 0 0)) in
  let c' := CheckSchedule standup_moved
              (combine (Date 2024 1 2) (Time 9 0 0 0))
              (combine (Date 2024 1 2) (Time 8 40 0 0)) in
  let d := CheckDeadline standup (combine (Date 2024 1 1) (Time 23 59 0 0))
             (combine (Date 2024 1 1) (Time 17 0 0 0)) in
  let d' := CheckDeadline standup_moved
              (combine (Date 2024 1 2) (Time 23 59 0 0))
              (combine (Date 2024 1 2) (Time 17 0 0 0)) in
  let after := do_calls always_ok [c; d] (example_bot [py "a@x"]) tt in
  file_name standup_moved = file_name standup /\
  title standup_moved = title standup /\
  schedule_bucket_key
    (schedule_total_minutes (combine (Date 2024 1 1) (Time 9 0 0 0))
       (combine (Date 2024 1 1) (Time 8 40 0 0))) = Some (py "_30m") /\
  schedule_bucket_key
    (schedule_total_minutes (combine (Date 2024 1 2) (Time 9 0 0 0))
       (combine (Date 2024 1 2) (Time 8 40 0 0))) = Some (py "_30m") /\
  length after.2 = 2 /\
  (do_call always_ok c' after.1.1 after.1.2).2
  = [{| message := doc ["Appointment in ~30 minutes:"; "Standup (Work)"];
        attempts := [py "a@x"] |}] /\
  (do_call always_ok d' after.1.1 after.1.2).2
  = [{| message := doc ["DEADLINE TODAY:"; "Standup (Work)"];
        attempts := [py "a@x"] |}].
Proof. vm_compute. repeat split. Qed.

(** The first call of that example does send: the ledger starts empty. *)
Example first_call_sends :
  (do_call always_ok
     (CheckSchedule standup (combine (Date 2024 1 1) (Time 9 0 0 0))
        (combine (Date 2024 1 1) (Time 8 40 0 0)))
     (example_bot [py "a@x"]) tt).2
  = [{| message := doc ["Appointment in ~30 minutes:"; "Standup (Work)"];
        attempts := [py "a@x"] |}].
Proof. reflexivity. Qed.

(** C5, the code at the failing input: with subscribers [a@x], [b@x],
    [c@x] visited in this order and a transport that raises for [a@x], the
    loop ends at the first recipient; [b@x] and [c@x] are subscribers for
    whom [send_message] is never called. *)
Theorem broadcast_stops_at_first_failure :
  let bot := example_bot [py "a@x"; py "b@x"; py "c@x"] in
  let b := (send_notification_to_subscribers (failing_for (py "a@x"))
              bot tt (py "hello")).2 in
  attempts b = [py "a@x"] /\
  (py "b@x" ∈ subscribers bot) /\ (py "b@x" ∉ attempts b) /\
  (py "c@x" ∈ subscribers bot) /\ (py "c@x" ∉ attempts b).
Proof.
  cbv zeta. split; [reflexivity|].
  change (attempts _) with [py "a@x"]. simpl subscribers.
  rewrite !elem_of_cons, !elem_of_nil.
  repeat split; try (right; left; reflexivity);
    try (right; right; left; reflexivity);
    intros [H|[]]; discriminate H.
Qed.

(** C9, as amended: the scheduled (respectively deadline) date is taken
    from the leftmost [SCHEDULED: <...>] (respectively [DEADLINE: <...>])
    occurrence by parsing the first whitespace-delimited token of the
    bracketed value with the format [%Y-%m-%d]; a value without any token
    (the [IndexError] of [split()[0]]) or whose token does not parse (the
    [ValueError] of [strptime]) is treated as absent, and so is a missing
    occurrence: the extraction returns a pair of optional dates in every
    case. *)
Theorem timestamps_first_token heading_text content :
  parse_timestamps_in_content heading_text content
  = (stamp (py "SCHEDULED:") content, stamp (py "DEADLINE:") content) /\
  forall keyword,
    ((forall j, stamp_here keyword (drop j content) = None) ->
     stamp keyword content = None) /\
    (forall pre ws0 value tail,
       content = pre ++ keyword ++ ws0 ++ "<"%char :: value ++ ">"%char :: tail ->
       Forall (fun c => isspace c = true) ws0 ->
       value <> [] -> Forall (fun c => not_gt c = true) value ->
       (forall j, j < length pre -> stamp_here keyword (drop j content) = None) ->
       (Forall (fun c => isspace c = true) value ->
        stamp_date value = Raise IndexError /\ stamp keyword content = None) /\
       (forall ws token rest,
          value = ws ++ token ++ rest ->
          Forall (fun c => isspace c = true) ws ->
          token <> [] -> Forall (fun c => isspace c = false) token ->
          rest = [] \/ (exists c r, rest = c :: r /\ isspace c = true) ->
          stamp_date value = strptime_ymd token /\
          stamp keyword content = try_or_none (strptime_ymd token))).
Proof.
  split; [reflexivity|]. intros keyword. split.
  - intros Hnone. unfold stamp. by rewrite stamp_search_absent.
  - intros pre ws0 value tail Hc Hws0 Hne Hval Hleft.
    assert (Hsearch : stamp_search keyword content = Some value).
    { apply (stamp_search_complete _ _ (length pre)); [|done].
      rewrite Hc, drop_app_length. by apply stamp_here_complete. }
    unfold stamp. rewrite Hsearch. split.
    + intros Hall. unfold stamp_date. by rewrite split_ws_all_space.
    + intros ws token rest -> Hws Htok Hns Hrest. unfold stamp_date.
      by destruct (split_ws_first_token ws token rest Hws Htok Hns Hrest)
        as [more ->].
Qed.

(** An Org timestamp with a day name and a time of day: the first token
    is the date. *)
Example timestamp_with_time :
  parse_timestamps_in_content (py "Call")
    (doc ["  SCHEDULED: <2024-03-05 Tue 10:00>"; "text"])
  = (Some (Date 2024 3 5), None).
Proof. reflexivity. Qed.

(** C9, counterexample: in [<2024-01-01Mon>] the first ten characters are
    a date, but the first token is [2024-01-01Mon], which does not parse:
    the code finds no scheduled date. *)
Lemma timestamp_token_not_prefix :
  parse_timestamps_in_content [] (py "SCHEDULED: <2024-01-01Mon>")
  = (None, None) /\
  worded_stamp (py "SCHEDULED:") (py "SCHEDULED: <2024-01-01Mon>")
  = Some (Date 2024 1 1).
Proof. split; reflexivity. Qed.

(** C10, as amended: the index is built by one top-down scan that
    attributes every non-heading line to the most recent heading line and
    is keyed by the heading's trimmed text, status token included; for a
    non-empty trimmed text the index maps it to the lines that follow its
    last heading line, up to the next heading line, whatever headings with
    the same text come earlier; and the timestamps of a node whose heading
    is that text are read from this content, unless a status token is
    stripped from the node's heading and the remaining title is itself a
    key of the index. *)
Theorem content_sections_last_occurrence
    content pre hl stars text body post :
  splitlines content = pre ++ hl :: body ++ post ->
  heading_pattern hl = Some (stars, text) -> strip text <> [] ->
  Forall (fun l => heading_pattern l = None) body ->
  (post = [] \/ exists l post', post = l :: post' /\ heading_pattern l <> None) ->
  (forall l st tx, l ∈ post -> heading_pattern l = Some (st, tx) ->
                   strip tx <> strip text) ->
  build_content_sections content !! strip text = Some (join [LF] body) /\
  forall name file_title_ flag node,
    node_heading node = strip text ->
    let i := item_data name file_title_
               (build_content_sections content) node flag in
    title i = node_heading node \/
    build_content_sections content !! title i = None ->
    heading_content (build_content_sections content) (title i)
      (node_heading node) = join [LF] body /\
    (scheduled i, deadline i)
    = parse_timestamps_in_content (title i) (join [LF] body).
Proof.
  intros Hlines Hhl Hne Hbody Hpost Hlast.
  assert (Hidx : build_content_sections content !! strip text
                 = Some (join [LF] body)).
  { unfold build_content_sections. rewrite Hlines.
    by eapply scan_sections_last. }
  split; [done|].
  intros name file_title_ flag node Hnode. unfold item_data.
  destruct (status_and_title (node_heading node) (node_todo node))
    as [kw original] eqn:Est.
  destruct (parse_timestamps_in_content original
              (heading_content (build_content_sections content) original
                 (node_heading node))) as [s d] eqn:Ets.
  cbn [title scheduled deadline]. intros Hkey.
  assert (Hc : heading_content (build_content_sections content) original
                 (node_heading node) = join [LF] body).
  { unfold heading_content. rewrite Hnode, Hidx.
    destruct Hkey as [-> | ->]; [by rewrite Hnode, Hidx | done]. }
  split; [done|]. by rewrite <- Hc, Ets.
Qed.

Lemma content_sections_last_occurrence_witness :
  build_content_sections
    (doc ["* Call"; "SCHEDULED: <2024-01-01 Mon>";
          "** Call"; "SCHEDULED: <2024-01-02 Tue>"; "* Other"])
  !! py "Call" = Some (py "SCHEDULED: <2024-01-02 Tue>").
Proof.
  apply (content_sections_last_occurrence
           (doc ["* Call"; "SCHEDULED: <2024-01-01 Mon>";
                 "** Call"; "SCHEDULED: <2024-01-02 Tue>"; "* Other"])
           [py "* Call"; py "SCHEDULED: <2024-01-01 Mon>"] (py "** Call")
           (py "**") (py "Call") [py "SCHEDULED: <2024-01-02 Tue>"]
           [py "* Other"]).
  - reflexivity.
  - reflexivity.
  - discriminate.
  - repeat constructor.
  - right. exists (py "* Other"), []. split; [reflexivity | discriminate].
  - intros l st tx Hl. apply list_elem_of_singleton in Hl as ->.
    intros [= <- <-]. discriminate.
Defined.

(** C10, counterexample. First, two heading lines whose trimmed text is
    empty: the index has no entry for that text. Second, two headings
    [NEXT X] and a heading [X]: the node with heading [NEXT X] has the
    clean title [X], which is a key, so its date is read from the body of
    [X] and not from the body of the last [NEXT X]. *)
Lemma content_sections_exceptions :
  (heading_pattern (py "*  ") = Some (py "*", py " ") /\
   strip (py " ") = [] /\
   build_content_sections (doc ["*  "; "x"; "*  "; "y"]) !! [] = None) /\
  (let content :=
     doc ["* X"; "SCHEDULED: <2024-01-01 Mon>";
          "* NEXT X"; "SCHEDULED: <2024-01-02 Tue>";
          "* NEXT X"; "SCHEDULED: <2024-01-03 Wed>"] in
   build_content_sections content !! py "NEXT X"
   = Some (py "SCHEDULED: <2024-01-03 Wed>") /\
   scheduled (item_data (py "n.org") (py "n")
                (build_content_sections content)
                (Node (py "NEXT X") None [] None []) false)
   = Some (Date 2024 1 1)).
Proof. repeat split. Qed.

(** C4, as amended: for every directory and current day, the task-only
    extractor's [schedules_today] and [deadlines_today] are those of the
    full extractor, same items in the same order and with the same
    attributes except [is_task_file], which the task-only extractor
    computes with [has_task_filetag] and the full extractor with a
    substring test; and its status lists are the full extractor's status
    lists restricted to the files whose name carries a [task] filetag,
    again up to [is_task_file]. *)
Theorem task_only_refines_full (org_files : list OrgFile) (today : date) :
  schedules_today (parse_org_agenda_items_task_only org_files today)
  = map retag (schedules_today (parse_org_agenda_items org_files today)) /\
  deadlines_today (parse_org_agenda_items_task_only org_files today)
  = map retag (deadlines_today (parse_org_agenda_items org_files today)) /\
  todos (parse_org_agenda_items_task_only org_files today)
  = restrict_to_task_files <$> todos (parse_org_agenda_items org_files today).
Proof.
  unfold parse_org_agenda_items, parse_org_agenda_items_task_only.
  apply (parse_rel today org_files empty_agenda empty_agenda empty_agenda_rel).
Qed.

(** C4, counterexample: for a file named
    [20240101T090000--meeting_tasks.org] the name contains [_task] but
    has no [task] filetag; the one scheduled item carries
    [is_task_file = True] in the full extractor and [False] in the
    task-only one, so the two [schedules_today] lists differ. *)
Lemma schedules_differ_in_flag :
  map is_task_file
    (schedules_today (parse_org_agenda_items [meeting_file] (Date 2024 1 1)))
  = [true] /\
  map is_task_file
    (schedules_today
       (parse_org_agenda_items_task_only [meeting_file] (Date 2024 1 1)))
  = [false].
Proof. split; reflexivity. Qed.

(** * Part IV: further properties of the code *)

(** ** The outline editor *)

(** X1: rewriting a located heading with a new heading text that holds no
    line feed touches only the located span: the lines before the heading
    keep their index and text, the lines from the end of the section on
    follow the new block unchanged, and the line count changes by the
    difference between the block and the span. *)
Theorem update_keeps_lines_outside
    content old_heading new_heading new_content level s e :
  find_heading_in_content content old_heading level = Some (s, e) ->
  no_lf new_heading ->
  let lines := splitlines content in
  let block := heading_block level new_heading new_content in
  let lines' :=
    splitlines (update_heading_in_content content old_heading new_heading
                  new_content level) in
  (forall i, i < s -> lines' !! i = lines !! i) /\
  (forall i, i < length block -> lines' !! (s + i) = block !! i) /\
  (forall j, lines' !! (s + length block + j) = lines !! (e + j)) /\
  length lines' + (e - s) = length lines + length block.
Proof.
  intros Hfind Hlf lines block lines'.
  pose proof (find_heading_bounds _ _ _ _ _ Hfind) as Hb. fold lines in Hb.
  unfold lines'. rewrite (update_lines _ _ _ _ _ _ _ Hfind Hlf).
  fold lines. fold block.
  assert (Hlen : length (take s lines) = s)
    by (rewrite length_take; lia).
  repeat split.
  - intros i Hi. rewrite lookup_app_l by lia. by rewrite lookup_take_lt.
  - intros i Hi. rewrite lookup_app_r by lia.
    rewrite lookup_app_l by lia. f_equal. lia.
  - intros j. rewrite lookup_app_r by lia. rewrite lookup_app_r by lia.
    rewrite lookup_drop. f_equal. lia.
  - rewrite !length_app, length_drop. lia.
Qed.

Lemma update_keeps_lines_outside_witness :
  let content := doc ["intro"; "* A"; "old"; "** Sub"; "* B"; "tail"] in
  let lines := splitlines content in
  let block := heading_block 1 (py "C") (py "new") in
  let lines' :=
    splitlines (update_heading_in_content content (py "A") (py "C")
                  (py "new") 1) in
  (forall i, i < 1 -> lines' !! i = lines !! i) /\
  (forall i, i < length block -> lines' !! (1 + i) = block !! i) /\
  (forall j, lines' !! (1 + length block + j) = lines !! (4 + j)) /\
  length lines' + (4 - 1) = length lines + length block.
Proof.
  apply (update_keeps_lines_outside
           (doc ["intro"; "* A"; "old"; "** Sub"; "* B"; "tail"])
           (py "A") (py "C") (py "new") 1 1 4).
  - reflexivity.
  - apply no_lf_forall. repeat constructor; discriminate.
Defined.

(** X2: writing a body under a heading and reading the heading's content
    back returns that body, when the heading has a non-empty label and is
    found, the body's first and last lines are not blank, and no line of
    the body is a heading line of the heading's level or above. *)
Theorem update_then_get_body content label body level first_line last_line :
  label <> [] ->
  find_heading_in_content content label level <> None ->
  head (splitlines body) = Some first_line -> nonblank first_line ->
  last (splitlines body) = Some last_line -> nonblank last_line ->
  Forall (shallower_free level) (splitlines body) ->
  get_heading_content
    (update_heading_in_content content label label body level) label level
  = body.
Proof.
  intros Hne Hfind Hfirst Hnf Hlast Hnl Hbody.
  destruct (find_heading_in_content content label level) as [[s e]|] eqn:E;
    [|done].
  pose proof (find_heading_bounds _ _ _ _ _ E) as Hb.
  assert (Hlf : no_lf label).
  { destruct (find_heading_some _ _ _ _ _ E)
      as (k & line & text & -> & Hk & Hp & Hth & _).
    rewrite <- Hth. eapply pattern_text_no_lf; [|done].
    pose proof (splitlines_no_lf content) as Hall.
    rewrite Forall_forall in Hall. apply Hall.
    by eapply list_elem_of_lookup_2. }
  destruct (splitlines body) as [|b0 bl] eqn:Hsplit; [done|].
  injection Hfirst as ->.
  assert (Htruthy : truthy (strip body) = true).
  { apply strip_truthy_exists. apply strip_truthy_exists in Hnf.
    apply Exists_exists in Hnf as (c & Hc & Hsp).
    apply Exists_exists. exists c. split; [|done].
    by eapply splitlines_head_chars. }
  unfold get_heading_content.
  rewrite (update_then_locate_body _ _ _ _ _ _ Hne E)
    by (by rewrite Hsplit).
  rewrite (update_lines _ _ _ _ _ _ _ E Hlf).
  unfold heading_block. cbv zeta. rewrite Htruthy, Hsplit.
  set (hl := str_mul star level ++ py " " ++ label).
  set (lines := splitlines content) in *.
  assert (Hlen : length (take s lines) = s) by (rewrite length_take; lia).
  change (length ([hl] ++ [] :: first_line :: bl)) with (S (S (S (length bl)))).
  replace (s + 1 <? s + S (S (S (length bl)))) with true
    by (symmetry; apply Nat.ltb_lt; lia).
  replace (s + S (S (S (length bl))) - (s + 1))
    with (length ([] :: first_line :: bl)) by (simpl; lia).
  replace (drop (s + 1)
             (take s lines ++ ([hl] ++ [] :: first_line :: bl) ++ drop e lines))
    with (([] :: first_line :: bl) ++ drop e lines).
  2:{ replace (s + 1) with (length (take s lines ++ [hl]))
        by (rewrite length_app; simpl; lia).
      change (take s lines ++ ([hl] ++ [] :: first_line :: bl) ++ drop e lines)
        with (take s lines ++ [hl] ++ ([] :: first_line :: bl) ++ drop e lines).
      rewrite (app_assoc (take s lines) [hl]).
      by rewrite drop_app_length. }
  rewrite take_app_length.
  change (pop_blank_front ([] :: first_line :: bl))
    with (pop_blank_front (first_line :: bl)).
  rewrite (pop_blank_front_id _ _ Hnf).
  rewrite (pop_blank_back_id _ _ Hlast Hnl).
  rewrite <- Hsplit. apply join_splitlines.
Qed.

Lemma update_then_get_body_witness :
  get_heading_content
    (update_heading_in_content (doc ["* A"; "old"; "** Sub"; "* B"])
       (py "A") (py "A") (doc ["text"; ""; "** Part"; "more"]) 1)
    (py "A") 1
  = doc ["text"; ""; "** Part"; "more"].
Proof.
  apply (update_then_get_body _ _ _ _ (py "text") (py "more")).
  - discriminate.
  - vm_compute. discriminate.
  - reflexivity.
  - reflexivity.
  - reflexivity.
  - reflexivity.
  - change (splitlines (doc ["text"; ""; "** Part"; "more"]))
      with [py "text"; []; py "** Part"; py "more"].
    repeat constructor; intros stars text H; vm_compute in H;
      try discriminate.
    injection H as <- <-. simpl. lia.
Defined.

(** X3: inserting a heading under a parent that is found, with a heading
    text that holds no line feed, leaves every line up to the end of the
    parent's section where it was, puts a blank line (when the section does
    not end with one) and the new block there, and moves the lines after
    the section behind the block unchanged; the parent is still found at
    the same line. *)
Theorem add_under_parent_keeps_lines
    content c p parent_level new_heading new_content new_level s e :
  find_heading_in_content content (c :: p) parent_level = Some (s, e) ->
  no_lf new_heading ->
  let lines := splitlines content in
  let result :=
    add_heading_to_content content (Some (c :: p)) parent_level
      new_heading new_content new_level in
  let lines' := splitlines result in
  let gap := if last_line_nonblank (take e lines) then [[]] else [] in
  let block := heading_block new_level new_heading new_content in
  (forall i, i < e -> lines' !! i = lines !! i) /\
  (forall i, i < length (gap ++ block) ->
             lines' !! (e + i) = (gap ++ block) !! i) /\
  (forall j, lines' !! (e + length (gap ++ block) + j) = lines !! (e + j)) /\
  exists e', find_heading_in_content result (c :: p) parent_level
             = Some (s, e').
Proof.
  intros Hfind Hlf lines result lines' gap block.
  pose proof (find_heading_bounds _ _ _ _ _ Hfind) as Hb. fold lines in Hb.
  assert (Hlines' : lines' = take e lines ++ (gap ++ block) ++ drop e lines).
  { unfold lines', result. by rewrite (add_lines _ _ _ _ _ _ _ _ _ Hfind Hlf). }
  assert (Hlen : length (take e lines) = e) by (rewrite length_take; lia).
  split; [|split; [|split]].
  - intros i Hi. rewrite Hlines', lookup_app_l by lia.
    by rewrite lookup_take_lt.
  - intros i Hi. rewrite Hlines', lookup_app_r by lia.
    rewrite lookup_app_l by lia. f_equal. lia.
  - intros j. rewrite Hlines', lookup_app_r by lia.
    rewrite lookup_app_r by lia. rewrite lookup_drop. f_equal. lia.
  - destruct (find_heading_some _ _ _ _ _ Hfind)
      as (k & line & text & -> & Hk & Hp & Hth & Hbefore & _).
    unfold find_heading_in_content. fold lines'.
    destruct (scan_heading_start (str_mul star parent_level) (c :: p)
                (length lines') 0 lines lines' k line text Hk Hp Hth Hbefore)
      as [e' He'].
    + rewrite Hlines', take_app_le by lia.
      rewrite take_take. f_equal. lia.
    + by exists e'.
Qed.

Lemma add_under_parent_keeps_lines_witness :
  let content := doc ["* A"; "text"; "** Sub"; "* B"] in
  let lines := splitlines content in
  let result :=
    add_heading_to_content content (Some (py "A")) 1 (py "New") (py "body") 2 in
  let lines' := splitlines result in
  let gap := if last_line_nonblank (take 3 lines) then [[]] else [] in
  let block := heading_block 2 (py "New") (py "body") in
  (forall i, i < 3 -> lines' !! i = lines !! i) /\
  (forall i, i < length (gap ++ block) ->
             lines' !! (3 + i) = (gap ++ block) !! i) /\
  (forall j, lines' !! (3 + length (gap ++ block) + j) = lines !! (3 + j)) /\
  exists e', find_heading_in_content result (py "A") 1 = Some (0, e').
Proof.
  apply (add_under_parent_keeps_lines
           (doc ["* A"; "text"; "** Sub"; "* B"]) "A"%char [] 1
           (py "New") (py "body") 2 0 3).
  - reflexivity.
  - apply no_lf_forall. repeat constructor; discriminate.
Defined.

(** X4: the content read under a heading is empty or is a text whose
    first and last lines are not blank: the blank lines at both ends of the
    section are dropped. *)
Theorem get_heading_content_trimmed content heading level :
  let r := get_heading_content content heading level in
  r = [] \/
  exists first_line last_line,
    head (splitlines r) = Some first_line /\ nonblank first_line /\
    last (splitlines r) = Some last_line /\ nonblank last_line.
Proof.
  cbv zeta. unfold get_heading_content.
  destruct (find_heading_in_content content heading level) as [[s e]|];
    [|by left].
  destruct (s + 1 <? e); [|by left].
  set (cl := take (e - (s + 1)) (drop (s + 1) (splitlines content))).
  assert (Hlf : Forall no_lf (pop_blank_back (pop_blank_front cl))).
  { apply pop_blank_forall. apply Forall_take, Forall_drop, splitlines_no_lf. }
  destruct (pop_blank_back (pop_blank_front cl)) as [|x0 r0] eqn:EL;
    [by left|].
  right. rewrite splitlines_join by done. rewrite <- EL.
  destruct (pop_blank_front_head cl) as [Hf|(x & r & Hf & Hx)].
  { by rewrite Hf in EL. }
  destruct (pop_blank_back_last (pop_blank_front cl)) as [Hl|(l & Hl & Hn)].
  { by rewrite Hl in EL. }
  exists x, l. repeat split; [|done..].
  rewrite Hf. destruct (pop_blank_back_head x r Hx) as [r' ->]. done.
Qed.

(** X5: reading the title of a document never raises: on a line that
    starts with [#+title:] or [#+TITLE:] the split at the first colon has a
    second part. The title the callers use is then the file's base name or
    a non-empty text. *)
Theorem file_title_never_raises content stem :
  (exists r, extract_title_from_content content = Ok r) /\
  (exists t, file_title content stem = Ok t /\
             (t = stem \/ truthy t = true)).
Proof.
  unfold file_title, extract_title_from_content.
  destruct (extract_title_lines_ok (splitlines content)) as [r ->].
  split; [eauto|].
  destruct r as [t|]; [|eauto].
  destruct (truthy t) eqn:E; eauto.
Qed.

(** ** The agenda extractors *)

(** X6: a file that cannot be read, or that the outline parser rejects,
    contributes nothing to the agenda, wherever it stands in the listing:
    both extractors return what they return for the listing without it. *)
Theorem unreadable_file_is_skipped today before f after :
  unreadable f ->
  parse_org_agenda_items (before ++ f :: after) today
  = parse_org_agenda_items (before ++ after) today /\
  parse_org_agenda_items_task_only (before ++ f :: after) today
  = parse_org_agenda_items_task_only (before ++ after) today.
Proof.
  intros Hf. unfold parse_org_agenda_items, parse_org_agenda_items_task_only.
  rewrite !fold_left_app. simpl.
  by destruct (process_file_unreadable today f
                 (fold_left (fun a f => process_file today f a) before
                    empty_agenda) Hf) as [-> _],
              (process_file_unreadable today f
                 (fold_left (fun a f => process_file_task_only today f a)
                    before empty_agenda) Hf) as [_ ->].
Qed.

Lemma unreadable_file_is_skipped_witness :
  let lost := {| path_name := py "lost.org";
                 read_text := Raise OSError;
                 orgparse_load := Ok [] |} in
  parse_org_agenda_items ([meeting_file] ++ lost :: [meeting_file])
    (Date 2024 1 1)
  = parse_org_agenda_items ([meeting_file] ++ [meeting_file]) (Date 2024 1 1)
  /\
  parse_org_agenda_items_task_only ([meeting_file] ++ lost :: [meeting_file])
    (Date 2024 1 1)
  = parse_org_agenda_items_task_only ([meeting_file] ++ [meeting_file])
      (Date 2024 1 1).
Proof.
  apply unreadable_file_is_skipped. left. by exists OSError.
Defined.

(** X7: in the agenda of either extractor, every item listed as scheduled
    today has today as its scheduled date, every item listed as due today
    has today as its deadline, the status lists are exactly the lists of
    ACTIVE, NEXT, TODO and WAIT, and every item of a status list has that
    status as its keyword; an item marked DONE is in no status list. *)
Theorem agenda_lists_hold_what_they_name files today :
  agenda_ok today (parse_org_agenda_items files today) /\
  agenda_ok today (parse_org_agenda_items_task_only files today).
Proof.
  assert (H : agenda_ok today (parse_org_agenda_items files today))
    by apply parse_ok, empty_agenda_ok.
  split; [done|].
  eapply agenda_rel_ok; [|exact H].
  apply parse_rel, empty_agenda_rel.
Qed.

(** X8: every item of a status list of the task-only extractor comes from
    a file whose name has the [task] filetag, and carries the task-file
    flag. *)
Theorem task_only_todos_from_task_files files today k :
  Forall (fun i => has_task_filetag (file_name i) = true /\
                   is_task_file i = true)
    (status_list k (parse_org_agenda_items_task_only files today)).
Proof.
  destruct (parse_rel today files empty_agenda empty_agenda empty_agenda_rel)
    as (_ & _ & Ht).
  unfold status_list, parse_org_agenda_items_task_only.
  rewrite Ht, lookup_fmap.
  destruct (todos _ !! k) as [l|]; simpl; [|constructor].
  unfold restrict_to_task_files. rewrite Forall_map.
  apply Forall_forall. intros i Hi.
  apply list_elem_of_In in Hi. apply List.filter_In in Hi as [_ Hi].
  unfold from_task_file in Hi. simpl. by rewrite Hi.
Qed.

(** X9: a file name without a double underscore has no filetag, so it is
    not a task file for the task-only extractor, whatever else the name
    holds. *)
Theorem no_double_underscore_no_task_filetag filename :
  contains (py "__") filename = false -> has_task_filetag filename = false.
Proof.
  intros H. unfold has_task_filetag. cbv zeta.
  change (py "__") with ("_"%char :: ["_"%char]) in *.
  by rewrite (split_no_occurrence _ _ _ H).
Qed.

Lemma no_double_underscore_no_task_filetag_witness :
  has_task_filetag (py "20240101T090000--meeting_task.org") = false.
Proof.
  apply no_double_underscore_no_task_filetag. reflexivity.
Defined.

(** X10: a date printed as [YYYY-MM-DD] is read back from a timestamp:
    when the text before the keyword does not hold the keyword's first
    letter, the keyword is followed by white space (or nothing), an opening
    bracket, the printed date, then nothing more or white space and any
    text without a closing bracket, and a closing bracket, the extracted
    date is that date. *)
Theorem timestamp_isoformat_read_back
    heading_text y m d pre ws more post :
  make_date y m d = Ok (Date y m d) ->
  Forall (fun c => isspace c = true) ws ->
  (more = [] \/ exists a r, more = a :: r /\ isspace a = true) ->
  Forall (fun c => not_gt c = true) more ->
  let written :=
    ws ++ "<"%char :: (date_isoformat (Date y m d) ++ more)
       ++ ">"%char :: post in
  ("S"%char ∉ pre ->
   (parse_timestamps_in_content heading_text
      (pre ++ py "SCHEDULED:" ++ written)).1 = Some (Date y m d)) /\
  ("D"%char ∉ pre ->
   (parse_timestamps_in_content heading_text
      (pre ++ py "DEADLINE:" ++ written)).2 = Some (Date y m d)).
Proof.
  intros Hd Hws Hmore Hgt written. unfold parse_timestamps_in_content.
  split; intros Hpre; simpl fst; simpl snd.
  - exact (stamp_isoformat "S"%char (py "CHEDULED:") pre ws y m d more post
             Hd Hpre Hws Hmore Hgt).
  - exact (stamp_isoformat "D"%char (py "EADLINE:") pre ws y m d more post
             Hd Hpre Hws Hmore Hgt).
Qed.

Lemma timestamp_isoformat_read_back_witness :
  (parse_timestamps_in_content (py "Review")
     (doc ["  SCHEDULED: <2024-02-29 Thu 10:00>"; "text"])).1
  = Some (Date 2024 2 29) /\
  (parse_timestamps_in_content (py "Review")
     (doc ["  DEADLINE: <2024-02-29 Thu 10:00>"; "text"])).2
  = Some (Date 2024 2 29).
Proof.
  destruct (timestamp_isoformat_read_back (py "Review") 2024 2 29
              (py "  ") (py " ") (py " Thu 10:00") (LF :: py "text"))
    as [Hs Hd].
  - reflexivity.
  - repeat constructor.
  - right. by exists " "%char, (py "Thu 10:00").
  - repeat constructor.
  - split.
    + apply Hs. vm_compute. intros H.
      repeat (apply elem_of_cons in H as [H|H]; [discriminate|]).
      by apply elem_of_nil in H.
    + apply Hd. vm_compute. intros H.
      repeat (apply elem_of_cons in H as [H|H]; [discriminate|]).
      by apply elem_of_nil in H.
Defined.

(** X11: when the files of the listing have different names, no list of
    the agenda holds the same file and title twice, in either extractor: a
    heading text that occurs several times in a file is listed once as
    scheduled, once as due, and once under a status. *)
Theorem agenda_lists_have_no_repeats files today :
  NoDup (map path_name files) ->
  listed_once (parse_org_agenda_items files today) /\
  listed_once (parse_org_agenda_items_task_only files today).
Proof.
  intros Hnd.
  pose proof (parse_listed_once files today Hnd) as H.
  split; [done|].
  eapply agenda_rel_listed_once; [|exact H].
  apply parse_rel, empty_agenda_rel.
Qed.

Lemma agenda_lists_have_no_repeats_witness :
  let twice :=
    {| path_name := py "20240101T090000--plan__task.org";
       read_text := Ok (doc ["* TODO Call"; "SCHEDULED: <2024-01-01 Mon>";
                             "* TODO Call"; "SCHEDULED: <2024-01-01 Mon>"]);
       orgparse_load :=
         Ok [Node (py "Call") (Some (py "TODO")) [] None [];
             Node (py "Call") (Some (py "TODO")) [] None []] |} in
  listed_once (parse_org_agenda_items [twice; meeting_file] (Date 2024 1 1))
  /\
  listed_once
    (parse_org_agenda_items_task_only [twice; meeting_file] (Date 2024 1 1)).
Proof.
  apply agenda_lists_have_no_repeats.
  apply NoDup_cons. split; [|apply NoDup_singleton].
  intros H. apply list_elem_of_singleton in H. discriminate H.
Defined.

(** X20: a status keyword in front of a heading is read off it: when the
    outline parser gave the node no keyword and the heading is one of
    ACTIVE, NEXT, TODO, WAIT, DONE followed by white space, the item's
    keyword is that word and its title is the rest of the heading, trimmed
    at both ends; when the parser gave a keyword, the heading is the title
    as it is. *)
Theorem status_keyword_read_from_heading k c ws rest todo :
  k ∈ status_keywords ->
  isspace c = true -> Forall (fun a => isspace a = true) ws ->
  (opt_truthy todo = false ->
   status_and_title (k ++ c :: ws ++ rest) todo = (Some k, strip rest)) /\
  (opt_truthy todo = true ->
   status_and_title (k ++ c :: ws ++ rest) todo
   = (todo, k ++ c :: ws ++ rest)).
Proof.
  intros Hk Hc Hws. unfold status_and_title. split; intros ->; [|done].
  assert (Htok : status_token status_keywords (k ++ c :: ws ++ rest)
                 = Some (k, drop_while isspace (c :: ws ++ rest))).
  { unfold status_keywords in *.
    repeat (apply elem_of_cons in Hk as [->|Hk]);
      [ apply (status_token_first [] _ _ c ws rest)
      | apply (status_token_first [py "ACTIVE"] _ _ c ws rest)
      | apply (status_token_first [py "ACTIVE"; py "NEXT"] _ _ c ws rest)
      | apply (status_token_first [py "ACTIVE"; py "NEXT"; py "TODO"]
                 _ _ c ws rest)
      | apply (status_token_first
                 [py "ACTIVE"; py "NEXT"; py "TODO"; py "WAIT"] _ _ c ws rest)
      | by apply elem_of_nil in Hk ];
      try done; by repeat constructor. }
  rewrite Htok. f_equal.
  rewrite <- lstrip_drop_while, strip_lstrip.
  change (c :: ws ++ rest) with ((c :: ws) ++ rest).
  apply strip_app_space. by constructor.
Qed.

Lemma status_keyword_read_from_heading_witness :
  (opt_truthy None = false ->
   status_and_title (py "NEXT" ++ " "%char :: py " " ++ py "Call Ann ") None
   = (Some (py "NEXT"), strip (py "Call Ann "))) /\
  (opt_truthy None = true ->
   status_and_title (py "NEXT" ++ " "%char :: py " " ++ py "Call Ann ") None
   = (None, py "NEXT" ++ " "%char :: py " " ++ py "Call Ann ")).
Proof.
  apply (status_keyword_read_from_heading (py "NEXT") " "%char (py " ")
           (py "Call Ann ") None).
  - unfold status_keywords. right. left.
  - reflexivity.
  - by repeat constructor.
Defined.

(** ** The chat bot *)

(** X12: a broadcast carries the message it was given, calls
    [send_message] for a prefix of the subscribers in their order, and for
    all of them when no call raises. *)
Theorem broadcast_tries_a_prefix {net : Type}
    (send_message : net -> str -> str -> res unit * net) bot (n : net) msg :
  let b := (send_notification_to_subscribers send_message bot n msg).2 in
  message b = msg /\
  (exists rest, subscribers bot = attempts b ++ rest) /\
  ((forall n' s, s ∈ subscribers bot ->
                 exists n'', send_message n' s msg = (Ok tt, n'')) ->
   attempts b = subscribers bot).
Proof.
  cbv zeta. unfold send_notification_to_subscribers.
  pose proof (send_loop_prefix send_message n (subscribers bot) msg)
    as (rest & Hrest & _).
  pose proof (send_loop_all_ok send_message n (subscribers bot) msg) as Hall.
  destruct (send_loop send_message n (subscribers bot) msg)
    as [[r n'] tried].
  simpl in *. split; [done|]. split; [by exists rest | done].
Qed.

(** X13: the notification-hours command never raises. It leaves the
    subscribers and the record of sent notifications alone, and when the
    hours were times of day before, they are times of day after: either
    the bot is unchanged, or both arguments were read as [%H:%M] and are
    the new hours. *)
Theorem cmd_notifications_keeps_hours_valid args bot :
  valid_time (notification_start bot) ->
  valid_time (notification_end bot) ->
  exists bot' reply,
    cmd_notifications args bot = Ok (bot', reply) /\
    valid_time (notification_start bot') /\
    valid_time (notification_end bot') /\
    subscribers bot' = subscribers bot /\
    sent_notifications bot' = sent_notifications bot /\
    (bot' = bot \/
     exists a0 a1 rest,
       args = a0 :: a1 :: rest /\
       strptime_hm a0 = Ok (notification_start bot') /\
       strptime_hm a1 = Ok (notification_end bot')).
Proof.
  intros Hs He. unfold cmd_notifications.
  assert (Hsame : forall reply : list ascii,
            exists bot' reply',
              Ok (bot, reply) = Ok (bot', reply') /\
              valid_time (notification_start bot') /\
              valid_time (notification_end bot') /\
              subscribers bot' = subscribers bot /\
              sent_notifications bot' = sent_notifications bot /\
              (bot' = bot \/
               exists a0 a1 rest,
                 args = a0 :: a1 :: rest /\
                 strptime_hm a0 = Ok (notification_start bot') /\
                 strptime_hm a1 = Ok (notification_end bot'))).
  { intros reply. exists bot, reply.
    split; [done|]. split; [done|]. split; [done|].
    split; [done|]. split; [done|]. by left. }
  destruct args as [|a0 [|a1 rest]]; [apply Hsame | apply Hsame |].
  destruct (strptime_hm a0) as [s|e0] eqn:E0; simpl.
  - destruct (strptime_hm a1) as [e|e1] eqn:E1; simpl.
    + eexists _, _. split; [done|]. simpl.
      split; [by eapply strptime_hm_valid|].
      split; [by eapply strptime_hm_valid|].
      split; [done|]. split; [done|].
      right. by exists a0, a1, rest.
    + rewrite (strptime_hm_error _ _ E1). apply Hsame.
  - rewrite (strptime_hm_error _ _ E0). apply Hsame.
Qed.

Lemma cmd_notifications_keeps_hours_valid_witness :
  exists bot' reply,
    cmd_notifications [py "8:5"; py "23:59"] (init [py "a@x"])
    = Ok (bot', reply) /\
    valid_time (notification_start bot') /\
    valid_time (notification_end bot') /\
    subscribers bot' = subscribers (init [py "a@x"]) /\
    sent_notifications bot' = sent_notifications (init [py "a@x"]) /\
    (bot' = init [py "a@x"] \/
     exists a0 a1 rest,
       [py "8:5"; py "23:59"] = a0 :: a1 :: rest /\
       strptime_hm a0 = Ok (notification_start bot') /\
       strptime_hm a1 = Ok (notification_end bot')).
Proof.
  apply cmd_notifications_keeps_hours_valid;
    unfold valid_time; simpl; lia.
Defined.

(** X14: the hours that the reply of an accepted command shows are read
    back as the hours that were set: sending the command again with the
    two times as printed sets the same hours and gets the same reply. *)
Theorem hours_shown_are_hours_set a0 a1 rest bot start_time end_time :
  strptime_hm a0 = Ok start_time ->
  strptime_hm a1 = Ok end_time ->
  let bot' := set_hours start_time end_time bot in
  cmd_notifications (a0 :: a1 :: rest) bot
  = Ok (bot', py "Notification hours set: " ++ strftime_hm start_time
              ++ py " - " ++ strftime_hm end_time) /\
  cmd_notifications [strftime_hm start_time; strftime_hm end_time] bot
  = cmd_notifications (a0 :: a1 :: rest) bot.
Proof.
  intros E0 E1 bot'.
  assert (H : forall s t, strptime_hm s = Ok t ->
                          strptime_hm (strftime_hm t) = Ok t).
  { intros s t E. pose proof (strptime_hm_valid _ _ E) as (Hh & Hm & _).
    rewrite strptime_strftime_hm by done. f_equal.
    unfold strptime_hm in E.
    destruct (hm_matches s) as [|[[h m] r] more]; [done|].
    destruct r; [|done]. by injection E as <-. }
  unfold cmd_notifications.
  rewrite (H _ _ E0), (H _ _ E1), E0, E1. done.
Qed.

Lemma hours_shown_are_hours_set_witness :
  let bot' := set_hours (Time 8 5 0 0) (Time 23 59 0 0) (init []) in
  cmd_notifications [py "8:5"; py "23:59"; py "more"] (init [])
  = Ok (bot', py "Notification hours set: " ++ strftime_hm (Time 8 5 0 0)
              ++ py " - " ++ strftime_hm (Time 23 59 0 0)) /\
  cmd_notifications
    [strftime_hm (Time 8 5 0 0); strftime_hm (Time 23 59 0 0)] (init [])
  = cmd_notifications [py "8:5"; py "23:59"; py "more"] (init []).
Proof.
  apply (hours_shown_are_hours_set (py "8:5") (py "23:59") [py "more"]);
    reflexivity.
Defined.

(** X15: the command accepts hours whose end is before their start, and
    with such hours no time of day is a notification time: the threshold
    watch and the periodic agenda send nothing, at any time and for any
    agenda, until the hours are changed. *)
Theorem inverted_hours_silence_the_bot {net : Type}
    (send_message : net -> str -> str -> res unit * net)
    a0 a1 rest bot start_time end_time :
  strptime_hm a0 = Ok start_time ->
  strptime_hm a1 = Ok end_time ->
  (microsecond_of_day end_time < microsecond_of_day start_time)%Z ->
  exists bot' reply,
    cmd_notifications (a0 :: a1 :: rest) bot = Ok (bot', reply) /\
    (forall at_, is_notification_time bot' at_ = false) /\
    (forall agenda checked_at now (n : net),
       threshold_watch_pass send_message agenda checked_at now bot' n
       = (bot', n, [])) /\
    (forall agenda checked_at now formatted_at c (n : net),
       periodic_pass send_message agenda checked_at now formatted_at bot' c n
       = (c, n, [])).
Proof.
  intros E0 E1 Hlt. unfold cmd_notifications. rewrite E0, E1. simpl.
  eexists _, _. split; [done|].
  assert (Hnever : forall at_,
            is_notification_time (set_hours start_time end_time bot) at_
            = false).
  { intros at_. unfold is_notification_time, time_le. simpl.
    apply andb_false_iff.
    destruct (Z.leb_spec (microsecond_of_day start_time)
                (microsecond_of_day (time_of at_))); [|by left].
    right. apply Z.leb_gt. lia. }
  split; [done|]. split.
  - intros. unfold threshold_watch_pass. by rewrite Hnever.
  - intros. unfold periodic_pass. by rewrite Hnever.
Qed.

Lemma inverted_hours_silence_the_bot_witness :
  exists bot' reply,
    cmd_notifications [py "22:00"; py "06:00"] (init [py "a@x"])
    = Ok (bot', reply) /\
    (forall at_, is_notification_time bot' at_ = false) /\
    (forall agenda checked_at now (n : unit),
       threshold_watch_pass always_ok agenda checked_at now bot' n
       = (bot', n, [])) /\
    (forall agenda checked_at now formatted_at c (n : unit),
       periodic_pass always_ok agenda checked_at now formatted_at bot' c n
       = (c, n, [])).
Proof.
  apply (inverted_hours_silence_the_bot always_ok (py "22:00") (py "06:00")
           [] (init [py "a@x"]) (Time 22 0 0 0) (Time 6 0 0 0));
    reflexivity.
Defined.

(** X16: with hours that start at 08:00 or later, as the constructor sets
    them, a pass of the threshold watch never sends the notice two hours
    ahead. The watch is run only inside the hours and takes every
    appointment of the day to be at 09:00; so when the clock does not go
    back between the test of the hours and the reading of [now], and the
    agenda is extracted for the day of that test, no broadcast of the
    pass, for any listing of files, begins with
    ["Appointment in ~2 hours:"]. *)
Theorem two_hour_notice_out_of_reach {net : Type}
    (send_message : net -> str -> str -> res unit * net)
    files checked_at now bot (n : net) :
  time_le (Time 8 0 0 0) (notification_start bot) = true ->
  (0 <= sub_datetime now checked_at)%Z ->
  Forall (fun b => startswith (py "Appointment in ~2 hours:") (message b)
                   = false)
    (threshold_watch_pass send_message
       (parse_org_agenda_items files (date_of checked_at))
       checked_at now bot n).2.
Proof.
  intros Hstart Hclock. unfold threshold_watch_pass.
  destruct (is_notification_time bot checked_at) eqn:Hin; [|constructor].
  apply Forall_forall. intros b Hb.
  apply do_calls_message in Hb as (c & Hc & Hmsg).
  assert (Hok : agenda_ok (date_of checked_at)
                  (parse_org_agenda_items files (date_of checked_at)))
    by apply parse_ok, empty_agenda_ok.
  destruct Hok as (Hsched & _).
  apply pass_calls_elem in Hc
    as [(item & d & -> & Hitem & Hd) | (item & t & ->)];
    simpl in Hmsg.
  - rewrite Forall_forall in Hsched. specialize (Hsched item Hitem).
    rewrite Hd in Hsched. injection Hsched as ->.
    pose proof (nine_oclock_within_the_hour bot checked_at now
                  Hstart Hin Hclock) as Hle.
    destruct (schedule_bucket _) as [[suffix lead]|] eqn:E; [|done].
    injection Hmsg as <-. unfold notification_text.
    by eapply schedule_lead_not_two_hours.
  - destruct (deadline_bucket _) as [[suffix lead]|] eqn:E; [|done].
    injection Hmsg as <-. unfold notification_text.
    by eapply deadline_lead_not_two_hours.
Qed.

Lemma two_hour_notice_out_of_reach_witness :
  Forall (fun b => startswith (py "Appointment in ~2 hours:") (message b)
                   = false)
    (threshold_watch_pass always_ok
       (parse_org_agenda_items [meeting_file] (Date 2024 1 1))
       (DateTime (Date 2024 1 1) (Time 8 0 0 0))
       (DateTime (Date 2024 1 1) (Time 8 0 0 0))
       (init [py "a@x"]) tt).2.
Proof.
  apply (two_hour_notice_out_of_reach always_ok [meeting_file]
           (DateTime (Date 2024 1 1) (Time 8 0 0 0))
           (DateTime (Date 2024 1 1) (Time 8 0 0 0))
           (init [py "a@x"]) tt).
  - reflexivity.
  - vm_compute. discriminate.
Defined.

(** X17: over any run of the periodic agenda loop, whatever the clock
    reads and whether or not the sends succeed, every automatic agenda is
    sent at least [agenda_interval] hours after the one before it, and the
    first one of the run that long after the last one before the run. *)
Theorem automatic_agendas_are_spaced {net : Type}
    (send_message : net -> str -> str -> res unit * net)
    turns bot c (n : net) :
  spaced (agenda_interval c) (last_agenda_sent c)
    (periodic_run send_message turns bot c n).2.
Proof. apply periodic_run_spaced. Qed.

(** X18: the agenda of either extractor is always formatted: every status
    that [format_agenda] looks up is a key of the agenda's status lists, so
    the text is produced for any listing of files. *)
Theorem extracted_agenda_is_formatted files today now :
  is_Some (format_agenda now (parse_org_agenda_items files today)) /\
  is_Some (format_agenda now (parse_org_agenda_items_task_only files today)).
Proof.
  assert (Hfull : agenda_ok today (parse_org_agenda_items files today))
    by apply parse_ok, empty_agenda_ok.
  assert (Htask : agenda_ok today
                    (parse_org_agenda_items_task_only files today)).
  { eapply agenda_rel_ok; [|exact Hfull]. apply parse_rel, empty_agenda_rel. }
  unfold format_agenda. split; apply fmap_is_Some;
    by eapply format_agenda_result_ok.
Qed.

(** X19: the agenda text is never the header alone, and however many
    tasks there are it has at most 29 entries for them: with the header,
    the two titles and one entry for each item scheduled or due today, at
    most 32 entries more than these items. *)
Theorem agenda_text_is_bounded now agenda result :
  format_agenda_result now agenda = Some result ->
  2 <= length result
  <= 32 + length (schedules_today agenda) + length (deadlines_today agenda).
Proof.
  unfold format_agenda_result. cbv zeta.
  destruct (list_truthy (schedules_today agenda));
    destruct (list_truthy (deadlines_today agenda));
    destruct (any_values (todos agenda));
    try (destruct (tasks_lines (todos agenda) open_keywords) as [ls|] eqn:Et;
         [apply tasks_lines_length in Et; unfold open_keywords in Et;
          cbn [length] in Et | done]);
    intros [= <-];
    try match goal with
      | |- context [(length ?r =? 1)%nat] =>
          destruct (Nat.eqb_spec (length r) 1) as [E|E]
      end;
    repeat first [ rewrite length_app | rewrite length_map
                 | progress cbn [length] ];
    lia.
Qed.

Lemma agenda_text_is_bounded_witness :
  exists result,
    format_agenda_result (DateTime (Date 2024 1 1) (Time 8 0 0 0))
      empty_agenda = Some result /\
    2 <= length result
    <= 32 + length (schedules_today empty_agenda)
       + length (deadlines_today empty_agenda).
Proof.
  eexists. split; [vm_compute; reflexivity|].
  apply (agenda_text_is_bounded (DateTime (Date 2024 1 1) (Time 8 0 0 0))
           empty_agenda).
  vm_compute. reflexivity.
Defined.

(** X21: the whitelist test never raises and looks only at the address
    before the first slash: an address with a resource is whitelisted
    exactly when the address without it is. *)
Theorem jid_resource_is_ignored whitelist bare resource :
  "/"%char ∉ bare ->
  is_whitelisted whitelist (bare ++ py "/" ++ resource)
  = Ok (bool_decide (bare ∈ whitelist)) /\
  is_whitelisted whitelist bare = Ok (bool_decide (bare ∈ whitelist)) /\
  forall jid, exists b, is_whitelisted whitelist jid = Ok b.
Proof.
  intros H. unfold is_whitelisted, bare_jid, index.
  change (py "/") with ["/"%char].
  change (bare ++ ["/"%char] ++ resource) with (bare ++ "/"%char :: resource).
  rewrite (split_char_first _ bare), (split_char_single _ bare) by done.
  split; [done|]. split; [done|].
  intros jid. pose proof (split_char_not_nil "/"%char jid) as Hne.
  destruct (split ["/"%char] jid) as [|b0 more]; [done|]. by eexists.
Qed.

Lemma jid_resource_is_ignored_witness :
  is_whitelisted {[py "ann@x.org"]} (py "ann@x.org" ++ py "/" ++ py "phone")
  = Ok (bool_decide (py "ann@x.org" ∈ ({[py "ann@x.org"]} : gset str))) /\
  is_whitelisted {[py "ann@x.org"]} (py "ann@x.org")
  = Ok (bool_decide (py "ann@x.org" ∈ ({[py "ann@x.org"]} : gset str))) /\
  forall jid, exists b,
    is_whitelisted ({[py "ann@x.org"]} : gset str) jid = Ok b.
Proof.
  apply (jid_resource_is_ignored {[py "ann@x.org"]} (py "ann@x.org")
           (py "phone")).
  vm_compute. intros Hin.
  repeat (apply elem_of_cons in Hin as [Hin|Hin]; [discriminate|]).
  by apply elem_of_nil in Hin.
Defined.
